(** * deemon: the daemon-mediated attachment subsystem

    A shallow embedding of [src/main.ts]: the address resolver
    ([getIPCHandle]), the daemon ([spawnCommand]: output buffer, replay,
    live forwarding, shutdown), the client ([connect], [main] and the
    handlers [main] registers) and the statements that read the command
    line and start [main].

    The program is event driven.  Each callback the source registers is a
    state transformer here, named after the callback; [Daemon.step] and
    [Client.step] deliver one event of the Node runtime to the callback
    registered for it.  An event is the emission Node makes (a ['data']
    chunk, a ['close'], a timer firing), so "the child produces bytes"
    means: [child.stdout] or [child.stderr] emits ['data']. *)

From stdpp Require Import base gmap sets list strings pretty.
From Stdlib Require Import ZArith Lia.

(** ** JavaScript values *)

Module JS.

(** A variable declared [T | undefined] that is assigned a [T | null]. *)
Inductive Val (A : Type) : Type :=
| Undefined
| Null
| Def (a : A).
Arguments Undefined {A}.
Arguments Null {A}.
Arguments Def {A} a.

(** [v !== undefined] *)
Definition is_defined {A} (v : Val A) : bool :=
  match v with Undefined => false | _ => true end.

(** [v ?? d] *)
Definition nullish {A} (v : Val A) (d : A) : A :=
  match v with Def a => a | _ => d end.

(** An event argument typed [T | null]. *)
Definition of_nullable {A} (o : option A) : Val A :=
  match o with Some a => Def a | None => Null end.

(** Template-literal interpolation [`${v}`] of a number and of a string. *)
Definition show_number (v : Val Z) : string :=
  match v with Undefined => "undefined" | Null => "null" | Def z => pretty z end.

Definition show_string (v : Val string) : string :=
  match v with Undefined => "undefined" | Null => "null" | Def s => s end.

(** [new Uint8Array([z])[0]]: the element conversion ToUint8, for an
    integral number. *)
Definition ToUint8 (z : Z) : Z := (z mod 256)%Z.

(** The bytes [socket.write(str)] sends for a string of 7-bit characters. *)
Definition bytes_of_string (s : string) : list Z :=
  (λ c, Z.of_N (Ascii.N_of_ascii c)) <$> String.list_ascii_of_string s.
Arguments bytes_of_string : simpl never.

(** ["\n"] *)
Definition nl : string := String (Ascii.ascii_of_nat 10) EmptyString.

(** [Array.prototype.toString] on an array of strings: [join(",")]. *)
Fixpoint toString (args : list string) : string :=
  match args with
  | [] => ""
  | [a] => a
  | a :: rest => a +:+ "," +:+ toString rest
  end.

End JS.

(** ** The command line: [Command] and [Options] *)

Record Command := mkCommand {
  path : string;
  args : list string;
  cwd : string;
}.

Record Options := mkOptions {
  daemon : bool;
  kill : bool;
  restart : bool;
  detach : bool;
  wait : bool;
  attach : bool;
}.

(** The wire protocol's command bytes. *)
Definition KILL : Z := 0.
Definition TALK : Z := 1.

(** ** What the process reads from its surroundings

    [crypto], [path] and [os] are Node modules, not code of the repository:
    the digest and [path.join] are fields here, so every statement below
    holds for whatever functions they are. *)

Record Env := mkEnv {
  md5_hex : string → string;           (* createHash("md5") ... digest("hex") of the bytes fed *)
  path_join : string → string → string;  (* path.join *)
  platform : string;                   (* process.platform *)
  xdg_runtime_dir : option string;     (* process.env["XDG_RUNTIME_DIR"] *)
  tmpdir : string;                     (* os.tmpdir() *)
  execPath : string;                   (* process.execPath *)
  script : string;                     (* process.argv[1] *)
  isTTY : bool;                        (* process.stdin.isTTY && process.stdin.setRawMode *)
}.

(** ** AddressResolver: [getIPCHandle] *)

Module Hash.

(** A [crypto.Hash] object: the input fed so far. *)
Definition t := string.
Definition createHash : t := "".
Definition update (h : t) (data : string) : t := h +:+ data.
Definition digest (env : Env) (h : t) : string := md5_hex env h.

End Hash.

(** [a || b] on strings, [a] possibly absent: the empty string is falsy. *)
Definition or_else (a : option string) (b : string) : string :=
  match a with
  | Some s => if String.eqb s "" then b else s
  | None => b
  end.

Definition getIPCHandle (env : Env) (command : Command) : string :=
  let scope :=
    Hash.digest env
      (Hash.update
         (Hash.update
            (Hash.update Hash.createHash (path command))
            (JS.toString (args command)))
         (cwd command)) in
  if String.eqb (platform env) "win32"
  then "\\.\pipe\daemon-" +:+ scope
  else path_join env
         (or_else (xdg_runtime_dir env) (tmpdir env))
         ("daemon-" +:+ scope +:+ ".sock").

(** ** OutputBuffer: the [BufferListStream] [bl], as the bytes it holds *)

Module BufferList.

Abbreviation t := (list Z).
Definition append (b : t) (data : list Z) : t := b ++ data.
Definition length (b : t) : Z := Z.of_nat (List.length b).
(** [consume(n)] drops [n] bytes from the front, nothing when [n <= 0]. *)
Definition consume (b : t) (n : Z) : t := drop (Z.to_nat n) b.
(** [duplicate()] is a new list over the same chunks: later [append] and
    [consume] on [b] do not reach it. *)
Definition duplicate (b : t) : t := b.

(** The body of [onData], for a buffer capped at [cap] bytes. *)
Definition capped_append (cap : Z) (b : t) (data : list Z) : t :=
  let b := append b data in
  if (length b >? cap)%Z then consume b (length b - cap) else b.

End BufferList.

(** The cap in the current source, and the one in the earlier revision. *)
Definition CAPACITY : Z := 100000000.
Definition CAPACITY_1MB : Z := 1000000.

(** ** DaemonCore: [spawnCommand] *)

Module Daemon.

(** The two output streams of the child. *)
Inductive Stream := Stdout | Stderr.

(** A [net.Socket] on the daemon's side.  [sock_out] is what the daemon has
    handed to [write] and [end], in call order: the byte stream of the
    connection towards the client. *)
Record Socket := mkSocket {
  sock_out : list Z;
  sock_ended : bool;       (* end() was called *)
  sock_destroyed : bool;   (* destroy() was called *)
  sock_closed : bool;      (* 'close' was emitted *)
}.

Definition fresh_socket : Socket := mkSocket [] false false false.

Definition writable (sk : Socket) : bool :=
  negb (sock_ended sk) && negb (sock_destroyed sk) && negb (sock_closed sk).

(** The socket was ended and is not destroyed yet: a [write] fails with
    ERR_STREAM_WRITE_AFTER_END. *)
Definition write_after_end (sk : Socket) : bool :=
  sock_ended sk && negb (sock_destroyed sk) && negb (sock_closed sk).

(** What [socket.write(data)] does to the socket.  A write after [end]
    destroys the stream with its error; a write to a destroyed or closed
    socket sends nothing, and its error goes to the callback of [write]
    only. *)
Definition sock_write (data : list Z) (sk : Socket) : Socket :=
  if writable sk
  then mkSocket (sock_out sk ++ data) (sock_ended sk) (sock_destroyed sk) (sock_closed sk)
  else if write_after_end sk
  then mkSocket (sock_out sk) (sock_ended sk) true (sock_closed sk)
  else sk.

(** What [socket.end(data)] does to the socket: a last write, then the
    stream is finished. *)
Definition sock_end (data : list Z) (sk : Socket) : Socket :=
  if writable sk
  then mkSocket (sock_out sk ++ data) true (sock_destroyed sk) (sock_closed sk)
  else if write_after_end sk
  then mkSocket (sock_out sk) (sock_ended sk) true (sock_closed sk)
  else sk.

(** [socket.destroy()] *)
Definition sock_destroy (sk : Socket) : Socket :=
  mkSocket (sock_out sk) (sock_ended sk) true (sock_closed sk).

(** The socket after its ['close']. *)
Definition sock_close (sk : Socket) : Socket :=
  mkSocket (sock_out sk) (sock_ended sk) (sock_destroyed sk) true.

(** [bl.duplicate()] piped into a socket: the connection it feeds and the
    bytes of the snapshot it has not pushed yet. *)
Record Replay := mkReplay {
  rp_sock : nat;
  rp_rest : list Z;
}.

(** The callbacks [spawnCommand] hands to [setTimeout]. *)
Inductive Callback :=
| ClearJustSpawned                    (* () => justSpawned = false *)
| WriteBanner (s : nat) (msg : string)  (* () => socket.write(msg) *)
| CloseAndExit (exitCode : Z).        (* () => { server.close(); process.exit(exitCode) } *)

Record Timer := mkTimer {
  delay : Z;
  callback : Callback;
}.

(** The variables [spawnCommand] closes over, and the objects they point
    to.  Sockets, replay streams and timers are named by the order in which
    they were created. *)
Record State := mkState {
  bl : BufferList.t;
  clients : gset nat;               (* Set<net.Socket> *)
  stdout_pipes : list nat;          (* destinations of child.stdout.pipe, in call order *)
  stderr_pipes : list nat;          (* destinations of child.stderr.pipe *)
  justSpawned : bool;
  childExitCode : JS.Val Z;
  childSignal : JS.Val string;
  socks : gmap nat Socket;
  replays : gmap nat Replay;
  next_replay : nat;
  timers : gmap nat Timer;
  next_timer : nat;
  treekills : nat;                  (* calls of treekill(child.pid) so far *)
  listening : bool;                 (* the server is bound and was not closed *)
  child_closed : bool;              (* the child emitted 'close' *)
  exited : option Z;                (* process.exit(code) was called, or the process
                                       died of an uncaught exception, with status 1 *)
}.

Definition set_bl v σ := mkState v (clients σ) (stdout_pipes σ) (stderr_pipes σ) (justSpawned σ) (childExitCode σ) (childSignal σ) (socks σ) (replays σ) (next_replay σ) (timers σ) (next_timer σ) (treekills σ) (listening σ) (child_closed σ) (exited σ).
Definition set_clients v σ := mkState (bl σ) v (stdout_pipes σ) (stderr_pipes σ) (justSpawned σ) (childExitCode σ) (childSignal σ) (socks σ) (replays σ) (next_replay σ) (timers σ) (next_timer σ) (treekills σ) (listening σ) (child_closed σ) (exited σ).
Definition set_stdout_pipes v σ := mkState (bl σ) (clients σ) v (stderr_pipes σ) (justSpawned σ) (childExitCode σ) (childSignal σ) (socks σ) (replays σ) (next_replay σ) (timers σ) (next_timer σ) (treekills σ) (listening σ) (child_closed σ) (exited σ).
Definition set_stderr_pipes v σ := mkState (bl σ) (clients σ) (stdout_pipes σ) v (justSpawned σ) (childExitCode σ) (childSignal σ) (socks σ) (replays σ) (next_replay σ) (timers σ) (next_timer σ) (treekills σ) (listening σ) (child_closed σ) (exited σ).
Definition set_justSpawned v σ := mkState (bl σ) (clients σ) (stdout_pipes σ) (stderr_pipes σ) v (childExitCode σ) (childSignal σ) (socks σ) (replays σ) (next_replay σ) (timers σ) (next_timer σ) (treekills σ) (listening σ) (child_closed σ) (exited σ).
Definition set_childExitCode v σ := mkState (bl σ) (clients σ) (stdout_pipes σ) (stderr_pipes σ) (justSpawned σ) v (childSignal σ) (socks σ) (replays σ) (next_replay σ) (timers σ) (next_timer σ) (treekills σ) (listening σ) (child_closed σ) (exited σ).
Definition set_childSignal v σ := mkState (bl σ) (clients σ) (stdout_pipes σ) (stderr_pipes σ) (justSpawned σ) (childExitCode σ) v (socks σ) (replays σ) (next_replay σ) (timers σ) (next_timer σ) (treekills σ) (listening σ) (child_closed σ) (exited σ).
Definition set_socks v σ := mkState (bl σ) (clients σ) (stdout_pipes σ) (stderr_pipes σ) (justSpawned σ) (childExitCode σ) (childSignal σ) v (replays σ) (next_replay σ) (timers σ) (next_timer σ) (treekills σ) (listening σ) (child_closed σ) (exited σ).
Definition set_replays v n σ := mkState (bl σ) (clients σ) (stdout_pipes σ) (stderr_pipes σ) (justSpawned σ) (childExitCode σ) (childSignal σ) (socks σ) v n (timers σ) (next_timer σ) (treekills σ) (listening σ) (child_closed σ) (exited σ).
Definition set_timers v n σ := mkState (bl σ) (clients σ) (stdout_pipes σ) (stderr_pipes σ) (justSpawned σ) (childExitCode σ) (childSignal σ) (socks σ) (replays σ) (next_replay σ) v n (treekills σ) (listening σ) (child_closed σ) (exited σ).
Definition set_treekills v σ := mkState (bl σ) (clients σ) (stdout_pipes σ) (stderr_pipes σ) (justSpawned σ) (childExitCode σ) (childSignal σ) (socks σ) (replays σ) (next_replay σ) (timers σ) (next_timer σ) v (listening σ) (child_closed σ) (exited σ).
Definition set_listening v σ := mkState (bl σ) (clients σ) (stdout_pipes σ) (stderr_pipes σ) (justSpawned σ) (childExitCode σ) (childSignal σ) (socks σ) (replays σ) (next_replay σ) (timers σ) (next_timer σ) (treekills σ) v (child_closed σ) (exited σ).
Definition set_child_closed v σ := mkState (bl σ) (clients σ) (stdout_pipes σ) (stderr_pipes σ) (justSpawned σ) (childExitCode σ) (childSignal σ) (socks σ) (replays σ) (next_replay σ) (timers σ) (next_timer σ) (treekills σ) (listening σ) v (exited σ).
Definition set_exited v σ := mkState (bl σ) (clients σ) (stdout_pipes σ) (stderr_pipes σ) (justSpawned σ) (childExitCode σ) (childSignal σ) (socks σ) (replays σ) (next_replay σ) (timers σ) (next_timer σ) (treekills σ) (listening σ) (child_closed σ) v.

(** *** Operations on the objects *)

(** A change [f] of socket [s]. *)
Definition on_sock (s : nat) (f : Socket → Socket) (σ : State) : State :=
  set_socks (alter f s (socks σ)) σ.

(** An ['error'] is emitted on an object for which [spawnCommand] has
    registered no ['error'] listener (it registers none at all): the error
    is thrown, nothing catches it, and the process dies with status 1.  The
    emission comes on the next tick, so a [process.exit] later in the
    running callback comes first. *)
Definition uncaught (σ : State) : State :=
  set_exited (Some 1%Z) (set_listening false σ).

(** A write to socket [s] would fail. *)
Definition raises (s : nat) (σ : State) : bool :=
  match socks σ !! s with
  | Some sk => write_after_end sk
  | None => false
  end.

(** [socket.write(data)], also when a stream piped into the socket does
    it. *)
Definition write (s : nat) (data : list Z) (σ : State) : State :=
  let σ' := on_sock s (sock_write data) σ in
  if raises s σ then uncaught σ' else σ'.

(** [socket.end(data)] *)
Definition end_ (s : nat) (data : list Z) (σ : State) : State :=
  let σ' := on_sock s (sock_end data) σ in
  if raises s σ then uncaught σ' else σ'.

(** [socket.destroy()] *)
Definition destroy (s : nat) (σ : State) : State :=
  on_sock s sock_destroy σ.

(** A readable stream piped into socket [s] has [data] to hand on: its
    ['data'] listener writes the chunk, and there is no chunk of no
    bytes. *)
Definition push (s : nat) (data : list Z) (σ : State) : State :=
  match data with
  | [] => σ
  | _ :: _ => write s data σ
  end.

(** [setTimeout(cb, ms)] *)
Definition setTimeout (cb : Callback) (ms : Z) (σ : State) : State :=
  set_timers (<[next_timer σ := mkTimer ms cb]> (timers σ)) (S (next_timer σ)) σ.

Definition pipes_of (st : Stream) (σ : State) : list nat :=
  match st with Stdout => stdout_pipes σ | Stderr => stderr_pipes σ end.

Definition set_pipes_of (st : Stream) (l : list nat) (σ : State) : State :=
  match st with Stdout => set_stdout_pipes l σ | Stderr => set_stderr_pipes l σ end.

(** [child.stdout.pipe(socket, { end: false })]: one more destination; a
    stream piped twice into a socket writes every chunk twice. *)
Definition pipe (st : Stream) (s : nat) (σ : State) : State :=
  set_pipes_of st (pipes_of st σ ++ [s]) σ.

(** [unpipe(socket)] detaches one registration of the destination. *)
Fixpoint remove_first (s : nat) (l : list nat) : list nat :=
  match l with
  | [] => []
  | x :: l' => if Nat.eqb x s then l' else x :: remove_first s l'
  end.

Definition unpipe (st : Stream) (s : nat) (σ : State) : State :=
  set_pipes_of st (remove_first s (pipes_of st σ)) σ.

(** [for (const client of clients) f(client)], for an [f] that acts on the
    client's socket: the calls are on different sockets, so their order
    does not matter. *)
Definition for_clients (f : nat → State → State) (σ : State) : State :=
  set_fold f σ (clients σ).

(** *** The callbacks *)

Definition onData (data : list Z) (σ : State) : State :=
  set_bl (BufferList.capped_append CAPACITY (bl σ) data) σ.

(** ['data'] on [child.stdout] or [child.stderr]: [onData] was registered
    first, then one listener per [pipe] call. *)
Definition child_on_data (st : Stream) (data : list Z) (σ : State) : State :=
  let σ := onData data σ in
  foldl (λ σ s, write s data σ) σ (pipes_of st σ).

Definition stopped_message (σ : State) : string :=
  "[deemon] Daemon was stopped when client attached (exit code "
    +:+ JS.show_number (childExitCode σ) +:+ ", signal "
    +:+ JS.show_string (childSignal σ) +:+ ")." +:+ JS.nl.
Arguments stopped_message : simpl never.

Definition spawned_message : string :=
  "[deemon] Spawned build daemon. Press Ctrl-C to detach, Ctrl-D to kill." +:+ JS.nl.

Definition attached_message : string :=
  "[deemon] Attached to running build daemon. Press Ctrl-C to detach, Ctrl-D to kill." +:+ JS.nl.

(** [bufferStream.on("end", ...)], for the replay piped into [socket]. *)
Definition bufferStream_on_end (socket : nat) (σ : State) : State :=
  if JS.is_defined (childExitCode σ) || JS.is_defined (childSignal σ) then
    let exitCode := JS.nullish (childExitCode σ) 1%Z in
    let σ := for_clients (λ client, end_ client [JS.ToUint8 exitCode]) σ in
    let σ := write socket (JS.bytes_of_string (stopped_message σ)) σ in
    let σ := end_ socket [JS.ToUint8 exitCode] σ in
    setTimeout (CloseAndExit exitCode) 0 σ
  else
    let σ := pipe Stdout socket σ in
    let σ := pipe Stderr socket σ in
    let σ := set_clients ({[socket]} ∪ clients σ) σ in
    if justSpawned σ then
      let σ := setTimeout (WriteBanner socket spawned_message) 200 σ in
      set_justSpawned false σ
    else
      setTimeout (WriteBanner socket attached_message) 0 σ.

(** [socket.on("data", ...)] *)
Definition socket_on_data (socket : nat) (buffer : list Z) (σ : State) : State :=
  match buffer !! 0%nat with
  | Some command =>
      if (command =? KILL)%Z then
        set_treekills (S (treekills σ)) σ
      else if (command =? TALK)%Z then
        let bufferStream := mkReplay socket (BufferList.duplicate (bl σ)) in
        set_replays (<[next_replay σ := bufferStream]> (replays σ)) (S (next_replay σ)) σ
      else σ
  | None => σ
  end.

(** [socket.on("close", ...)] *)
Definition socket_on_close (socket : nat) (σ : State) : State :=
  if bool_decide (socket ∈ clients σ) then
    let σ := unpipe Stdout socket σ in
    let σ := unpipe Stderr socket σ in
    set_clients (clients σ ∖ {[socket]}) σ
  else σ.

(** [child.on("close", ...)] *)
Definition child_on_close (options : Options) (code : option Z) (signal : option string)
    (σ : State) : State :=
  if wait options && bool_decide (size (clients σ) = 0%nat) then
    let σ := set_childExitCode (JS.of_nullable code) σ in
    set_childSignal (JS.of_nullable signal) σ
  else
    let exitCode := JS.nullish (JS.of_nullable code) 1%Z in
    let σ := for_clients (λ client σ,
               destroy client (end_ client [JS.ToUint8 exitCode] σ)) σ in
    let σ := set_listening false σ in
    set_exited (Some exitCode) σ.

Definition run_callback (cb : Callback) (σ : State) : State :=
  match cb with
  | ClearJustSpawned => set_justSpawned false σ
  | WriteBanner s msg => write s (JS.bytes_of_string msg) σ
  | CloseAndExit exitCode => set_exited (Some exitCode) (set_listening false σ)
  end.

(** The state [spawnCommand] leaves behind when it returns: the server is
    listening, the child runs, and the timer that clears [justSpawned] is
    pending. *)
Definition spawnCommand : State :=
  setTimeout ClearJustSpawned 210
    (mkState [] ∅ [] [] true JS.Undefined JS.Undefined ∅ ∅ 0 ∅ 0 0 true false None).

(** *** Events *)

Inductive Event :=
| ChildData (st : Stream) (data : list Z)   (* 'data' on child.stdout / child.stderr *)
| ChildClose (code : option Z) (signal : option string)  (* 'close' on child *)
| Connection (s : nat)      (* 'connection' on server, with a new socket *)
| SocketData (s : nat) (buffer : list Z)   (* 'data' on a socket *)
| SocketClose (s : nat)     (* 'close' on a socket *)
| ReplayRead (r : nat) (n : nat)  (* the replay stream pushes its next n bytes down its pipe *)
| ReplayEnd (r : nat)       (* the replay stream pushes what is left and emits 'end' *)
| Timeout (t : nat)         (* a pending timer fires *)
| SocketError (s : nat)     (* 'error' on a socket (ECONNRESET, EPIPE, ...) *)
| ChildError.               (* 'error' on child (it could not be spawned, ...) *)

(** One event, delivered to its callback.  [None]: the runtime cannot emit
    this event in this state (the process has exited, the child has closed,
    the socket or timer does not exist, ...).  Apart from that, events come
    in any order: nothing is assumed on how long a replay, a timer or the
    child takes. *)
Definition step (options : Options) (σ : State) (e : Event) : option State :=
  match exited σ with
  | Some _ => None
  | None =>
    match e with
    | ChildData st data =>
        if child_closed σ then None else Some (child_on_data st data σ)
    | ChildClose code signal =>
        if child_closed σ then None
        else Some (child_on_close options code signal (set_child_closed true σ))
    | Connection s =>
        match socks σ !! s with
        | None => if listening σ then Some (set_socks (<[s := fresh_socket]> (socks σ)) σ) else None
        | Some _ => None
        end
    | SocketData s buffer =>
        match socks σ !! s with
        | Some sk =>
            if sock_closed sk || sock_destroyed sk then None
            else Some (socket_on_data s buffer σ)
        | None => None
        end
    | SocketClose s =>
        match socks σ !! s with
        | Some sk =>
            if sock_closed sk then None
            else Some (socket_on_close s (on_sock s sock_close σ))
        | None => None
        end
    | ReplayRead r n =>
        match replays σ !! r with
        | Some rp =>
            let σ := push (rp_sock rp) (take n (rp_rest rp)) σ in
            Some (set_replays (<[r := mkReplay (rp_sock rp) (drop n (rp_rest rp))]> (replays σ))
                    (next_replay σ) σ)
        | None => None
        end
    | ReplayEnd r =>
        match replays σ !! r with
        | Some rp =>
            let σ := push (rp_sock rp) (rp_rest rp) σ in
            let σ := set_replays (delete r (replays σ)) (next_replay σ) σ in
            Some (bufferStream_on_end (rp_sock rp) σ)
        | None => None
        end
    | Timeout t =>
        match timers σ !! t with
        | Some tm =>
            Some (run_callback (callback tm) (set_timers (delete t (timers σ)) (next_timer σ) σ))
        | None => None
        end
    | SocketError s =>
        match socks σ !! s with
        | Some sk =>
            if sock_closed sk || sock_destroyed sk then None
            else Some (uncaught σ)
        | None => None
        end
    | ChildError =>
        if child_closed σ then None else Some (uncaught σ)
    end
  end.

Fixpoint run (options : Options) (σ : State) (es : list Event) : option State :=
  match es with
  | [] => Some σ
  | e :: es' =>
      match step options σ e with
      | Some σ' => run options σ' es'
      | None => None
      end
  end.

(** Everything the child has emitted in a run. *)
Fixpoint produced (es : list Event) : list Z :=
  match es with
  | [] => []
  | ChildData _ data :: es' => data ++ produced es'
  | _ :: es' => produced es'
  end.

End Daemon.

(** ** ClientSession: [connect], [main] and the handlers of an attached client *)

Module Client.

(** What the client does to the world outside it, in the order it does it. *)
Inductive Effect :=
| Connect (handle : string)                  (* net.createConnection(handle) *)
| Unlink (handle : string)                   (* fs.promises.unlink(handle) *)
| Spawn (exe : string) (argv : list string)  (* cp.spawn(exe, argv, { detached: true, stdio: "ignore" }) *)
| Sleep (ms : Z)                             (* await new Promise(c => setTimeout(c, ms)) *)
| Listen (handle : string)                   (* createServer(handle) *)
| RunDaemon                                  (* spawnCommand(server, command, options) *)
| SocketWrite (s : nat) (data : list Z)      (* socket.write(data) *)
| StdoutWrite (data : list Z)                (* process.stdout.write(data) *)
| ConsoleLog (msg : string)
| ConsoleError (msg : string)
| SetRawMode.                                (* process.stdin.setRawMode(true) *)

(** The world: how the next connection attempts, unlinks and the bind will
    end ([None]: success, [Some code]: rejected with [err.code = code]; an
    exhausted list means success), the number of sockets opened so far, and
    the effects so far. *)
Record World := mkWorld {
  connect_results : list (option string);
  unlink_results : list (option string);
  listen_result : option string;
  opened : nat;
  trace : list Effect;
}.

(** How a piece of the program ends: with a value, with a thrown error
    (its [code]), or in [process.exit(status)]. *)
Inductive Outcome (A : Type) : Type :=
| Ok (a : A)
| Throw (code : string)
| Exit (status : Z).
Arguments Ok {A} a.
Arguments Throw {A} code.
Arguments Exit {A} status.

Definition M (A : Type) : Type := World → Outcome A * World.

#[global] Instance M_ret : MRet M := λ A a w, (Ok a, w).

#[global] Instance M_bind : MBind M := λ A B k m w,
  match m w with
  | (Ok a, w') => k a w'
  | (Throw c, w') => (Throw c, w')
  | (Exit n, w') => (Exit n, w')
  end.

Definition throw {A} (code : string) : M A := λ w, (Throw code, w).

Definition process_exit {A} (status : Z) : M A := λ w, (Exit status, w).

(** [try { body } catch (err) { handler(err) }] *)
Definition try_catch {A} (body : M A) (handler : string → M A) : M A :=
  λ w, match body w with
       | (Throw c, w') => handler c w'
       | r => r
       end.

Definition emit (e : Effect) (w : World) : World :=
  mkWorld (connect_results w) (unlink_results w) (listen_result w) (opened w) (trace w ++ [e]).

Definition effect (e : Effect) : M unit := λ w, (Ok tt, emit e w).

(** [await createConnection(handle)]: resolves with a new socket, or
    rejects. *)
Definition createConnection (handle : string) : M nat :=
  λ w, let w := emit (Connect handle) w in
       match connect_results w with
       | Some code :: rest =>
           (Throw code, mkWorld rest (unlink_results w) (listen_result w) (opened w) (trace w))
       | None :: rest =>
           (Ok (opened w), mkWorld rest (unlink_results w) (listen_result w) (S (opened w)) (trace w))
       | [] =>
           (Ok (opened w), mkWorld [] (unlink_results w) (listen_result w) (S (opened w)) (trace w))
       end.

(** [await fs.promises.unlink(handle)] *)
Definition unlink (handle : string) : M unit :=
  λ w, let w := emit (Unlink handle) w in
       match unlink_results w with
       | Some code :: rest =>
           (Throw code, mkWorld (connect_results w) rest (listen_result w) (opened w) (trace w))
       | _ :: rest =>
           (Ok tt, mkWorld (connect_results w) rest (listen_result w) (opened w) (trace w))
       | [] => (Ok tt, w)
       end.

(** [await createServer(handle)] *)
Definition createServer (handle : string) : M unit :=
  λ w, let w := emit (Listen handle) w in
       match listen_result w with
       | Some code => (Throw code, w)
       | None => (Ok tt, w)
       end.

Definition spawnDaemon (env : Env) (command : Command) (options : Options) : M unit :=
  let argv := [script env; "--daemon"] in
  let argv := if wait options then argv ++ ["--wait"] else argv in
  let argv := argv ++ path command :: args command in
  effect (Spawn (execPath env) argv).
Arguments spawnDaemon : simpl never.

Definition connect (env : Env) (command : Command) (handle : string) (options : Options)
    : M nat :=
  try_catch (createConnection handle) (λ err,
    (if attach options && (String.eqb err "ENOENT" || String.eqb err "ECONNREFUSED") then
       effect (ConsoleError "[deemon] No daemon running.") ;;
       process_exit 1
     else if String.eqb err "ECONNREFUSED" then
       unlink handle
     else if negb (String.eqb err "ENOENT") then
       throw err
     else mret tt) ;;
    spawnDaemon env command options ;;
    effect (Sleep 200) ;;
    createConnection handle).

(** How [main] leaves the process when it returns normally: attached, with
    the keypress, ['data'] and ['close'] handlers registered on [socket];
    or with nothing registered (kill mode, daemon mode). *)
Inductive Started :=
| Attached (socket : nat)
| Returned.

Definition main (env : Env) (command : Command) (options : Options) : M Started :=
  let handle := getIPCHandle env command in
  if daemon options then
    createServer handle ;;
    effect RunDaemon ;;
    mret Returned
  else if detach options then
    spawnDaemon env command options ;;
    effect (ConsoleLog "[deemon] Detached from build daemon.") ;;
    (if wait options
     then effect (ConsoleLog "[deemon] Daemon will wait for a client to connect before exiting.")
     else mret tt) ;;
    process_exit 0
  else
    socket ← connect env command handle options;
    if kill options then
      effect (SocketWrite socket [KILL]) ;;
      mret Returned
    else
      socket ← (if restart options then
                  effect (SocketWrite socket [KILL]) ;;
                  effect (Sleep 500) ;;
                  connect env command handle options
                else mret socket);
      effect (SocketWrite socket [TALK]) ;;
      (if isTTY env then effect SetRawMode else mret tt) ;;
      mret (Attached socket).

(** The variables the handlers of an attached client close over. *)
Record Session := mkSession {
  socket : nat;
  lastByte : option Z;          (* Buffer of one byte, or null *)
  lastByteTimer : bool;         (* the timer set last is still pending *)
  effects : list Effect;
  status : option Z;            (* process.exit(status) was called *)
}.

Definition attached (socket : nat) (w : World) : Session :=
  mkSession socket None false (trace w) None.

Definition do (e : Effect) (c : Session) : Session :=
  mkSession (socket c) (lastByte c) (lastByteTimer c) (effects c ++ [e]) (status c).

Definition exit (n : Z) (c : Session) : Session :=
  mkSession (socket c) (lastByte c) (lastByteTimer c) (effects c) (Some n).

Definition set_lastByte (b : option Z) (c : Session) : Session :=
  mkSession (socket c) b (lastByteTimer c) (effects c) (status c).

Definition set_lastByteTimer (t : bool) (c : Session) : Session :=
  mkSession (socket c) (lastByte c) t (effects c) (status c).

Definition ctrl_c : string := String (Ascii.ascii_of_nat 3) EmptyString.
Definition ctrl_d : string := String (Ascii.ascii_of_nat 4) EmptyString.

(** [process.stdin.on("keypress", ...)] *)
Definition on_keypress (code : string) (c : Session) : Session :=
  if String.eqb code ctrl_c then
    let c := do (ConsoleLog "[deemon] Detached from build daemon.") c in
    exit 0 c
  else if String.eqb code ctrl_d then
    let c := do (ConsoleLog "[deemon] Killed build daemon.") c in
    let c := do (SocketWrite (socket c) [KILL]) c in
    exit 0 c
  else c.

(** [process.stdout.write(lastByte)], [lastByte] possibly null. *)
Definition write_lastByte (c : Session) : Session :=
  match lastByte c with
  | Some b => do (StdoutWrite [b]) c
  | None => c
  end.

(** [socket.on('data', ...)] *)
Definition on_data (data : list Z) (c : Session) : Session :=
  let c := set_lastByteTimer false c in                      (* clearTimeout(lastByteTimer) *)
  if bool_decide (length data = 0%nat) then c
  else
    let c := write_lastByte c in
    let c := set_lastByte (last data) c in                   (* data.slice(data.length - 1) *)
    if bool_decide (1 < length data)%nat then
      let c := do (StdoutWrite (take (length data - 1) data)) c in
      set_lastByteTimer true c                               (* setTimeout(..., 100) *)
    else c.

(** The callback of [lastByteTimer]. *)
Definition on_lastByteTimer (c : Session) : Session :=
  write_lastByte c.

(** [socket.on("close", ...)] *)
Definition on_close (c : Session) : Session :=
  let code := match lastByte c with Some b => b | None => 0%Z end in
  let c := do (ConsoleLog ("[deemon] Build daemon exited with code " +:+ pretty code)) c in
  exit code c.

Inductive Event :=
| Keypress (code : string)
| Data (data : list Z)
| LastByteTimeout
| Close.

Definition step (c : Session) (e : Event) : option Session :=
  match status c with
  | Some _ => None
  | None =>
    match e with
    | Keypress code => Some (on_keypress code c)
    | Data data => Some (on_data data c)
    | LastByteTimeout =>
        if lastByteTimer c then Some (on_lastByteTimer (set_lastByteTimer false c)) else None
    | Close => Some (on_close c)
    end
  end.

Fixpoint run (c : Session) (es : list Event) : option Session :=
  match es with
  | [] => Some c
  | e :: es' =>
      match step c e with
      | Some c' => run c' es'
      | None => None
      end
  end.

(** What went to standard output, and what went to the daemon over
    connection [s]. *)
Fixpoint stdout (tr : list Effect) : list Z :=
  match tr with
  | [] => []
  | StdoutWrite data :: tr' => data ++ stdout tr'
  | _ :: tr' => stdout tr'
  end.

Fixpoint sent (s : nat) (tr : list Effect) : list Z :=
  match tr with
  | [] => []
  | SocketWrite s' data :: tr' => if Nat.eqb s' s then data ++ sent s tr' else sent s tr'
  | _ :: tr' => sent s tr'
  end.

End Client.

(** ** The entry point: the statements of [main.ts] after [main]

    [process.argv] is read into a command and its options, and [main] is
    started on them. *)

Module Argv.

(** [Array.prototype.findIndex], for a predicate of the element and its
    index: the first index at which it holds, [-1] when there is none. *)
Fixpoint findIndex_from {A} (p : A → nat → bool) (index : nat) (l : list A) : Z :=
  match l with
  | [] => (-1)%Z
  | a :: l' => if p a index then Z.of_nat index else findIndex_from p (S index) l'
  end.

Definition findIndex {A} (p : A → nat → bool) (l : list A) : Z :=
  findIndex_from p 0 l.

(** An index given to [slice], made relative to an array of [len]
    elements: a negative one counts from the end. *)
Definition relative (len i : Z) : Z :=
  if (i <? 0)%Z then Z.max (len + i) 0 else Z.min i len.

(** [Array.prototype.slice(start, end)]; without [end], up to the end of
    the array. *)
Definition slice {A} (l : list A) (start : Z) (end_ : option Z) : list A :=
  let len := Z.of_nat (length l) in
  let k := relative len start in
  let final := match end_ with Some e => relative len e | None => len end in
  take (Z.to_nat (final - k)) (drop (Z.to_nat k) l).

(** [Array.prototype.some] *)
Definition some {A} (p : A → bool) (l : list A) : bool := existsb p l.

(** [/^--/.test(arg)] *)
Definition is_option (arg : string) : bool := String.prefix "--" arg.

Definition commandPathIndex (argv : list string) : Z :=
  findIndex (λ arg index, negb (is_option arg) && (2 <=? index)%nat) argv.

(** [const [commandPath, ...commandArgs] = process.argv.slice(commandPathIndex)]
    and the [command] made of them; [None]: the slice is empty and
    [commandPath] is [undefined]. *)
Definition command (argv : list string) (cwd : string) : option Command :=
  match slice argv (commandPathIndex argv) None with
  | commandPath :: commandArgs => Some (mkCommand commandPath commandArgs cwd)
  | [] => None
  end.

Definition optionsArgv (argv : list string) : list string :=
  slice argv 2 (Some (commandPathIndex argv)).

Definition options (argv : list string) : Options :=
  let optionsArgv := optionsArgv argv in
  mkOptions
    (some (λ arg, String.eqb arg "--daemon") optionsArgv)
    (some (λ arg, String.eqb arg "--kill") optionsArgv)
    (some (λ arg, String.eqb arg "--restart") optionsArgv)
    (some (λ arg, String.eqb arg "--detach") optionsArgv)
    (some (λ arg, String.eqb arg "--wait") optionsArgv)
    (some (λ arg, String.eqb arg "--attach") optionsArgv).

Definition usage : string :=
  "Usage: npx deemon [OPTS] COMMAND [...ARGS]" +:+ JS.nl
  +:+ "Options:" +:+ JS.nl
  +:+ "  --kill     Kill the currently running daemon" +:+ JS.nl
  +:+ "  --detach   Detach the daemon" +:+ JS.nl
  +:+ "  --wait     Wait for a client to connect before exiting the daemon (only valid with --detach)" +:+ JS.nl
  +:+ "  --attach   Attach to the currently running daemon, exiting if it doesn't exist" +:+ JS.nl
  +:+ "  --restart  Restart the daemon".

(** The module's top-level statements, run on [process.argv = argv] in the
    directory [process.cwd() = cwd].  With [commandPath] undefined,
    [getIPCHandle] throws at [update(undefined)], inside [main]: the
    promise is rejected like for any other error. *)
Definition program (env : Env) (argv : list string) (cwd : string)
    : Client.M Client.Started :=
  if (Z.of_nat (length argv) <? 3)%Z then
    Client.effect (Client.ConsoleError usage) ;;
    Client.process_exit 1
  else
    Client.try_catch
      (match command argv cwd with
       | Some command => Client.main env command (options argv)
       | None => Client.throw "ERR_INVALID_ARG_TYPE"
       end)
      (λ err,
         Client.effect (Client.ConsoleError err) ;;
         Client.process_exit 1).

End Argv.

(** ** Earlier revisions of [connect]

    The sources hold two earlier revisions of the program.  In both,
    [connect] starts the daemon itself and [options.attach] does not exist
    yet; in the first one there is no [--wait] either. *)

Module Earlier.

(** [connect] of [src/main.ts], the revision before [--attach]. *)
Definition connect (env : Env) (command : Command) (handle : string) (options : Options)
    : Client.M nat :=
  Client.try_catch (Client.createConnection handle) (λ err,
    (if String.eqb err "ECONNREFUSED" then
       Client.unlink handle
     else if negb (String.eqb err "ENOENT") then
       Client.throw err
     else mret tt) ;;
    (let argv := [script env; "--daemon"] in
     let argv := if wait options then argv ++ ["--wait"] else argv in
     let argv := argv ++ path command :: args command in
     Client.effect (Client.Spawn (execPath env) argv)) ;;
    Client.effect (Client.Sleep 200) ;;
    Client.createConnection handle).

End Earlier.

Module First.

(** [connect] of the first revision: [connect(command, handle)]. *)
Definition connect (env : Env) (command : Command) (handle : string) : Client.M nat :=
  Client.try_catch (Client.createConnection handle) (λ err,
    (if String.eqb err "ECONNREFUSED" then
       Client.unlink handle
     else if negb (String.eqb err "ENOENT") then
       Client.throw err
     else mret tt) ;;
    Client.effect
      (Client.Spawn (execPath env) ([script env; "--daemon"] ++ path command :: args command)) ;;
    Client.effect (Client.Sleep 200) ;;
    Client.createConnection handle).

End First.

(** ** Vocabulary of the statements *)

(** *** Address resolution *)

(** What [getIPCHandle] feeds the hash for a command: the three fields, the
    arguments joined by commas, with nothing between the fields. *)
Definition hashed (command : Command) : string :=
  path command +:+ JS.toString (args command) +:+ cwd command.

(** An environment to instantiate statements with; its digest is a
    stand-in that returns its input. *)
Definition sample_env : Env :=
  mkEnv (λ input, input) (λ dir file, dir +:+ "/" +:+ file)
    "linux" None "/tmp" "/usr/bin/node" "/usr/lib/deemon/main.js" true.

(** A digest in hexadecimal, as [digest("hex")] returns it. *)
Definition is_hex (s : string) : bool :=
  forallb (λ c, bool_decide (c ∈ String.list_ascii_of_string "0123456789abcdef"))
    (String.list_ascii_of_string s).

(** An environment whose digest tells some inputs apart: the length of the
    input, in decimal digits. *)
Definition hex_env : Env :=
  mkEnv (λ input, pretty (String.length input)) (λ dir file, dir +:+ "/" +:+ file)
    "linux" None "/tmp" "/usr/bin/node" "/usr/lib/deemon/main.js" true.

(** A command and its handle in [sample_env]. *)
Definition sample_command : Command := mkCommand "make" ["watch"] "/src".
Definition sample_handle : string := getIPCHandle sample_env sample_command.

(** *** The daemon *)

(** The most recent [n] bytes of [l]: all of [l] when it has no more than
    [n]. *)
Definition most_recent (n : Z) (l : list Z) : list Z :=
  drop (Z.to_nat (Z.of_nat (length l) - n)) l.

(** A live client: registered in [clients], its connection still writable. *)
Definition live_client (σ : Daemon.State) (s : nat) (sk : Daemon.Socket) : Prop :=
  s ∈ Daemon.clients σ ∧ Daemon.socks σ !! s = Some sk ∧ Daemon.writable sk = true.

(** The state [σ], after an uncaught error when [b] holds. *)
Definition died (b : bool) (σ : Daemon.State) : Daemon.State :=
  if b then Daemon.uncaught σ else σ.

(** What a writable socket is after [data] was written to it. *)
Definition written (data : list Z) (sk : Daemon.Socket) : Daemon.Socket :=
  Daemon.mkSocket (Daemon.sock_out sk ++ data) false false false.

(** What a push of [data] does to the socket. *)
Definition sock_push (data : list Z) (sk : Daemon.Socket) : Daemon.Socket :=
  match data with
  | [] => sk
  | _ :: _ => Daemon.sock_write data sk
  end.

(** A write to one of the sockets [l] would fail. *)
Definition any_raises (l : list nat) (σ : Daemon.State) : bool :=
  existsb (λ s, Daemon.raises s σ) l.

(** The child's exit was recorded for a client to come:
    [childExitCode !== undefined || childSignal !== undefined]. *)
Definition recorded (σ : Daemon.State) : bool :=
  JS.is_defined (Daemon.childExitCode σ) || JS.is_defined (Daemon.childSignal σ).

(** The daemon has ended none of its connections. *)
Definition none_ended (m : gmap nat Daemon.Socket) : Prop :=
  ∀ s sk, m !! s = Some sk → Daemon.sock_ended sk = false.

Definition no_ended (σ : Daemon.State) : Prop := none_ended (Daemon.socks σ).

(** As long as the process lives and no exit of the child is recorded, the
    daemon has ended no connection: no write of its own can fail. *)
Definition healthy (σ : Daemon.State) : Prop :=
  Daemon.exited σ = None → recorded σ = false → no_ended σ.

(** An ['error'] on a socket or on the child. *)
Definition error_event (e : Daemon.Event) : bool :=
  match e with
  | Daemon.SocketError _ | Daemon.ChildError => true
  | _ => false
  end.

(** The status line a late client is sent, for the code and the signal of
    the child's ['close']. *)
Definition status_line (code : option Z) (signal : option string) : string :=
  "[deemon] Daemon was stopped when client attached (exit code "
    +:+ (match code with Some z => pretty z | None => "null" end)
    +:+ ", signal "
    +:+ (match signal with Some sg => sg | None => "null" end)
    +:+ ")." +:+ JS.nl.
Arguments status_line : simpl never.

(** The sockets after the end of a replay into [socket] that finds the
    child's exit recorded: the trailer on every client, the status line
    and the trailer on [socket]; and whether one of these calls fails. *)
Definition late_clients (σ : Daemon.State) : gmap nat Daemon.Socket :=
  foldr (λ s m, alter (Daemon.sock_end
                         [JS.ToUint8 (JS.nullish (Daemon.childExitCode σ) 1%Z)]) s m)
    (Daemon.socks σ) (elements (Daemon.clients σ)).

Definition late_status (socket : nat) (σ : Daemon.State) : gmap nat Daemon.Socket :=
  alter (Daemon.sock_write (JS.bytes_of_string (Daemon.stopped_message σ))) socket
    (late_clients σ).

Definition late_socks (socket : nat) (σ : Daemon.State) : gmap nat Daemon.Socket :=
  alter (Daemon.sock_end [JS.ToUint8 (JS.nullish (Daemon.childExitCode σ) 1%Z)]) socket
    (late_status socket σ).

Definition late_raises (socket : nat) (σ : Daemon.State) : bool :=
  any_raises (elements (Daemon.clients σ)) σ
  || Daemon.raises socket (Daemon.set_socks (late_clients σ) σ)
  || Daemon.raises socket (Daemon.set_socks (late_status socket σ) σ).

(** Socket [sk] became [sk'] by being sent the one trailer byte [b] last and
    being closed by the daemon. *)
Definition trailer_and_close (b : Z) (sk sk' : Daemon.Socket) : Prop :=
  Daemon.sock_out sk' = Daemon.sock_out sk ++ [b]
  ∧ Daemon.sock_ended sk' = true
  ∧ Daemon.sock_destroyed sk' = true.

(** The number of times [s] occurs among the destinations [l]. *)
Definition registrations (s : nat) (l : list nat) : nat :=
  length (filter (λ x, x = s) l).

(** Socket [s] is forwarded the child's output, once per stream, and was
    sent [out] so far: the process lives, the child runs, [s] is piped
    once from either stream, wherever among the destinations, and it is
    writable. *)
Definition forwarding (s : nat) (out : list Z) (σ : Daemon.State) : Prop :=
  Daemon.exited σ = None
  ∧ Daemon.child_closed σ = false
  ∧ registrations s (Daemon.stdout_pipes σ) = 1%nat
  ∧ registrations s (Daemon.stderr_pipes σ) = 1%nat
  ∧ ∃ sk,
      Daemon.socks σ !! s = Some sk
      ∧ Daemon.writable sk = true
      ∧ Daemon.sock_out sk = out.

(** Daemons to instantiate statements with: the options of a daemon, with
    and without [--wait], and three states the child's output ["hi"] has
    led to. *)
Definition plain_options : Options := mkOptions true false false false false false.
Definition wait_options : Options := mkOptions true false false false true false.

(** One client has connected and not spoken yet. *)
Definition connected_one : Daemon.State :=
  default Daemon.spawnCommand
    (Daemon.run plain_options Daemon.spawnCommand
       [Daemon.ChildData Daemon.Stdout [104; 105]%Z; Daemon.Connection 0]).

(** One client is attached and has been replayed the buffer. *)
Definition serving_one_run : list Daemon.Event :=
  [Daemon.ChildData Daemon.Stdout [104; 105]%Z;
   Daemon.Connection 0;
   Daemon.SocketData 0 [TALK];
   Daemon.ReplayEnd 0].

Definition serving_one : Daemon.State :=
  default Daemon.spawnCommand
    (Daemon.run plain_options Daemon.spawnCommand serving_one_run).

(** Wait mode, and nobody has connected yet. *)
Definition unattended : Daemon.State :=
  default Daemon.spawnCommand
    (Daemon.run wait_options Daemon.spawnCommand
       [Daemon.ChildData Daemon.Stdout [104; 105]%Z]).

(** *** The client *)

(** The argument vector [spawnDaemon] starts the daemon with. *)
Definition daemon_argv (env : Env) (command : Command) (options : Options) : list string :=
  [script env; "--daemon"] ++ (if wait options then ["--wait"] else [])
    ++ path command :: args command.
Arguments daemon_argv : simpl never.

(** Options of a client that attaches, launching the daemon if need be, and
    of one started with [--attach]. *)
Definition attach_options : Options := mkOptions false false false false false false.
Definition attach_only_options : Options := mkOptions false false false false false true.

(** The byte the client holds back, as a list of at most one byte. *)
Definition held (c : Client.Session) : list Z := option_list (Client.lastByte c).

(** All of a chunk but its last byte: [data.slice(0, data.length - 1)]. *)
Definition all_but_last (data : list Z) : list Z := take (length data - 1) data.

(** Nothing was sent to the daemon yet, on any connection. *)
Definition nothing_sent (w : Client.World) : Prop :=
  ∀ s, Client.sent s (Client.trace w) = [].

(** From [w] to [w'] the client sent nothing to the daemon; sockets may have
    been opened. *)
Definition quiet (w w' : Client.World) : Prop :=
  (∀ s, Client.sent s (Client.trace w') = Client.sent s (Client.trace w))
  ∧ (Client.opened w ≤ Client.opened w')%nat.

(** A program that sends nothing to the daemon. *)
Definition sends_nothing {A} (m : Client.M A) : Prop :=
  ∀ w, quiet w (m w).2.

(** From [w] to [w'] the client sent nothing to the daemon and opened no
    socket. *)
Definition still (w w' : Client.World) : Prop :=
  (∀ s, Client.sent s (Client.trace w') = Client.sent s (Client.trace w))
  ∧ Client.opened w' = Client.opened w.

(** A program that sends nothing and opens no socket. *)
Definition idles {A} (m : Client.M A) : Prop :=
  ∀ w, still w (m w).2.

(** A program that opens one socket, the next one, when it has a value and
    none otherwise; its value is that socket. *)
Definition opens_its_socket (m : Client.M nat) : Prop :=
  ∀ w, match (m w).1 with
       | Client.Ok sock =>
           sock = Client.opened w ∧ Client.opened (m w).2 = S (Client.opened w)
       | _ => Client.opened (m w).2 = Client.opened w
       end.

(** How often the client tried to connect, removed the socket file and
    started a daemon in a trace. *)
Definition is_connect (e : Client.Effect) : bool :=
  match e with Client.Connect _ => true | _ => false end.
Definition is_unlink (e : Client.Effect) : bool :=
  match e with Client.Unlink _ => true | _ => false end.
Definition is_spawn (e : Client.Effect) : bool :=
  match e with Client.Spawn _ _ => true | _ => false end.

Definition count (p : Client.Effect → bool) (tr : list Client.Effect) : nat :=
  length (filter (λ e, p e = true) tr).

(** *** The command line *)

(** The options that a list of option arguments switches on. *)
Definition switched_on (flags : list string) : Options :=
  mkOptions
    (bool_decide ("--daemon" ∈ flags))
    (bool_decide ("--kill" ∈ flags))
    (bool_decide ("--restart" ∈ flags))
    (bool_decide ("--detach" ∈ flags))
    (bool_decide ("--wait" ∈ flags))
    (bool_decide ("--attach" ∈ flags)).

(** The options of the daemon that [spawnDaemon] starts for a client run
    with [options]. *)
Definition daemon_options (options : Options) : Options :=
  mkOptions true false false false (wait options) false.

(** *** Runs of the daemon *)

(** The arguments of the child's ['close'] events in a run. *)
Fixpoint child_closes (es : list Daemon.Event) : list (option Z * option string) :=
  match es with
  | [] => []
  | Daemon.ChildClose code signal :: es' => (code, signal) :: child_closes es'
  | _ :: es' => child_closes es'
  end.

(** A chunk from a client whose first byte is [command]. *)
Definition chunk_of (command : Z) (e : Daemon.Event) : bool :=
  match e with
  | Daemon.SocketData _ (c :: _) => (c =? command)%Z
  | _ => false
  end.

(** The timer that closes the server and exits is pending. *)
Definition exit_pending (σ : Daemon.State) : Prop :=
  ∃ t tm exitCode,
    Daemon.timers σ !! t = Some tm ∧ Daemon.callback tm = Daemon.CloseAndExit exitCode.

(** [data], [n] times over. *)
Definition repeated (n : nat) (data : list Z) : list Z :=
  concat (replicate n data).

(** What holds of the exit status along a run: before the child's
    ['close'] nothing is recorded or scheduled, and only an ['error'] ends
    the process; after it, whatever exits the process does so with the code
    of that ['close'], an ['error'] apart and, once the exit is recorded, a
    failed write. *)
Definition exit_inv (es : list Daemon.Event) (σ : Daemon.State) : Prop :=
  (Daemon.exited σ = None → Daemon.listening σ = true)
  ∧ match child_closes es with
    | [] =>
        Daemon.child_closed σ = false
        ∧ (∀ n, Daemon.exited σ = Some n → n = 1%Z ∧ existsb error_event es = true)
        ∧ recorded σ = false ∧ ¬ exit_pending σ
    | [(code, signal)] =>
        Daemon.child_closed σ = true
        ∧ (∀ n, Daemon.exited σ = Some n →
             n = default 1%Z code
             ∨ n = 1%Z ∧ (existsb error_event es = true ∨ recorded σ = true))
        ∧ (∀ t tm c, Daemon.timers σ !! t = Some tm →
             Daemon.callback tm = Daemon.CloseAndExit c → c = default 1%Z code)
        ∧ (recorded σ = true → Daemon.childExitCode σ = JS.of_nullable code)
    | _ => False
    end.

(** A recorded exit means wait mode, a closed child and no client. *)
Definition recorded_inv (options : Options) (σ : Daemon.State) : Prop :=
  recorded σ = true →
  wait options = true ∧ Daemon.child_closed σ = true ∧ Daemon.clients σ = ∅.

(** Both streams of the child are piped into the same sockets, and every
    registered client is among them. *)
Definition pipes_inv (σ : Daemon.State) : Prop :=
  Daemon.stdout_pipes σ = Daemon.stderr_pipes σ
  ∧ ∀ s, s ∈ Daemon.clients σ → s ∈ Daemon.stdout_pipes σ.

(** The events after which [justSpawned] is false: the end of a replay
    that attaches its client, and the firing of the timer [spawnCommand]
    sets. *)
Definition clears_justSpawned (σ : Daemon.State) (e : Daemon.Event) : Prop :=
  match e with
  | Daemon.ReplayEnd _ => recorded σ = false
  | Daemon.Timeout t =>
      ∃ tm, Daemon.timers σ !! t = Some tm ∧ Daemon.callback tm = Daemon.ClearJustSpawned
  | _ => False
  end.

(** The daemon is idle after the child's end: the child has closed, the
    process lives, no replay is draining and no exit is scheduled. *)
Definition idle (σ : Daemon.State) : Prop :=
  Daemon.child_closed σ = true
  ∧ Daemon.exited σ = None
  ∧ Daemon.replays σ = ∅
  ∧ ¬ exit_pending σ.

(** A chunk from client [s] that starts with TALK. *)
Definition talk_from (s : nat) (e : Daemon.Event) : bool :=
  match e with
  | Daemon.SocketData s' (c :: _) => Nat.eqb s' s && (c =? TALK)%Z
  | _ => false
  end.

(** Nothing was written to [s], and nothing is set up that would write to
    it. *)
Definition silent (s : nat) (σ : Daemon.State) : Prop :=
  (∀ sk, Daemon.socks σ !! s = Some sk →
     Daemon.sock_out sk = [] ∧ Daemon.sock_ended sk = false)
  ∧ (s ∉ Daemon.stdout_pipes σ)
  ∧ (s ∉ Daemon.stderr_pipes σ)
  ∧ (s ∉ Daemon.clients σ)
  ∧ (∀ r rp, Daemon.replays σ !! r = Some rp → Daemon.rp_sock rp ≠ s)
  ∧ (∀ t tm s' msg, Daemon.timers σ !! t = Some tm →
       Daemon.callback tm = Daemon.WriteBanner s' msg → s' ≠ s).

(** A chunk, cut down to its first byte. *)
Definition first_byte_only (e : Daemon.Event) : Daemon.Event :=
  match e with
  | Daemon.SocketData s buffer => Daemon.SocketData s (take 1 buffer)
  | _ => e
  end.

(** *** Attaching

    The events in which the child runs on and no ['error'] is emitted. *)
Definition child_runs (e : Daemon.Event) : bool :=
  match e with
  | Daemon.ChildClose _ _ | Daemon.SocketError _ | Daemon.ChildError => false
  | _ => true
  end.

(** The ['close'] of connection [s]. *)
Definition closes (s : nat) (e : Daemon.Event) : bool :=
  match e with
  | Daemon.SocketClose s' => Nat.eqb s' s
  | _ => false
  end.

(** The ['end'] of replay [r]. *)
Definition ends_replay (r : nat) (e : Daemon.Event) : bool :=
  match e with
  | Daemon.ReplayEnd r' => Nat.eqb r' r
  | _ => false
  end.

(** What leaves the client on connection [s] as it is while its replay
    drains: every event but a further TALK chunk from [s], the ['close'] of
    [s] and the ['end'] of its replay [r]. *)
Definition lets_drain (s r : nat) (e : Daemon.Event) : bool :=
  negb (talk_from s e) && negb (closes s e) && negb (ends_replay r e).

(** What leaves an attached client on connection [s] attached: every event
    in which the child runs on and no error is emitted, but a further TALK
    chunk from [s] and the ['close'] of [s].  The chunks of the child, the
    timers, and all that other connections and their replays do are among
    them. *)
Definition keeps_attached (s : nat) (e : Daemon.Event) : bool :=
  child_runs e && negb (talk_from s e) && negb (closes s e).

(** What one event writes to an attached client whose banner timer is
    [banner] (the timer and the bytes of the banner; [None] once it has
    fired), and the banner timer after the event: a chunk of the child is
    written as it is, the banner when its timer fires, nothing else. *)
Definition emitted (banner : option (nat * list Z)) (e : Daemon.Event)
    : list Z * option (nat * list Z) :=
  match e with
  | Daemon.ChildData _ data => (data, banner)
  | Daemon.Timeout t =>
      match banner with
      | Some (tb, bytes) => if Nat.eqb t tb then (bytes, None) else ([], banner)
      | None => ([], None)
      end
  | _ => ([], banner)
  end.

(** What a run of events writes to an attached client. *)
Fixpoint forwarded (banner : option (nat * list Z)) (es : list Daemon.Event) : list Z :=
  match es with
  | [] => []
  | e :: es' => (emitted banner e).1 ++ forwarded (emitted banner e).2 es'
  end.

(** Replay [r] is draining into socket [s], and it is all the daemon has
    set up for [s]: nothing is piped into [s], no other replay and no
    banner is on its way to it, and what [s] was sent so far plus what [r]
    still holds is [target]. *)
Definition draining (s r : nat) (target : list Z) (σ : Daemon.State) : Prop :=
  (s ∉ Daemon.stdout_pipes σ)
  ∧ (s ∉ Daemon.stderr_pipes σ)
  ∧ (s ∉ Daemon.clients σ)
  ∧ (r < Daemon.next_replay σ)%nat
  ∧ (∀ r' rp, Daemon.replays σ !! r' = Some rp → Daemon.rp_sock rp = s → r' = r)
  ∧ (∀ t tm s' msg, Daemon.timers σ !! t = Some tm →
       Daemon.callback tm = Daemon.WriteBanner s' msg → s' ≠ s)
  ∧ ∃ sk rest,
      Daemon.socks σ !! s = Some sk
      ∧ Daemon.writable sk = true
      ∧ Daemon.replays σ !! r = Some (Daemon.mkReplay s rest)
      ∧ Daemon.sock_out sk ++ rest = target.

(** The child runs, the process lives, and nothing of an exit is recorded
    or scheduled. *)
Definition running (σ : Daemon.State) : Prop :=
  Daemon.exited σ = None
  ∧ Daemon.child_closed σ = false
  ∧ recorded σ = false
  ∧ no_ended σ
  ∧ ¬ exit_pending σ.

(** Client [s] is attached and was sent [out] so far: it is registered,
    piped once from either stream and writable, no replay is on its way to
    it, and the only banner on its way to it is [banner]. *)
Definition serving (s : nat) (out : list Z) (banner : option (nat * list Z))
    (σ : Daemon.State) : Prop :=
  registrations s (Daemon.stdout_pipes σ) = 1%nat
  ∧ registrations s (Daemon.stderr_pipes σ) = 1%nat
  ∧ s ∈ Daemon.clients σ
  ∧ (∀ r rp, Daemon.replays σ !! r = Some rp → Daemon.rp_sock rp ≠ s)
  ∧ (∃ sk, Daemon.socks σ !! s = Some sk
           ∧ Daemon.writable sk = true
           ∧ Daemon.sock_out sk = out)
  ∧ (∀ t tm s' msg, Daemon.timers σ !! t = Some tm →
       Daemon.callback tm = Daemon.WriteBanner s' msg →
       s' = s → ∃ bytes, banner = Some (t, bytes))
  ∧ match banner with
    | Some (tb, bytes) =>
        (tb < Daemon.next_timer σ)%nat
        ∧ ∃ d msg, Daemon.timers σ !! tb = Some (Daemon.mkTimer d (Daemon.WriteBanner s msg))
                   ∧ JS.bytes_of_string msg = bytes
    | None => True
    end.

(** The child's exit, with [code] and [signal], is recorded, and there is
    no client. *)
Definition late (code : option Z) (signal : option string) (σ : Daemon.State) : Prop :=
  Daemon.child_closed σ = true
  ∧ Daemon.childExitCode σ = JS.of_nullable code
  ∧ Daemon.childSignal σ = JS.of_nullable signal
  ∧ Daemon.clients σ = ∅.

(** The timer [t] that closes the server and exits with [c] is pending. *)
Definition exit_timer (t : nat) (c : Z) (σ : Daemon.State) : Prop :=
  Daemon.timers σ !! t = Some (Daemon.mkTimer 0 (Daemon.CloseAndExit c))
  ∧ (t < Daemon.next_timer σ)%nat.

(** More daemons to instantiate statements with.  The child closes with
    code 3 while one client is attached. *)
Definition stopped_run : list Daemon.Event :=
  serving_one_run ++ [Daemon.ChildClose (Some 3%Z) None].
Definition stopped : Daemon.State :=
  default Daemon.spawnCommand (Daemon.run plain_options Daemon.spawnCommand stopped_run).

(** Wait mode: the child closes with code 3 and nobody has connected. *)
Definition waiting_run : list Daemon.Event :=
  [Daemon.ChildData Daemon.Stdout [104; 105]%Z; Daemon.ChildClose (Some 3%Z) None].
Definition waiting : Daemon.State :=
  default Daemon.spawnCommand (Daemon.run wait_options Daemon.spawnCommand waiting_run).

(** After that, a client connects, sends KILL and closes, and the timer of
    [spawnCommand] fires. *)
Definition waited_run : list Daemon.Event :=
  [Daemon.Connection 0; Daemon.SocketData 0 [KILL]; Daemon.SocketClose 0; Daemon.Timeout 0].
Definition waited : Daemon.State :=
  default waiting (Daemon.run wait_options waiting waited_run).

(** The first client has sent TALK and its replay has not ended; and,
    with the first client attached, a second one has sent TALK. *)
Definition talking_one : Daemon.State :=
  default Daemon.spawnCommand
    (Daemon.run plain_options Daemon.spawnCommand
       [Daemon.ChildData Daemon.Stdout [104; 105]%Z; Daemon.Connection 0;
        Daemon.SocketData 0 [TALK]]).

Definition talking_two : Daemon.State :=
  default Daemon.spawnCommand
    (Daemon.run plain_options serving_one
       [Daemon.Connection 1; Daemon.SocketData 1 [TALK]]).

(** Two clients are attached. *)
Definition serving_two : Daemon.State :=
  default Daemon.spawnCommand
    (Daemon.run plain_options talking_two [Daemon.ReplayEnd 1]).

(** The run of a client that attaches while the child writes and a second
    connection comes and goes: what came before its TALK, what happens
    while its replay drains, and what happens once it is attached; the
    timer 1 is the one of its banner. *)
Definition attach_drain : list Daemon.Event :=
  [Daemon.ChildData Daemon.Stdout [33]%Z; Daemon.ReplayRead 0 1; Daemon.Connection 1].
Definition attach_live : list Daemon.Event :=
  [Daemon.ChildData Daemon.Stdout [34]%Z; Daemon.Timeout 1;
   Daemon.SocketData 1 [KILL]; Daemon.SocketClose 1;
   Daemon.ChildData Daemon.Stderr [35]%Z].
Definition attach_drained : Daemon.State :=
  default Daemon.spawnCommand
    (Daemon.run plain_options connected_one (Daemon.SocketData 0 [TALK] :: attach_drain)).
Definition attach_served : Daemon.State :=
  default Daemon.spawnCommand
    (Daemon.run plain_options attach_drained (Daemon.ReplayEnd 0 :: attach_live)).

(** Wait mode: the child closes unattended; a first connection sends KILL
    and closes, a second one sends TALK, and while its replay drains a
    third one connects. *)
Definition late_between : list Daemon.Event :=
  [Daemon.Connection 0; Daemon.SocketData 0 [KILL]; Daemon.SocketClose 0;
   Daemon.Timeout 0; Daemon.Connection 1].
Definition late_drain : list Daemon.Event :=
  [Daemon.ReplayRead 0 1; Daemon.Connection 2].
Definition late_recorded : Daemon.State :=
  default Daemon.spawnCommand
    (Daemon.run wait_options unattended
       (Daemon.ChildClose (Some 3%Z) None :: late_between)).
Definition late_drained : Daemon.State :=
  default Daemon.spawnCommand
    (Daemon.run wait_options late_recorded (Daemon.SocketData 1 [TALK] :: late_drain)).

(** A second connection sends KILL while the first client is attached,
    and the child goes on writing. *)
Definition bystander_run : list Daemon.Event :=
  serving_one_run
    ++ [Daemon.Connection 1; Daemon.SocketData 1 [KILL];
        Daemon.ChildData Daemon.Stdout [33]%Z].
Definition bystander : Daemon.State :=
  default Daemon.spawnCommand
    (Daemon.run plain_options Daemon.spawnCommand bystander_run).

(** Wait mode: the exit is recorded, and a late client has sent TALK. *)
Definition late_talking : Daemon.State :=
  default Daemon.spawnCommand
    (Daemon.run wait_options Daemon.spawnCommand
       [Daemon.ChildData Daemon.Stdout [104; 105]%Z; Daemon.ChildClose (Some 3%Z) None;
        Daemon.Connection 0; Daemon.SocketData 0 [TALK]]).

(** * Properties *)

(** ** Address resolution *)

Section AddressResolver.

Lemma string_app_assoc (s1 s2 s3 : string) :
  (s1 +:+ s2) +:+ s3 = s1 +:+ (s2 +:+ s3).
Proof.
  induction s1 as [|a s1 IH]; [done|].
  change (String a ((s1 +:+ s2) +:+ s3) = String a (s1 +:+ (s2 +:+ s3))).
  by rewrite IH.
Qed.

(** The address depends on the command through [hashed] alone. *)
Lemma getIPCHandle_hashed env command :
  getIPCHandle env command
  = if String.eqb (platform env) "win32"
    then "\\.\pipe\daemon-" +:+ md5_hex env (hashed command)
    else path_join env (or_else (xdg_runtime_dir env) (tmpdir env))
           ("daemon-" +:+ md5_hex env (hashed command) +:+ ".sock").
Proof.
  unfold getIPCHandle, Hash.digest, Hash.update, Hash.createHash, hashed.
  by rewrite !string_app_assoc.
Qed.

Lemma string_length_app (s1 s2 : string) :
  String.length (s1 +:+ s2) = (String.length s1 + String.length s2)%nat.
Proof.
  induction s1 as [|a s1 IH]; [done|].
  change (S (String.length (s1 +:+ s2)) = S (String.length s1 + String.length s2)).
  by rewrite IH.
Qed.

Lemma string_app_inv_tail (s1 s2 tl : string) : s1 +:+ tl = s2 +:+ tl → s1 = s2.
Proof.
  revert s2. induction s1 as [|a s1 IH]; intros [|b s2] Heq; [done| | |].
  - change (tl = String b s2 +:+ tl) in Heq.
    apply (f_equal String.length) in Heq.
    rewrite (string_length_app (String b s2)) in Heq. simpl in Heq. lia.
  - change (String a s1 +:+ tl = tl) in Heq.
    apply (f_equal String.length) in Heq.
    rewrite (string_length_app (String a s1)) in Heq. simpl in Heq. lia.
  - change (String a (s1 +:+ tl) = String b (s2 +:+ tl)) in Heq.
    injection Heq as -> Heq. f_equal. by apply IH.
Qed.

(** C3, as the code has it.  In one environment the address is a function
    of the command, and of the command only through the string
    [path + args.join(",") + cwd]: commands that agree on that string,
    identical or not, get the same address.  Commands whose strings have
    different digests get different addresses: on win32 always, and
    elsewhere when [path.join] puts a file name made of ["daemon-"], the
    hexadecimal digits of a digest and [".sock"] behind a prefix that
    depends on the directory only, as the [path.join] of Node does. *)
Theorem same_hashed_same_address env c1 c2 :
  (hashed c1 = hashed c2 → getIPCHandle env c1 = getIPCHandle env c2)
  ∧ (is_hex (md5_hex env (hashed c1)) = true →
     is_hex (md5_hex env (hashed c2)) = true →
     (String.eqb (platform env) "win32" = false →
      ∃ prefix, ∀ d, is_hex d = true →
        path_join env (or_else (xdg_runtime_dir env) (tmpdir env))
          ("daemon-" +:+ d +:+ ".sock")
        = prefix +:+ "daemon-" +:+ d +:+ ".sock") →
     md5_hex env (hashed c1) ≠ md5_hex env (hashed c2) →
     getIPCHandle env c1 ≠ getIPCHandle env c2).
Proof.
  split.
  - intros Heq. by rewrite !getIPCHandle_hashed, Heq.
  - intros Hhex1 Hhex2 Hjoin Hne. rewrite !getIPCHandle_hashed.
    destruct (String.eqb (platform env) "win32"); intros Heq; apply Hne.
    + by apply (inj (String.app _)) in Heq.
    + destruct Hjoin as [prefix Hjoin]; [done|].
      rewrite !Hjoin in Heq by done.
      apply (inj (String.app prefix)), (inj (String.app "daemon-")) in Heq.
      by apply string_app_inv_tail in Heq.
Qed.

Lemma same_hashed_same_address_witness :
  getIPCHandle hex_env (mkCommand "make" ["-j"; "4"] "/src")
  = getIPCHandle hex_env (mkCommand "make" ["-j,4"] "/src")
  ∧ getIPCHandle hex_env (mkCommand "make" ["watch"] "/src")
    ≠ getIPCHandle hex_env (mkCommand "make" [] "/src").
Proof.
  split.
  - apply (same_hashed_same_address hex_env
             (mkCommand "make" ["-j"; "4"] "/src") (mkCommand "make" ["-j,4"] "/src")).
    reflexivity.
  - apply (same_hashed_same_address hex_env
             (mkCommand "make" ["watch"] "/src") (mkCommand "make" [] "/src")).
    + vm_compute. reflexivity.
    + vm_compute. reflexivity.
    + intros _. exists "/tmp/". intros d _. reflexivity.
    + vm_compute. discriminate.
Defined.

(** The two addresses of the witness that differ. *)
Example hex_addresses :
  getIPCHandle hex_env (mkCommand "make" ["watch"] "/src") = "/tmp/daemon-13.sock"
  ∧ getIPCHandle hex_env (mkCommand "make" [] "/src") = "/tmp/daemon-8.sock".
Proof. by vm_compute. Qed.

(** C3, as stated, fails: two commands that differ in the path and in the
    argument list get the same address, whatever the digest, the platform
    and the directories are. *)
Lemma different_commands_same_address :
  mkCommand "a" ["b"] "c" ≠ mkCommand "ab" [] "c"
  ∧ ∀ env, getIPCHandle env (mkCommand "a" ["b"] "c")
           = getIPCHandle env (mkCommand "ab" [] "c").
Proof. split; [discriminate|]. intros env. reflexivity. Qed.

Example sample_address :
  getIPCHandle sample_env (mkCommand "a" ["b"; "c"] "/w") = "/tmp/daemon-ab,c/w.sock".
Proof. reflexivity. Qed.

End AddressResolver.

(** ** The output buffer *)

Section OutputBuffer.

Lemma capped_append_most_recent cap b data :
  BufferList.capped_append cap b data = most_recent cap (b ++ data).
Proof.
  unfold BufferList.capped_append, BufferList.consume, BufferList.append,
    BufferList.length, most_recent.
  destruct (Z.gtb_spec (Z.of_nat (length (b ++ data))) cap) as [Hgt|Hle]; [done|].
  replace (Z.to_nat _) with 0%nat by lia. by rewrite drop_0.
Qed.

Lemma length_most_recent cap l :
  (0 ≤ cap)%Z → (Z.of_nat (length (most_recent cap l)) ≤ cap)%Z.
Proof. intros Hcap. unfold most_recent. rewrite length_drop. lia. Qed.

Lemma most_recent_all cap l :
  (Z.of_nat (length l) ≤ cap)%Z → most_recent cap l = l.
Proof.
  intros Hle. unfold most_recent.
  replace (Z.to_nat _) with 0%nat by lia. by rewrite drop_0.
Qed.

(** The window of a window extended is the window of the whole. *)
Lemma most_recent_app cap h data :
  (0 ≤ cap)%Z →
  most_recent cap (most_recent cap h ++ data) = most_recent cap (h ++ data).
Proof.
  intros Hcap.
  destruct (Z.le_gt_cases (Z.of_nat (length h)) cap) as [Hle|Hgt].
  { by rewrite (most_recent_all cap h). }
  unfold most_recent at 2.
  set (k := Z.to_nat (Z.of_nat (length h) - cap)).
  assert (Hk : (k ≤ length h)%nat) by lia.
  unfold most_recent.
  rewrite !length_app, length_drop.
  replace (Z.to_nat (Z.of_nat (length h - k + length data) - cap))
    with (length data) by lia.
  replace (Z.to_nat (Z.of_nat (length h + length data) - cap))
    with (k + length data)%nat by lia.
  by rewrite <- drop_drop, (drop_app_le h data k).
Qed.

(** Folding [onData]'s body over the chunks of a stream leaves the window
    of the stream, for either cap. *)
Lemma capped_stream cap (chunks : list (list Z)) :
  (0 ≤ cap)%Z →
  foldl (BufferList.capped_append cap) [] chunks = most_recent cap (concat chunks).
Proof.
  intros Hcap.
  assert (∀ h, foldl (BufferList.capped_append cap) (most_recent cap h) chunks
               = most_recent cap (h ++ concat chunks)) as Hgen.
  { induction chunks as [|d chunks IH]; intros h; simpl.
    - by rewrite (right_id_L [] (++)).
    - rewrite capped_append_most_recent, most_recent_app by done.
      by rewrite IH, <- (assoc_L (++)). }
  specialize (Hgen []). simpl in Hgen. rewrite <- Hgen. f_equal.
  unfold most_recent. by rewrite drop_nil.
Qed.

Example capped_stream_3 :
  foldl (BufferList.capped_append 3) [] [[1; 2]; [3; 4]; [5]]%Z = [3; 4; 5]%Z.
Proof. reflexivity. Qed.

Lemma capped_stream_1MB (chunks : list (list Z)) :
  foldl (BufferList.capped_append CAPACITY_1MB) [] chunks
  = most_recent CAPACITY_1MB (concat chunks).
Proof. by apply capped_stream. Qed.

End OutputBuffer.

(** ** The daemon's objects *)

Section DaemonObjects.

Lemma set_socks_eta σ : Daemon.set_socks (Daemon.socks σ) σ = σ.
Proof. by destruct σ. Qed.

(** A loop of changes of sockets touches the sockets and nothing else. *)
Lemma foldl_on_sock f (l : list nat) σ :
  foldl (λ σ s, Daemon.on_sock s f σ) σ l
  = Daemon.set_socks (foldl (λ m s, alter f s m) (Daemon.socks σ) l) σ.
Proof.
  revert σ. induction l as [|s l IH]; intros σ; simpl.
  - by rewrite set_socks_eta.
  - by rewrite IH.
Qed.

Lemma foldl_alter_notin (f : Daemon.Socket → Daemon.Socket) (l : list nat)
    (m : gmap nat Daemon.Socket) s :
  s ∉ l → foldl (λ m s, alter f s m) m l !! s = m !! s.
Proof.
  revert m. induction l as [|x l IH]; intros m Hs; simpl; [done|].
  apply not_elem_of_cons in Hs as [Hne Hs].
  by rewrite IH, lookup_alter_ne.
Qed.

Lemma foldl_alter_snoc (f : Daemon.Socket → Daemon.Socket) (l : list nat)
    (m : gmap nat Daemon.Socket) s :
  s ∉ l → foldl (λ m s, alter f s m) m (l ++ [s]) !! s = f <$> m !! s.
Proof.
  intros Hs. rewrite foldl_app. simpl.
  by rewrite lookup_alter_eq, foldl_alter_notin.
Qed.

Lemma foldr_alter_lookup (f : Daemon.Socket → Daemon.Socket) (l : list nat)
    (m : gmap nat Daemon.Socket) s :
  NoDup l →
  foldr (λ s m, alter f s m) m l !! s
  = if decide (s ∈ l) then f <$> m !! s else m !! s.
Proof.
  induction 1 as [|x l Hx Hl IH]; simpl.
  - destruct (decide (s ∈ [])) as [Hin|Hnin]; [by apply elem_of_nil in Hin|done].
  - destruct (decide (s = x)) as [->|Hne].
    + rewrite lookup_alter_eq, IH.
      destruct (decide (x ∈ l)); [done|].
      destruct (decide (x ∈ x :: l)) as [|Hnin]; [done|].
      destruct Hnin. apply list_elem_of_here.
    + rewrite lookup_alter_ne, IH by done.
      destruct (decide (s ∈ l)) as [Hin|Hnin];
        destruct (decide (s ∈ x :: l)) as [Hin'|Hnin']; try done.
      * destruct Hnin'. by apply list_elem_of_further.
      * by apply elem_of_cons in Hin' as [?|?].
Qed.

(** *** Uncaught errors

    A call on a socket is a change of the socket and, when it raises, the
    death of the process: [died b σ] is the normal form of both. *)

Lemma died_died b1 b2 σ : died b2 (died b1 σ) = died (b1 || b2) σ.
Proof. by destruct b1, b2, σ. Qed.

Lemma died_set_socks b m σ :
  Daemon.set_socks m (died b σ) = died b (Daemon.set_socks m σ).
Proof. by destruct b. Qed.

Lemma died_false σ : died false σ = σ.
Proof. done. Qed.

Lemma died_bl b σ : Daemon.bl (died b σ) = Daemon.bl σ.
Proof. by destruct b. Qed.
Lemma died_clients b σ : Daemon.clients (died b σ) = Daemon.clients σ.
Proof. by destruct b. Qed.
Lemma died_stdout_pipes b σ : Daemon.stdout_pipes (died b σ) = Daemon.stdout_pipes σ.
Proof. by destruct b. Qed.
Lemma died_stderr_pipes b σ : Daemon.stderr_pipes (died b σ) = Daemon.stderr_pipes σ.
Proof. by destruct b. Qed.
Lemma died_justSpawned b σ : Daemon.justSpawned (died b σ) = Daemon.justSpawned σ.
Proof. by destruct b. Qed.
Lemma died_childExitCode b σ : Daemon.childExitCode (died b σ) = Daemon.childExitCode σ.
Proof. by destruct b. Qed.
Lemma died_childSignal b σ : Daemon.childSignal (died b σ) = Daemon.childSignal σ.
Proof. by destruct b. Qed.
Lemma died_socks b σ : Daemon.socks (died b σ) = Daemon.socks σ.
Proof. by destruct b. Qed.
Lemma died_replays b σ : Daemon.replays (died b σ) = Daemon.replays σ.
Proof. by destruct b. Qed.
Lemma died_next_replay b σ : Daemon.next_replay (died b σ) = Daemon.next_replay σ.
Proof. by destruct b. Qed.
Lemma died_timers b σ : Daemon.timers (died b σ) = Daemon.timers σ.
Proof. by destruct b. Qed.
Lemma died_next_timer b σ : Daemon.next_timer (died b σ) = Daemon.next_timer σ.
Proof. by destruct b. Qed.
Lemma died_treekills b σ : Daemon.treekills (died b σ) = Daemon.treekills σ.
Proof. by destruct b. Qed.
Lemma died_child_closed b σ : Daemon.child_closed (died b σ) = Daemon.child_closed σ.
Proof. by destruct b. Qed.
Lemma died_listening b σ :
  Daemon.listening (died b σ) = if b then false else Daemon.listening σ.
Proof. by destruct b. Qed.
Lemma died_exited b σ :
  Daemon.exited (died b σ) = if b then Some 1%Z else Daemon.exited σ.
Proof. by destruct b. Qed.

Lemma raises_set_socks s m σ :
  Daemon.raises s (Daemon.set_socks m σ)
  = match m !! s with Some sk => Daemon.write_after_end sk | None => false end.
Proof. done. Qed.

Lemma raises_died s b σ : Daemon.raises s (died b σ) = Daemon.raises s σ.
Proof. by destruct b. Qed.

Lemma raises_set_timers s v n σ :
  Daemon.raises s (Daemon.set_timers v n σ) = Daemon.raises s σ.
Proof. done. Qed.

Lemma raises_set_replays s v n σ :
  Daemon.raises s (Daemon.set_replays v n σ) = Daemon.raises s σ.
Proof. done. Qed.

Lemma raises_no_ended s σ : no_ended σ → Daemon.raises s σ = false.
Proof.
  intros Hno. unfold Daemon.raises.
  destruct (Daemon.socks σ !! s) as [sk|] eqn:Hsk; [|done].
  unfold Daemon.write_after_end. by rewrite (Hno s sk Hsk).
Qed.

Lemma raises_writable s sk σ :
  Daemon.socks σ !! s = Some sk → Daemon.writable sk = true → Daemon.raises s σ = false.
Proof.
  intros Hsk Hw. unfold Daemon.raises, Daemon.write_after_end. rewrite Hsk.
  unfold Daemon.writable in Hw. by destruct (Daemon.sock_ended sk).
Qed.

Lemma any_raises_no_ended l σ : no_ended σ → any_raises l σ = false.
Proof.
  intros Hno. unfold any_raises. induction l as [|x l IH]; simpl; [done|].
  by rewrite raises_no_ended, IH.
Qed.

(** A call that does not raise leaves the socket as little ready to raise
    as it was. *)
Lemma write_after_end_sock_write data sk :
  Daemon.write_after_end sk = false →
  Daemon.write_after_end (Daemon.sock_write data sk) = false.
Proof.
  intros Hno. unfold Daemon.sock_write. rewrite Hno.
  destruct (Daemon.writable sk) eqn:Hw; [|done].
  unfold Daemon.writable in Hw. unfold Daemon.write_after_end. simpl.
  by destruct (Daemon.sock_ended sk).
Qed.

Lemma write_after_end_sock_write_back data sk :
  Daemon.write_after_end (Daemon.sock_write data sk) = true →
  Daemon.write_after_end sk = true.
Proof.
  destruct (Daemon.write_after_end sk) eqn:Hno; [done|].
  by rewrite write_after_end_sock_write.
Qed.

Lemma write_eq s data σ :
  Daemon.write s data σ
  = died (Daemon.raises s σ)
      (Daemon.set_socks (alter (Daemon.sock_write data) s (Daemon.socks σ)) σ).
Proof. done. Qed.

Lemma end_eq s data σ :
  Daemon.end_ s data σ
  = died (Daemon.raises s σ)
      (Daemon.set_socks (alter (Daemon.sock_end data) s (Daemon.socks σ)) σ).
Proof. done. Qed.

Lemma push_eq s data σ :
  Daemon.push s data σ
  = died (bool_decide (data ≠ []) && Daemon.raises s σ)
      (Daemon.set_socks (alter (sock_push data) s (Daemon.socks σ)) σ).
Proof.
  destruct data as [|z data]; [|done]. simpl.
  by rewrite alter_id, set_socks_eta.
Qed.

Lemma sock_push_writable data sk :
  Daemon.writable sk = true →
  sock_push data sk
  = Daemon.mkSocket (Daemon.sock_out sk ++ data) (Daemon.sock_ended sk)
      (Daemon.sock_destroyed sk) (Daemon.sock_closed sk).
Proof.
  intros Hw. destruct data as [|z data]; simpl.
  - rewrite (right_id_L [] (++)). by destruct sk.
  - unfold Daemon.sock_write. by rewrite Hw.
Qed.

Lemma raises_after_write x data s σ :
  Daemon.raises x σ = false →
  Daemon.raises s (Daemon.set_socks (alter (Daemon.sock_write data) x (Daemon.socks σ)) σ)
  = Daemon.raises s σ.
Proof.
  intros Hx. rewrite raises_set_socks. unfold Daemon.raises in *.
  destruct (decide (s = x)) as [->|Hne].
  - rewrite lookup_alter_eq. destruct (Daemon.socks σ !! x) as [sk|]; [|done]. simpl.
    by rewrite write_after_end_sock_write.
  - by rewrite lookup_alter_ne.
Qed.

Lemma any_raises_after_write x data l σ :
  Daemon.raises x σ = false →
  any_raises l (Daemon.set_socks (alter (Daemon.sock_write data) x (Daemon.socks σ)) σ)
  = any_raises l σ.
Proof.
  intros Hx. unfold any_raises. induction l as [|y l IH]; simpl; [done|].
  by rewrite raises_after_write, IH.
Qed.

(** The listeners of a stream that is piped into several sockets. *)
Lemma foldl_write data (l : list nat) : ∀ σ,
  foldl (λ σ s, Daemon.write s data σ) σ l
  = died (any_raises l σ)
      (Daemon.set_socks
         (foldl (λ m s, alter (Daemon.sock_write data) s m) (Daemon.socks σ) l) σ).
Proof.
  induction l as [|x l IH]; intros σ; simpl.
  - by rewrite set_socks_eta.
  - rewrite IH, write_eq. rewrite died_socks. simpl.
    rewrite died_set_socks, died_died. f_equal.
    destruct (Daemon.raises x σ) eqn:Hx; [done|]. simpl.
    by apply any_raises_after_write.
Qed.

Lemma foldl_write_no_ended data l σ :
  no_ended σ →
  foldl (λ σ s, Daemon.write s data σ) σ l
  = Daemon.set_socks
      (foldl (λ m s, alter (Daemon.sock_write data) s m) (Daemon.socks σ) l) σ.
Proof. intros Hno. by rewrite foldl_write, any_raises_no_ended. Qed.

(** [for (const client of clients) f(client)] over a set without
    clients. *)
Lemma for_clients_empty f σ :
  Daemon.clients σ = ∅ → Daemon.for_clients f σ = σ.
Proof.
  intros Hc. unfold Daemon.for_clients, set_fold. simpl. by rewrite Hc, elements_empty.
Qed.

(** The loop over the clients that ends, or ends and destroys, each of
    them: the change [g] on every member of the set, nothing on the
    others. *)
Lemma foldr_clients (f : nat → Daemon.State → Daemon.State) g l σ :
  (∀ c σ, f c σ
          = died (Daemon.raises c σ)
              (Daemon.set_socks (alter g c (Daemon.socks σ)) σ)) →
  NoDup l →
  foldr f σ l
  = died (any_raises l σ)
      (Daemon.set_socks (foldr (λ s m, alter g s m) (Daemon.socks σ) l) σ).
Proof.
  intros Hf. induction 1 as [|x l Hx Hl IH]; simpl.
  - by rewrite set_socks_eta.
  - rewrite IH, Hf. rewrite died_socks, raises_died, raises_set_socks. simpl.
    rewrite died_set_socks, died_died. f_equal.
    rewrite foldr_alter_lookup, decide_False by done. apply orb_comm.
Qed.

Lemma for_clients_end data σ :
  Daemon.for_clients (λ client, Daemon.end_ client data) σ
  = died (any_raises (elements (Daemon.clients σ)) σ)
      (Daemon.set_socks
         (foldr (λ s m, alter (Daemon.sock_end data) s m) (Daemon.socks σ)
            (elements (Daemon.clients σ))) σ).
Proof.
  unfold Daemon.for_clients, set_fold. simpl.
  apply foldr_clients; [|apply NoDup_elements]. intros c σ'. apply end_eq.
Qed.

Lemma for_clients_end_destroy data σ :
  Daemon.for_clients
    (λ client σ, Daemon.destroy client (Daemon.end_ client data σ)) σ
  = died (any_raises (elements (Daemon.clients σ)) σ)
      (Daemon.set_socks
         (foldr (λ s m, alter (Daemon.sock_destroy ∘ Daemon.sock_end data) s m)
            (Daemon.socks σ) (elements (Daemon.clients σ))) σ).
Proof.
  unfold Daemon.for_clients, set_fold. simpl.
  apply foldr_clients; [|apply NoDup_elements]. intros c σ'.
  rewrite end_eq. unfold Daemon.destroy, Daemon.on_sock.
  rewrite died_socks, died_set_socks. simpl. by rewrite alter_alter_eq.
Qed.

Lemma clients_lookup (g : Daemon.Socket → Daemon.Socket) σ s :
  foldr (λ s m, alter g s m) (Daemon.socks σ) (elements (Daemon.clients σ)) !! s
  = if decide (s ∈ Daemon.clients σ) then g <$> Daemon.socks σ !! s
    else Daemon.socks σ !! s.
Proof.
  rewrite foldr_alter_lookup by apply NoDup_elements.
  destruct (decide (s ∈ Daemon.clients σ)) as [Hin|Hnin].
  - by rewrite decide_True by by apply elem_of_elements.
  - rewrite decide_False; [done|]. by rewrite elem_of_elements.
Qed.

Lemma child_on_data_eq st data σ :
  Daemon.child_on_data st data σ
  = died (any_raises (Daemon.pipes_of st σ) σ)
      (Daemon.set_socks
         (foldl (λ m s, alter (Daemon.sock_write data) s m) (Daemon.socks σ)
            (Daemon.pipes_of st σ))
         (Daemon.onData data σ)).
Proof.
  unfold Daemon.child_on_data. rewrite foldl_write. by destruct st.
Qed.

Lemma child_on_data_lookup st data σ s :
  Daemon.socks (Daemon.child_on_data st data σ) !! s
  = foldl (λ m s, alter (Daemon.sock_write data) s m) (Daemon.socks σ)
      (Daemon.pipes_of st σ) !! s.
Proof. by rewrite child_on_data_eq, died_socks. Qed.

(** *** Ended connections *)

Lemma sock_write_ended data sk :
  Daemon.sock_ended (Daemon.sock_write data sk) = Daemon.sock_ended sk.
Proof. unfold Daemon.sock_write. by repeat case_match. Qed.

Lemma sock_push_ended data sk :
  Daemon.sock_ended (sock_push data sk) = Daemon.sock_ended sk.
Proof. destruct data; [done|]. apply sock_write_ended. Qed.

Lemma none_ended_alter f s m :
  (∀ sk, Daemon.sock_ended (f sk) = Daemon.sock_ended sk) →
  none_ended m → none_ended (alter f s m).
Proof.
  intros Hf Hm s' sk'. destruct (decide (s' = s)) as [->|Hne].
  - rewrite lookup_alter_eq. destruct (m !! s) as [sk|] eqn:Hsk; [|done].
    intros [= <-]. rewrite Hf. by eapply Hm.
  - rewrite lookup_alter_ne by done. apply Hm.
Qed.

Lemma none_ended_foldl f l : ∀ m,
  (∀ sk, Daemon.sock_ended (f sk) = Daemon.sock_ended sk) →
  none_ended m → none_ended (foldl (λ m s, alter f s m) m l).
Proof.
  induction l as [|x l IH]; intros m Hf Hm; simpl; [done|].
  apply IH; [done|]. by apply none_ended_alter.
Qed.

Lemma none_ended_insert s m :
  none_ended m → none_ended (<[s := Daemon.fresh_socket]> m).
Proof.
  intros Hm s' sk'. destruct (decide (s' = s)) as [->|Hne].
  - rewrite lookup_insert_eq. by intros [= <-].
  - rewrite lookup_insert_ne by done. apply Hm.
Qed.

Lemma none_ended_raises s m σ :
  none_ended m → Daemon.raises s (Daemon.set_socks m σ) = false.
Proof.
  intros Hm. rewrite raises_set_socks. destruct (m !! s) as [sk|] eqn:Hsk; [|done].
  unfold Daemon.write_after_end. by rewrite (Hm s sk Hsk).
Qed.

(** *** Writes to a writable socket *)

Lemma alter_lookup_insert (f : Daemon.Socket → Daemon.Socket) s sk
    (m : gmap nat Daemon.Socket) :
  m !! s = Some sk → alter f s m = <[s := f sk]> m.
Proof.
  intros Hsk. apply map_eq. intros s'. destruct (decide (s' = s)) as [->|Hne].
  - by rewrite lookup_alter_eq, lookup_insert_eq, Hsk.
  - by rewrite lookup_alter_ne, lookup_insert_ne.
Qed.

Lemma writable_flags sk :
  Daemon.writable sk = true →
  Daemon.sock_ended sk = false ∧ Daemon.sock_destroyed sk = false
  ∧ Daemon.sock_closed sk = false.
Proof.
  unfold Daemon.writable.
  by destruct (Daemon.sock_ended sk), (Daemon.sock_destroyed sk), (Daemon.sock_closed sk).
Qed.

Lemma writable_open sk :
  Daemon.writable sk = true → Daemon.sock_closed sk || Daemon.sock_destroyed sk = false.
Proof. intros (_ & -> & ->)%writable_flags. done. Qed.

Lemma open_writable sk :
  Daemon.sock_ended sk = false →
  Daemon.sock_closed sk || Daemon.sock_destroyed sk = false →
  Daemon.writable sk = true.
Proof.
  unfold Daemon.writable. intros -> [-> ->]%orb_false_elim. done.
Qed.

Lemma sock_write_written data sk :
  Daemon.writable sk = true → Daemon.sock_write data sk = written data sk.
Proof.
  intros Hw. unfold Daemon.sock_write, written. rewrite Hw.
  by destruct (writable_flags sk Hw) as (-> & -> & ->).
Qed.

Lemma sock_push_written data sk :
  Daemon.writable sk = true → sock_push data sk = written data sk.
Proof.
  intros Hw. rewrite sock_push_writable by done. unfold written.
  by destruct (writable_flags sk Hw) as (-> & -> & ->).
Qed.

Lemma written_writable data sk : Daemon.writable (written data sk) = true.
Proof. done. Qed.

Lemma write_writable s data sk σ :
  Daemon.socks σ !! s = Some sk → Daemon.writable sk = true →
  Daemon.write s data σ
  = Daemon.set_socks (<[s := written data sk]> (Daemon.socks σ)) σ.
Proof.
  intros Hsk Hw.
  by rewrite write_eq, (raises_writable s sk), died_false,
    (alter_lookup_insert _ s sk), sock_write_written.
Qed.

Lemma push_writable s data sk σ :
  Daemon.socks σ !! s = Some sk → Daemon.writable sk = true →
  Daemon.push s data σ
  = Daemon.set_socks (<[s := written data sk]> (Daemon.socks σ)) σ.
Proof.
  intros Hsk Hw.
  by rewrite push_eq, (raises_writable s sk), andb_false_r, died_false,
    (alter_lookup_insert _ s sk), sock_push_written.
Qed.

Lemma socket_on_data_TALK s rest σ :
  Daemon.socket_on_data s (TALK :: rest) σ
  = Daemon.set_replays
      (<[Daemon.next_replay σ := Daemon.mkReplay s (BufferList.duplicate (Daemon.bl σ))]>
         (Daemon.replays σ))
      (S (Daemon.next_replay σ)) σ.
Proof. done. Qed.

Lemma socket_on_data_KILL s rest σ :
  Daemon.socket_on_data s (KILL :: rest) σ
  = Daemon.set_treekills (S (Daemon.treekills σ)) σ.
Proof. done. Qed.

Lemma run_app options σ es1 es2 :
  Daemon.run options σ (es1 ++ es2)
  = Daemon.run options σ es1 ≫= λ σ', Daemon.run options σ' es2.
Proof.
  revert σ. induction es1 as [|e es1 IH]; intros σ; simpl; [done|].
  destruct (Daemon.step options σ e); simpl; [apply IH|done].
Qed.

Lemma produced_app es1 es2 :
  Daemon.produced (es1 ++ es2) = Daemon.produced es1 ++ Daemon.produced es2.
Proof.
  induction es1 as [|[] es1 IH]; simpl; try done.
  by rewrite IH, (assoc_L (++)).
Qed.

Lemma stopped_message_died b σ :
  Daemon.stopped_message (died b σ) = Daemon.stopped_message σ.
Proof. by destruct b. Qed.

Lemma setTimeout_died cb ms b σ :
  Daemon.setTimeout cb ms (died b σ) = died b (Daemon.setTimeout cb ms σ).
Proof. by destruct b. Qed.

Lemma set_replays_died v n b σ :
  Daemon.set_replays v n (died b σ) = died b (Daemon.set_replays v n σ).
Proof. by destruct b. Qed.

(** The two branches of [bufferStream.on("end", ...)]. *)
Lemma bufferStream_on_end_eq socket σ :
  Daemon.bufferStream_on_end socket σ
  = if recorded σ then
      died (late_raises socket σ)
        (Daemon.setTimeout
           (Daemon.CloseAndExit (JS.nullish (Daemon.childExitCode σ) 1%Z)) 0
           (Daemon.set_socks (late_socks socket σ) σ))
    else
      let σ := Daemon.pipe Daemon.Stdout socket σ in
      let σ := Daemon.pipe Daemon.Stderr socket σ in
      let σ := Daemon.set_clients ({[socket]} ∪ Daemon.clients σ) σ in
      if Daemon.justSpawned σ then
        Daemon.set_justSpawned false
          (Daemon.setTimeout (Daemon.WriteBanner socket Daemon.spawned_message) 200 σ)
      else
        Daemon.setTimeout (Daemon.WriteBanner socket Daemon.attached_message) 0 σ.
Proof.
  unfold Daemon.bufferStream_on_end. fold (recorded σ).
  destruct (recorded σ); [|done]. cbv zeta.
  rewrite for_clients_end. fold (late_clients σ).
  rewrite write_eq, stopped_message_died, raises_died, died_socks, died_set_socks, died_died.
  cbn [Daemon.socks Daemon.set_socks].
  change (Daemon.stopped_message (Daemon.set_socks (late_clients σ) σ))
    with (Daemon.stopped_message σ).
  fold (late_status socket σ).
  rewrite end_eq, raises_died, died_socks, died_set_socks, died_died.
  cbn [Daemon.socks Daemon.set_socks]. fold (late_socks socket σ).
  by rewrite setTimeout_died.
Qed.

(** The two branches of [child.on("close", ...)]; the exit of the process
    comes before any error of the last calls is thrown. *)
Lemma child_on_close_eq options code signal σ :
  Daemon.child_on_close options code signal σ
  = if wait options && bool_decide (size (Daemon.clients σ) = 0%nat) then
      Daemon.set_childSignal (JS.of_nullable signal)
        (Daemon.set_childExitCode (JS.of_nullable code) σ)
    else
      Daemon.set_exited (Some (JS.nullish (JS.of_nullable code) 1%Z))
        (Daemon.set_listening false
           (Daemon.set_socks
              (foldr (λ s m,
                        alter (Daemon.sock_destroy
                               ∘ Daemon.sock_end
                                   [JS.ToUint8 (JS.nullish (JS.of_nullable code) 1%Z)]) s m)
                 (Daemon.socks σ) (elements (Daemon.clients σ))) σ)).
Proof.
  unfold Daemon.child_on_close. case_match; [done|]. cbv zeta.
  rewrite for_clients_end_destroy. by destruct (any_raises _ _).
Qed.

(** The status line, as the daemon composes it from what it recorded. *)
Lemma stopped_message_status_line σ code signal :
  Daemon.childExitCode σ = JS.of_nullable code →
  Daemon.childSignal σ = JS.of_nullable signal →
  Daemon.stopped_message σ = status_line code signal.
Proof.
  unfold Daemon.stopped_message, status_line. intros -> ->. by destruct code, signal.
Qed.

Lemma late_clients_empty σ : Daemon.clients σ = ∅ → late_clients σ = Daemon.socks σ.
Proof. intros Hc. unfold late_clients. by rewrite Hc, elements_empty. Qed.

(** The end of a replay into a writable socket, in a daemon that has
    recorded the child's exit and has no client. *)
Lemma bufferStream_on_end_late socket σ sk :
  recorded σ = true →
  Daemon.clients σ = ∅ →
  Daemon.socks σ !! socket = Some sk →
  Daemon.writable sk = true →
  Daemon.bufferStream_on_end socket σ
  = Daemon.setTimeout
      (Daemon.CloseAndExit (JS.nullish (Daemon.childExitCode σ) 1%Z)) 0
      (Daemon.set_socks
         (<[socket :=
              Daemon.mkSocket
                (Daemon.sock_out sk ++ JS.bytes_of_string (Daemon.stopped_message σ)
                   ++ [JS.ToUint8 (JS.nullish (Daemon.childExitCode σ) 1%Z)])
                true false false]> (Daemon.socks σ)) σ).
Proof.
  intros Hrec Hclients Hsk Hw. rewrite bufferStream_on_end_eq, Hrec.
  assert (late_status socket σ
          = <[socket := written (JS.bytes_of_string (Daemon.stopped_message σ)) sk]>
              (Daemon.socks σ)) as Hstatus.
  { unfold late_status. rewrite late_clients_empty by done.
    by rewrite (alter_lookup_insert _ socket sk), sock_write_written. }
  assert (late_raises socket σ = false) as ->.
  { unfold late_raises. rewrite Hclients, elements_empty, late_clients_empty by done.
    rewrite Hstatus, set_socks_eta, (raises_writable socket sk) by done.
    rewrite raises_set_socks, lookup_insert_eq. done. }
  rewrite died_false. unfold late_socks. rewrite Hstatus.
  rewrite (alter_lookup_insert _ socket (written (JS.bytes_of_string (Daemon.stopped_message σ)) sk))
    by by rewrite lookup_insert_eq.
  rewrite insert_insert_eq. unfold Daemon.sock_end, written. simpl.
  by rewrite <- (assoc_L (++)).
Qed.

(** Induction over the runs of the daemon. *)
Lemma run_ind options (P : list Daemon.Event → Daemon.State → Prop) σ0 :
  P [] σ0 →
  (∀ es σ e σ',
     Daemon.run options σ0 es = Some σ → P es σ →
     Daemon.step options σ e = Some σ' → P (es ++ [e]) σ') →
  ∀ es σ, Daemon.run options σ0 es = Some σ → P es σ.
Proof.
  intros Hinit Hstep es. induction es as [|e es IH] using rev_ind; intros σ Hrun.
  - simpl in Hrun. by simplify_eq.
  - rewrite run_app in Hrun.
    destruct (Daemon.run options σ0 es) as [σ1|] eqn:Hes; [|done]. simpl in Hrun.
    destruct (Daemon.step options σ1 e) as [σ2|] eqn:He; [|done]. simplify_eq.
    by eapply Hstep; [|apply IH|].
Qed.

End DaemonObjects.

(** One event, by cases: the callback that ran, and the state it ran in. *)
Ltac step_inv H :=
  unfold Daemon.step in H;
  repeat match type of H with
    | context [match ?x with _ => _ end] => destruct x eqn:?; try discriminate H
    end;
  injection H as <-.

(** The fields of the state after a callback. *)
Ltac fields :=
  repeat (progress (
    rewrite ?child_on_data_eq, ?child_on_close_eq, ?bufferStream_on_end_eq,
      ?push_eq, ?write_eq, ?end_eq, ?raises_died, ?raises_set_timers, ?raises_set_replays,
      ?died_bl, ?died_clients, ?died_stdout_pipes, ?died_stderr_pipes,
      ?died_justSpawned, ?died_childExitCode, ?died_childSignal, ?died_socks,
      ?died_replays, ?died_next_replay, ?died_timers, ?died_next_timer,
      ?died_treekills, ?died_child_closed, ?died_listening, ?died_exited;
    unfold Daemon.socket_on_data, Daemon.socket_on_close, Daemon.run_callback,
      Daemon.onData, Daemon.setTimeout, Daemon.pipe, Daemon.unpipe,
      Daemon.pipes_of, Daemon.set_pipes_of, Daemon.on_sock, Daemon.uncaught, recorded;
    cbv zeta;
    cbn [Daemon.bl Daemon.clients Daemon.stdout_pipes Daemon.stderr_pipes Daemon.justSpawned
         Daemon.childExitCode Daemon.childSignal Daemon.socks Daemon.replays
         Daemon.next_replay Daemon.timers Daemon.next_timer Daemon.treekills
         Daemon.listening Daemon.child_closed Daemon.exited
         Daemon.set_bl Daemon.set_clients Daemon.set_stdout_pipes Daemon.set_stderr_pipes
         Daemon.set_justSpawned Daemon.set_childExitCode Daemon.set_childSignal
         Daemon.set_socks Daemon.set_replays Daemon.set_timers Daemon.set_treekills
         Daemon.set_listening Daemon.set_child_closed Daemon.set_exited])).


(** ** Shutdown *)

Section Shutdown.

Lemma exit_code_default (code : option Z) :
  JS.nullish (JS.of_nullable code) 1%Z = default 1%Z code.
Proof. by destruct code. Qed.

Lemma ToUint8_byte (z : Z) : (0 ≤ z < 256)%Z → JS.ToUint8 z = z.
Proof. intros Hz. unfold JS.ToUint8. by apply Z.mod_small. Qed.

Lemma trailer_written b sk :
  Daemon.writable sk = true →
  trailer_and_close b sk (Daemon.sock_destroy (Daemon.sock_end [b] sk)).
Proof. intros Hw. unfold Daemon.sock_end. rewrite Hw. by repeat split. Qed.

(** The exit path of [child.on("close")]. *)
Lemma child_on_close_shutdown options code signal σ :
  wait options && bool_decide (size (Daemon.clients σ) = 0%nat) = false →
  let σ' := Daemon.child_on_close options code signal σ in
  Daemon.exited σ' = Some (default 1%Z code)
  ∧ Daemon.listening σ' = false
  ∧ ∀ s sk, live_client σ s sk →
      ∃ sk', Daemon.socks σ' !! s = Some sk'
             ∧ trailer_and_close (JS.ToUint8 (default 1%Z code)) sk sk'.
Proof.
  intros Hmode. unfold Daemon.child_on_close. rewrite Hmode. simpl.
  rewrite exit_code_default. split_and!; [done..|].
  intros s sk (Hin & Hsk & Hw).
  rewrite for_clients_end_destroy. simpl. rewrite died_socks. simpl.
  rewrite clients_lookup, decide_True, Hsk by done. simpl.
  eexists; split; [done|]. by apply trailer_written.
Qed.

(** C4. When the child closes and the daemon is not in the case "wait mode
    with no live client", every live client is sent, as the last byte
    before its connection is closed, the byte [ToUint8(code ?? 1)]; the
    server is closed and the process exits with [code ?? 1].  For an exit
    code in 0..255, the range the trailer can carry, the byte is the code
    itself. *)
Theorem child_close_sends_trailer options σ code signal :
  Daemon.exited σ = None →
  Daemon.child_closed σ = false →
  wait options && bool_decide (size (Daemon.clients σ) = 0%nat) = false →
  ∃ σ', Daemon.step options σ (Daemon.ChildClose code signal) = Some σ'
    ∧ Daemon.exited σ' = Some (default 1%Z code)
    ∧ Daemon.listening σ' = false
    ∧ (∀ s sk, live_client σ s sk →
         ∃ sk', Daemon.socks σ' !! s = Some sk'
                ∧ trailer_and_close (JS.ToUint8 (default 1%Z code)) sk sk')
    ∧ ((0 ≤ default 1 code < 256)%Z → JS.ToUint8 (default 1%Z code) = default 1%Z code).
Proof.
  intros Hrun Hchild Hmode. unfold Daemon.step. rewrite Hrun, Hchild.
  eexists; split; [done|].
  destruct (child_on_close_shutdown options code signal
              (Daemon.set_child_closed true σ) Hmode) as (Hexit & Hlisten & Hclients).
  split_and!; [done..|exact Hclients|apply ToUint8_byte].
Qed.

Lemma child_close_sends_trailer_witness :
  ∃ σ', Daemon.step plain_options serving_one (Daemon.ChildClose (Some 3%Z) None) = Some σ'
    ∧ Daemon.exited σ' = Some 3%Z
    ∧ Daemon.listening σ' = false
    ∧ (∀ s sk, live_client serving_one s sk →
         ∃ sk', Daemon.socks σ' !! s = Some sk' ∧ trailer_and_close 3 sk sk')
    ∧ ((0 ≤ 3 < 256)%Z → JS.ToUint8 3 = 3%Z).
Proof.
  apply (child_close_sends_trailer plain_options serving_one (Some 3%Z) None);
    reflexivity.
Defined.

Example serving_one_live :
  ∃ sk, live_client serving_one 0 sk ∧ Daemon.sock_out sk = [104; 105]%Z.
Proof. eexists. by repeat split. Qed.

(** C5. A [KILL] chunk from any open connection makes the daemon call
    [treekill] on the child (the process-tree kill of the [tree-kill]
    package) and write nothing to any socket; when the child's ['close']
    follows, after whatever else happened in between, every client live
    at that moment is sent the trailer and its connection is closed. *)
Theorem kill_ends_every_client options σ s sk rest code signal :
  Daemon.exited σ = None →
  Daemon.socks σ !! s = Some sk →
  Daemon.sock_closed sk || Daemon.sock_destroyed sk = false →
  ∃ σ1, Daemon.step options σ (Daemon.SocketData s (KILL :: rest)) = Some σ1
    ∧ Daemon.treekills σ1 = S (Daemon.treekills σ)
    ∧ Daemon.socks σ1 = Daemon.socks σ
    ∧ Daemon.clients σ1 = Daemon.clients σ
    ∧ ∀ es σe,
        Daemon.run options σ1 es = Some σe →
        Daemon.exited σe = None →
        Daemon.child_closed σe = false →
        ∃ σ2, Daemon.step options σe (Daemon.ChildClose code signal) = Some σ2
          ∧ ∀ c skc, live_client σe c skc →
              ∃ skc', Daemon.socks σ2 !! c = Some skc'
                      ∧ trailer_and_close (JS.ToUint8 (default 1%Z code)) skc skc'.
Proof.
  intros Hrun Hsk Hopen. unfold Daemon.step at 1. rewrite Hrun, Hsk, Hopen.
  eexists; split; [done|]. split_and!; [done..|].
  intros es σe _ Hrune Hchild. unfold Daemon.step. rewrite Hrune, Hchild.
  eexists; split; [done|].
  intros c skc Hlive.
  destruct (wait options && bool_decide (size (Daemon.clients σe) = 0%nat)) eqn:Hmode.
  - apply andb_true_iff in Hmode as [_ Hsize%bool_decide_eq_true].
    apply size_empty_inv, leibniz_equiv in Hsize.
    destruct Hlive as (Hin & _). rewrite Hsize in Hin. by apply elem_of_empty in Hin.
  - by apply (child_on_close_shutdown options code signal
                (Daemon.set_child_closed true σe) Hmode).
Qed.

Lemma kill_ends_every_client_witness :
  ∃ σ1, Daemon.step plain_options serving_one (Daemon.SocketData 0 [KILL]) = Some σ1
    ∧ Daemon.treekills σ1 = 1%nat
    ∧ Daemon.socks σ1 = Daemon.socks serving_one
    ∧ Daemon.clients σ1 = Daemon.clients serving_one
    ∧ ∀ es σe,
        Daemon.run plain_options σ1 es = Some σe →
        Daemon.exited σe = None →
        Daemon.child_closed σe = false →
        ∃ σ2, Daemon.step plain_options σe (Daemon.ChildClose None (Some "SIGTERM")) = Some σ2
          ∧ ∀ c skc, live_client σe c skc →
              ∃ skc', Daemon.socks σ2 !! c = Some skc' ∧ trailer_and_close 1 skc skc'.
Proof.
  exact (kill_ends_every_client plain_options serving_one 0
           (Daemon.mkSocket [104; 105]%Z false false false) [] None
           (Some "SIGTERM"%string) eq_refl eq_refl eq_refl).
Defined.

Lemma is_defined_of_nullable {A} (o : option A) :
  JS.is_defined (JS.of_nullable o) = true.
Proof. by destruct o. Qed.

End Shutdown.

(** ** The buffer along a run of the daemon *)

Section BufferInvariant.

(** Only the child's ['data'] changes the buffer; it goes through
    [onData]. *)
Lemma step_bl options σ e σ' :
  Daemon.step options σ e = Some σ' →
  Daemon.bl σ' = match e with
                 | Daemon.ChildData _ data =>
                     BufferList.capped_append CAPACITY (Daemon.bl σ) data
                 | _ => Daemon.bl σ
                 end.
Proof.
  intros Hstep. destruct e; step_inv Hstep; fields; try done;
    repeat case_match; by fields.
Qed.

Lemma run_bl options es : ∀ σ σ' h,
  Daemon.bl σ = most_recent CAPACITY h →
  Daemon.run options σ es = Some σ' →
  Daemon.bl σ' = most_recent CAPACITY (h ++ Daemon.produced es).
Proof.
  induction es as [|e es IH]; intros σ σ' h Hbl Hrun; simpl in *.
  - rewrite (right_id_L [] (++)). congruence.
  - destruct (Daemon.step options σ e) as [σ1|] eqn:Hstep; [|done].
    apply step_bl in Hstep.
    destruct e; try (apply (IH σ1); [congruence|done]).
    rewrite (assoc_L (++)). apply (IH σ1); [|done].
    by rewrite Hstep, Hbl, capped_append_most_recent, most_recent_app.
Qed.

(** C8. In every state the daemon reaches, the buffer holds no more than
    the capacity and is exactly the most recent capacity-many bytes of all
    the child has emitted; the snapshot a [TALK] takes in that state, which
    is what the attaching client is replayed, is that window.  With the
    cap of 1 MB of the earlier revision, [onData] keeps the window of that
    size. *)
Theorem buffer_is_recent_window options es σ :
  Daemon.run options Daemon.spawnCommand es = Some σ →
  (BufferList.length (Daemon.bl σ) ≤ CAPACITY)%Z
  ∧ Daemon.bl σ = most_recent CAPACITY (Daemon.produced es)
  ∧ (∀ s rest,
       Daemon.replays (Daemon.socket_on_data s (TALK :: rest) σ) !! Daemon.next_replay σ
       = Some (Daemon.mkReplay s (most_recent CAPACITY (Daemon.produced es))))
  ∧ ∀ chunks : list (list Z),
      foldl (BufferList.capped_append CAPACITY_1MB) [] chunks
      = most_recent CAPACITY_1MB (concat chunks).
Proof.
  intros Hrun.
  assert (Daemon.bl σ = most_recent CAPACITY (Daemon.produced es)) as Hbl.
  { by apply (run_bl options es Daemon.spawnCommand σ []). }
  split_and!; [|done| |apply capped_stream_1MB].
  - rewrite Hbl. by apply length_most_recent.
  - intros s rest. simpl. by rewrite lookup_insert_eq, <- Hbl.
Qed.

Lemma buffer_is_recent_window_witness :
  (BufferList.length (Daemon.bl serving_one) ≤ CAPACITY)%Z
  ∧ Daemon.bl serving_one = most_recent CAPACITY (Daemon.produced serving_one_run)
  ∧ (∀ s rest,
       Daemon.replays (Daemon.socket_on_data s (TALK :: rest) serving_one)
         !! Daemon.next_replay serving_one
       = Some (Daemon.mkReplay s (most_recent CAPACITY (Daemon.produced serving_one_run))))
  ∧ ∀ chunks : list (list Z),
      foldl (BufferList.capped_append CAPACITY_1MB) [] chunks
      = most_recent CAPACITY_1MB (concat chunks).
Proof.
  apply (buffer_is_recent_window plain_options serving_one_run serving_one).
  vm_compute. reflexivity.
Defined.

Example serving_one_window :
  Daemon.bl serving_one = [104; 105]%Z
  ∧ most_recent CAPACITY (Daemon.produced serving_one_run) = [104; 105]%Z.
Proof. by vm_compute. Qed.

End BufferInvariant.

(** ** Replay, then live forwarding *)

Section Handoff.

Lemma sock_write_writable data sk :
  Daemon.writable sk = true →
  Daemon.writable (Daemon.sock_write data sk) = true
  ∧ Daemon.sock_out (Daemon.sock_write data sk) = Daemon.sock_out sk ++ data.
Proof.
  intros Hw. unfold Daemon.sock_write. rewrite Hw. split; [|done].
  revert Hw. unfold Daemon.writable. by simpl.
Qed.


End Handoff.

(** ** Dispatch of every chunk a client sends *)

Section Dispatch.

(** C10. The ['data'] handler of a connection stays registered: on any
    open connection, live or not, a chunk that starts with [KILL] calls
    [treekill], and a chunk that starts with [TALK] starts a replay of the
    whole buffer into the same socket and pipes the child's streams into it
    once more, so a client that was already sent those bytes is sent them
    again. *)
Theorem every_chunk_is_dispatched options σ s sk rest :
  Daemon.exited σ = None →
  Daemon.childExitCode σ = JS.Undefined →
  Daemon.childSignal σ = JS.Undefined →
  Daemon.socks σ !! s = Some sk →
  Daemon.writable sk = true →
  (∃ σ1, Daemon.step options σ (Daemon.SocketData s (KILL :: rest)) = Some σ1
         ∧ Daemon.treekills σ1 = S (Daemon.treekills σ))
  ∧ (∃ σ2 sk2,
       Daemon.run options σ
         [Daemon.SocketData s (TALK :: rest); Daemon.ReplayEnd (Daemon.next_replay σ)]
       = Some σ2
       ∧ Daemon.socks σ2 !! s = Some sk2
       ∧ Daemon.sock_out sk2 = Daemon.sock_out sk ++ Daemon.bl σ
       ∧ Daemon.stdout_pipes σ2 = Daemon.stdout_pipes σ ++ [s]
       ∧ Daemon.stderr_pipes σ2 = Daemon.stderr_pipes σ ++ [s]).
Proof.
  intros Hrun Hcode Hsig Hsk Hw.
  assert (Daemon.sock_closed sk || Daemon.sock_destroyed sk = false) as Hopen.
  { revert Hw. unfold Daemon.writable.
    by destruct (Daemon.sock_ended sk), (Daemon.sock_destroyed sk), (Daemon.sock_closed sk). }
  split.
  - eexists. unfold Daemon.step. by rewrite Hrun, Hsk, Hopen.
  - simpl. unfold Daemon.step at 1. rewrite Hrun, Hsk, Hopen. simpl.
    unfold Daemon.step. simpl. rewrite Hrun, lookup_insert_eq. simpl.
    eexists _, _. split; [reflexivity|].
    rewrite socket_on_data_TALK. fields. rewrite Hcode, Hsig.
    cbn [JS.is_defined orb].
    destruct (Daemon.justSpawned σ); fields; rewrite lookup_alter_eq, Hsk; simpl;
      by rewrite sock_push_writable.
Qed.

Lemma every_chunk_is_dispatched_witness :
  (∃ σ1, Daemon.step plain_options serving_one (Daemon.SocketData 0 [KILL]) = Some σ1
         ∧ Daemon.treekills σ1 = S (Daemon.treekills serving_one))
  ∧ (∃ σ2 sk2,
       Daemon.run plain_options serving_one
         [Daemon.SocketData 0 [TALK]; Daemon.ReplayEnd (Daemon.next_replay serving_one)]
       = Some σ2
       ∧ Daemon.socks σ2 !! 0%nat = Some sk2
       ∧ Daemon.sock_out sk2 = [104; 105]%Z ++ Daemon.bl serving_one
       ∧ Daemon.stdout_pipes σ2 = Daemon.stdout_pipes serving_one ++ [0%nat]
       ∧ Daemon.stderr_pipes σ2 = Daemon.stderr_pipes serving_one ++ [0%nat]).
Proof.
  apply (every_chunk_is_dispatched plain_options serving_one 0
           (Daemon.mkSocket [104; 105]%Z false false false) []);
    vm_compute; reflexivity.
Defined.

(** The run of the witness, evaluated: the child wrote ["hi"] once, the
    client that sent [TALK] twice was sent it twice, and a later chunk is
    written to it once per [pipe] call. *)
Example talk_twice :
  (Daemon.run plain_options serving_one
     [Daemon.SocketData 0 [TALK]; Daemon.ReplayEnd 1;
      Daemon.ChildData Daemon.Stdout [33]%Z]
   ≫= λ σ, Daemon.sock_out <$> Daemon.socks σ !! 0%nat)
  = Some [104; 105; 104; 105; 33; 33]%Z
  ∧ Daemon.produced
      (serving_one_run
         ++ [Daemon.SocketData 0 [TALK]; Daemon.ReplayEnd 1;
             Daemon.ChildData Daemon.Stdout [33]%Z])
    = [104; 105; 33]%Z.
Proof. by vm_compute. Qed.

End Dispatch.

(** ** The client's bootstrap *)

Section Bootstrap.

Lemma spawnDaemon_run env command options w :
  Client.spawnDaemon env command options w
  = (Client.Ok (), Client.emit (Client.Spawn (execPath env) (daemon_argv env command options)) w).
Proof.
  unfold Client.spawnDaemon, daemon_argv, Client.effect.
  by destruct (wait options).
Qed.

Lemma bind_eval {A B} (m : Client.M A) (k : A → Client.M B) w :
  (m ≫= k) w
  = match m w with
    | (Client.Ok a, w') => k a w'
    | (Client.Throw c, w') => (Client.Throw c, w')
    | (Client.Exit n, w') => (Client.Exit n, w')
    end.
Proof. reflexivity. Qed.

Lemma effect_eval e w : Client.effect e w = (Client.Ok (), Client.emit e w).
Proof. reflexivity. Qed.

(** Projections of a world that is written out, and the boolean tests of
    [connect]; nothing of the program itself is unfolded. *)
Ltac world_simpl :=
  unfold Client.emit;
  cbn [Client.connect_results Client.unlink_results Client.listen_result
       Client.opened Client.trace andb orb negb head tail].

(** Decides the tests [err.code === "..."] on a known code. *)
Ltac eval_tests :=
  repeat match goal with
    | |- context [String.eqb ?a ?b] =>
        let v := eval vm_compute in (String.eqb a b) in
        change (String.eqb a b) with v
    end;
  world_simpl; cbv beta iota.

(** The launch path: the daemon is started, the client sleeps 200 ms and
    makes one more attempt, whose outcome is the outcome of [connect]. *)
Lemma launch_path env command handle options w :
  (Client.spawnDaemon env command options ;;
   Client.effect (Client.Sleep 200) ;;
   Client.createConnection handle) w
  = Client.createConnection handle
      (Client.emit (Client.Sleep 200)
         (Client.emit (Client.Spawn (execPath env) (daemon_argv env command options)) w)).
Proof. by rewrite bind_eval, spawnDaemon_run, bind_eval, effect_eval. Qed.

Lemma createConnection_fails handle err cr ur lr n tr :
  Client.createConnection handle (Client.mkWorld (Some err :: cr) ur lr n tr)
  = (Client.Throw err, Client.mkWorld cr ur lr n (tr ++ [Client.Connect handle])).
Proof. reflexivity. Qed.

(** C7. How [connect] goes on from a first attempt that failed with
    [err.code = err]: in attach-only mode, ENOENT and ECONNREFUSED end the
    process with status 1 after the report, and no daemon is started;
    otherwise ECONNREFUSED unlinks the handle and, the unlink done, takes
    the launch path, ENOENT takes the launch path directly, and any other
    code is thrown on.  The launch path starts the daemon, waits 200 ms and
    connects once more; if that attempt fails, its error is thrown. *)
Theorem connect_or_launch env command handle options err cr ur lr n tr :
  let w := Client.mkWorld (Some err :: cr) ur lr n tr in
  let launch w' :=
    Client.createConnection handle
      (Client.emit (Client.Sleep 200)
         (Client.emit (Client.Spawn (execPath env) (daemon_argv env command options)) w')) in
  (attach options = true → err = "ENOENT" ∨ err = "ECONNREFUSED" →
     Client.connect env command handle options w
     = (Client.Exit 1%Z,
        Client.mkWorld cr ur lr n
          (tr ++ [Client.Connect handle; Client.ConsoleError "[deemon] No daemon running."])))
  ∧ (attach options = false → err = "ECONNREFUSED" → head ur = None ∨ head ur = Some None →
     Client.connect env command handle options w
     = launch (Client.mkWorld cr (tail ur) lr n
                 (tr ++ [Client.Connect handle; Client.Unlink handle])))
  ∧ (attach options = false → err = "ENOENT" →
     Client.connect env command handle options w
     = launch (Client.mkWorld cr ur lr n (tr ++ [Client.Connect handle])))
  ∧ (err ≠ "ENOENT" → err ≠ "ECONNREFUSED" →
     Client.connect env command handle options w
     = (Client.Throw err, Client.mkWorld cr ur lr n (tr ++ [Client.Connect handle])))
  ∧ (∀ w' err' cr', Client.connect_results w' = Some err' :: cr' →
     launch w'
     = (Client.Throw err',
        Client.mkWorld cr' (Client.unlink_results w') (Client.listen_result w')
          (Client.opened w')
          (Client.trace w'
             ++ [Client.Spawn (execPath env) (daemon_argv env command options);
                 Client.Sleep 200; Client.Connect handle]))).
Proof.
  intros w launch. unfold w, launch. clear w launch.
  split_and!.
  - intros Hattach Herr.
    unfold Client.connect, Client.try_catch. rewrite createConnection_fails.
    rewrite Hattach, bind_eval.
    destruct Herr as [-> | ->]; eval_tests;
      rewrite bind_eval, effect_eval; unfold Client.process_exit;
      cbv beta iota; world_simpl; by rewrite <- (assoc_L (++)).
  - intros Hattach -> Hur.
    unfold Client.connect, Client.try_catch. rewrite createConnection_fails.
    rewrite Hattach, bind_eval. eval_tests. unfold Client.unlink.
    destruct ur as [|[e|] ur]; world_simpl; cbv beta iota zeta; world_simpl.
    + rewrite launch_path. world_simpl. by rewrite <- !(assoc_L (++)).
    + by destruct Hur.
    + rewrite launch_path. world_simpl. by rewrite <- !(assoc_L (++)).
  - intros Hattach ->.
    unfold Client.connect, Client.try_catch. rewrite createConnection_fails.
    rewrite Hattach, bind_eval. eval_tests.
    unfold mret, Client.M_ret. cbv beta iota.
    by rewrite launch_path.
  - intros Hne1%String.eqb_neq Hne2%String.eqb_neq.
    unfold Client.connect, Client.try_catch. rewrite createConnection_fails.
    rewrite Hne1, Hne2, andb_false_r, bind_eval. by world_simpl.
  - intros w' err' cr' Hcr.
    unfold Client.createConnection. world_simpl. cbv beta iota zeta. world_simpl.
    rewrite Hcr. by rewrite <- !(assoc_L (++)).
Qed.

Lemma connect_or_launch_witness :
  Client.connect sample_env sample_command sample_handle attach_only_options
    (Client.mkWorld [Some "ENOENT"] [] None 0 [])
  = (Client.Exit 1%Z,
     Client.mkWorld [] [] None 0
       [Client.Connect sample_handle; Client.ConsoleError "[deemon] No daemon running."])
  ∧ Client.connect sample_env sample_command sample_handle attach_options
      (Client.mkWorld [Some "ECONNREFUSED"; None] [] None 0 [])
    = (Client.Ok 0%nat,
       Client.mkWorld [] [] None 1
         [Client.Connect sample_handle; Client.Unlink sample_handle;
          Client.Spawn "/usr/bin/node" ["/usr/lib/deemon/main.js"; "--daemon"; "make"; "watch"];
          Client.Sleep 200; Client.Connect sample_handle])
  ∧ Client.connect sample_env sample_command sample_handle attach_options
      (Client.mkWorld [Some "ENOENT"; Some "ENOENT"] [] None 0 [])
    = (Client.Throw "ENOENT",
       Client.mkWorld [] [] None 0
         [Client.Connect sample_handle;
          Client.Spawn "/usr/bin/node" ["/usr/lib/deemon/main.js"; "--daemon"; "make"; "watch"];
          Client.Sleep 200; Client.Connect sample_handle])
  ∧ Client.connect sample_env sample_command sample_handle attach_options
      (Client.mkWorld [Some "EACCES"] [] None 0 [])
    = (Client.Throw "EACCES", Client.mkWorld [] [] None 0 [Client.Connect sample_handle]).
Proof.
  split_and!.
  - apply (proj1 (connect_or_launch sample_env sample_command sample_handle
                    attach_only_options "ENOENT" [] [] None 0 []));
      [reflexivity|by left].
  - etrans.
    + apply (proj1 (proj2 (connect_or_launch sample_env sample_command sample_handle
                             attach_options "ECONNREFUSED" [None] [] None 0 [])));
        [reflexivity|reflexivity|by left].
    + reflexivity.
  - etrans.
    + apply (proj1 (proj2 (proj2 (connect_or_launch sample_env sample_command sample_handle
                                    attach_options "ENOENT" [Some "ENOENT"] [] None 0 []))));
        reflexivity.
    + reflexivity.
  - apply (proj1 (proj2 (proj2 (proj2 (connect_or_launch sample_env sample_command
                                         sample_handle attach_options "EACCES"
                                         [] [] None 0 [])))));
      discriminate.
Defined.

(** When the unlink itself fails, its error is thrown and nothing is
    launched. *)
Lemma connect_unlink_fails env command handle options code cr ur lr n tr :
  attach options = false →
  Client.connect env command handle options
    (Client.mkWorld (Some "ECONNREFUSED" :: cr) (Some code :: ur) lr n tr)
  = (Client.Throw code,
     Client.mkWorld cr ur lr n (tr ++ [Client.Connect handle; Client.Unlink handle])).
Proof.
  intros Hattach.
  unfold Client.connect, Client.try_catch. rewrite createConnection_fails.
  rewrite Hattach, bind_eval. eval_tests. unfold Client.unlink.
  world_simpl. cbv beta iota zeta. world_simpl. by rewrite <- (assoc_L (++)).
Qed.

(** A first attempt that succeeds is all [connect] does. *)
Lemma connect_succeeds env command handle options cr ur lr n tr :
  Client.connect env command handle options (Client.mkWorld (None :: cr) ur lr n tr)
  = (Client.Ok n, Client.mkWorld cr ur lr (S n) (tr ++ [Client.Connect handle])).
Proof. reflexivity. Qed.

End Bootstrap.

(** ** The attached client: holdback of the last byte *)

Section Holdback.

Lemma stdout_app tr1 tr2 :
  Client.stdout (tr1 ++ tr2) = Client.stdout tr1 ++ Client.stdout tr2.
Proof.
  induction tr1 as [|[] tr1 IH]; simpl; try done.
  by rewrite IH, (assoc_L (++)).
Qed.

Lemma all_but_last_snoc (l : list Z) : all_but_last l ++ option_list (last l) = l.
Proof.
  destruct (decide (l = [])) as [->|Hne]; [done|].
  apply last_is_Some in Hne as [b Hb]. rewrite Hb.
  apply last_Some in Hb as [l' ->]. unfold all_but_last. simpl.
  rewrite length_app. simpl.
  by replace (length l' + 1 - 1)%nat with (length l') by lia; rewrite take_app_length.
Qed.

Lemma all_but_last_app (l data : list Z) :
  data ≠ [] → all_but_last (l ++ data) = l ++ all_but_last data.
Proof.
  intros Hne. unfold all_but_last. rewrite length_app.
  assert (0 < length data)%nat by (destruct data; simpl; [done|lia]).
  replace (length l + length data - 1)%nat with (length l + (length data - 1))%nat by lia.
  by rewrite take_app_add.
Qed.

Lemma write_lastByte_stdout c :
  Client.stdout (Client.effects (Client.write_lastByte c))
  = Client.stdout (Client.effects c) ++ held c.
Proof.
  unfold Client.write_lastByte, held.
  destruct (Client.lastByte c); simpl.
  - by rewrite stdout_app.
  - by rewrite (right_id_L [] (++)).
Qed.

(** One ['data'] with a chunk that is not empty. *)
Lemma on_data_chunk b data c :
  let c' := Client.on_data (b :: data) c in
  Client.stdout (Client.effects c')
  = Client.stdout (Client.effects c) ++ held c ++ all_but_last (b :: data)
  ∧ Client.lastByte c' = last (b :: data)
  ∧ Client.lastByteTimer c' = bool_decide (1 < length (b :: data))%nat
  ∧ Client.status c' = Client.status c
  ∧ Client.socket c' = Client.socket c.
Proof.
  unfold Client.on_data. rewrite bool_decide_false by done.
  assert (all_but_last (b :: data) = take (length data) (b :: data)) as Hcut.
  { unfold all_but_last. simpl. by rewrite Nat.sub_0_r. }
  destruct c as [sk [lb|] tm ef st];
    unfold Client.write_lastByte, held; simpl;
    case_bool_decide as Hlen; simpl;
    rewrite ?stdout_app, ?Hcut; simpl; rewrite ?(right_id_L [] (++));
    try (destruct data; [|simpl in Hlen; lia]); simpl;
    rewrite ?(right_id_L [] (++)), <- ?(assoc_L (++)), ?Nat.sub_0_r; done.
Qed.

(** As long as no timer fires, what was written out is all that was
    received but its last byte, and that byte is held. *)
Lemma holdback_run base chunks : ∀ c received,
  Client.status c = None →
  Client.stdout (Client.effects c) = base ++ all_but_last received →
  Client.lastByte c = last received →
  ∃ c', Client.run c (Client.Data <$> chunks) = Some c'
        ∧ Client.status c' = None
        ∧ Client.stdout (Client.effects c') = base ++ all_but_last (received ++ concat chunks)
        ∧ Client.lastByte c' = last (received ++ concat chunks).
Proof.
  induction chunks as [|data chunks IH]; intros c received Hrun Hout Hlast; simpl.
  - exists c. by rewrite (right_id_L [] (++)).
  - unfold Client.step. rewrite Hrun.
    destruct data as [|b data].
    + exact (IH (Client.on_data [] c) received Hrun Hout Hlast).
    + destruct (on_data_chunk b data c) as (Hout' & Hlast' & _ & Hrun' & _).
      rewrite (assoc_L (++)). apply IH.
      * by rewrite Hrun'.
      * rewrite Hout', Hout. unfold held. rewrite Hlast.
        rewrite all_but_last_app by done.
        rewrite <- (all_but_last_snoc received) at 3.
        by rewrite <- !(assoc_L (++)).
      * by rewrite Hlast', last_app_cons.
Qed.

(** C6, as the code has it.  On every chunk that is not empty the byte held
    before is written out, then all of the chunk but its last byte, and
    that last byte is held; the timer is pending afterwards exactly when
    the chunk had more than one byte; when it fires, the held byte is
    written out.  In a session in which no timer fires, the client has
    written, at ['close'], all it received but the last byte, and exits
    with that byte as its status, or with 0 when it received nothing. *)
Theorem holdback s w b data chunks c :
  (let c' := Client.on_data (b :: data) c in
   Client.stdout (Client.effects c')
   = Client.stdout (Client.effects c) ++ held c ++ all_but_last (b :: data)
   ∧ Client.lastByte c' = last (b :: data)
   ∧ Client.lastByteTimer c' = bool_decide (1 < length (b :: data))%nat)
  ∧ Client.lastByteTimer (Client.on_data [] c) = false
  ∧ Client.stdout (Client.effects (Client.on_lastByteTimer c))
    = Client.stdout (Client.effects c) ++ held c
  ∧ ∃ c', Client.run (Client.attached s w) ((Client.Data <$> chunks) ++ [Client.Close])
          = Some c'
          ∧ Client.stdout (Client.effects c')
            = Client.stdout (Client.trace w) ++ all_but_last (concat chunks)
          ∧ Client.status c' = Some (default 0%Z (last (concat chunks))).
Proof.
  split_and!.
  - destruct (on_data_chunk b data c) as (? & ? & ? & _). by split_and!.
  - done.
  - apply write_lastByte_stdout.
  - destruct (holdback_run (Client.stdout (Client.trace w)) chunks
                (Client.attached s w) []) as (c' & Hrun & Hstatus & Hout & Hlast);
      [done|unfold all_but_last; simpl; by rewrite (right_id_L [] (++))|done|].
    simpl in Hout, Hlast.
    assert (∀ c es1 es2, Client.run c (es1 ++ es2)
                         = Client.run c es1 ≫= λ c', Client.run c' es2) as Happ.
    { intros c0 es1. revert c0. induction es1 as [|e es1 IHes]; intros c0 es2; simpl; [done|].
      destruct (Client.step c0 e); simpl; [apply IHes|done]. }
    rewrite Happ, Hrun. simpl. unfold Client.step. rewrite Hstatus.
    eexists; split; [done|]. simpl.
    rewrite stdout_app, Hlast. simpl. rewrite (right_id_L [] (++)). split; [done|].
    by destruct (last (concat chunks)).
Qed.

(** C6, as stated, fails: a chunk of one byte starts no timer.  After it
    the byte is held, nothing is pending that would write it out, and it
    stays held until more data or the close arrives. *)
Lemma one_byte_chunk_starts_no_timer :
  ∃ c, Client.run (Client.attached 0 (Client.mkWorld [] [] None 1 [])) [Client.Data [104%Z]]
       = Some c
       ∧ Client.lastByte c = Some 104%Z
       ∧ Client.lastByteTimer c = false
       ∧ Client.step c Client.LastByteTimeout = None
       ∧ Client.stdout (Client.effects c) = [].
Proof. eexists. by split_and!. Qed.

(** The timer's callback leaves [lastByte] set.  After it has fired, the
    byte it wrote is written again by the next ['data'], and a ['close']
    takes it for the exit status. *)
Example timer_leaves_byte_held :
  (Client.run (Client.attached 0 (Client.mkWorld [] [] None 1 []))
     [Client.Data [104; 105]%Z; Client.LastByteTimeout; Client.Data [33; 0]%Z; Client.Close]
   ≫= λ c, Some (Client.stdout (Client.effects c), Client.status c))
  = Some ([104; 105; 105; 33]%Z, Some 0%Z)
  ∧ (Client.run (Client.attached 0 (Client.mkWorld [] [] None 1 []))
       [Client.Data [104; 105]%Z; Client.LastByteTimeout; Client.Close]
     ≫= λ c, Some (Client.stdout (Client.effects c), Client.status c))
    = Some ([104; 105]%Z, Some 105%Z).
Proof. by vm_compute. Qed.

End Holdback.

(** ** What the client sends *)

Section ClientTraffic.

Lemma sent_app s tr1 tr2 :
  Client.sent s (tr1 ++ tr2) = Client.sent s tr1 ++ Client.sent s tr2.
Proof.
  induction tr1 as [|e tr1 IH]; simpl; [done|].
  destruct e; try done. case_match; [|done]. by rewrite IH, (assoc_L (++)).
Qed.

Lemma quiet_refl w : quiet w w.
Proof. by split. Qed.

Lemma quiet_trans w1 w2 w3 : quiet w1 w2 → quiet w2 w3 → quiet w1 w3.
Proof.
  intros [Hs1 Ho1] [Hs2 Ho2]. split; [|lia].
  intros s. by rewrite Hs2, Hs1.
Qed.

Lemma still_refl w : still w w.
Proof. by split. Qed.

Lemma still_trans w1 w2 w3 : still w1 w2 → still w2 w3 → still w1 w3.
Proof.
  intros [Hs1 Ho1] [Hs2 Ho2]. split; [|congruence].
  intros s. by rewrite Hs2, Hs1.
Qed.

Lemma still_quiet w w' : still w w' → quiet w w'.
Proof. intros [Hs Ho]. split; [done|lia]. Qed.

Lemma idles_sends_nothing {A} (m : Client.M A) : idles m → sends_nothing m.
Proof. intros Hm w. apply still_quiet, Hm. Qed.

Lemma idles_ret {A} (a : A) : idles (mret a : Client.M A).
Proof. intros w. apply still_refl. Qed.

Lemma idles_throw {A} code : idles (Client.throw code : Client.M A).
Proof. intros w. apply still_refl. Qed.

Lemma idles_exit {A} n : idles (Client.process_exit n : Client.M A).
Proof. intros w. apply still_refl. Qed.

Lemma idles_bind {A B} (m : Client.M A) (k : A → Client.M B) :
  idles m → (∀ a, idles (k a)) → idles (m ≫= k).
Proof.
  intros Hm Hk w. rewrite bind_eval. specialize (Hm w).
  destruct (m w) as [[a|c|n] w1]; simpl in *; [|done..].
  apply (still_trans _ w1); [done|apply Hk].
Qed.

Lemma idles_effect e :
  (∀ s data, e ≠ Client.SocketWrite s data) → idles (Client.effect e).
Proof.
  intros He w. split; [|done]. intros s. simpl.
  rewrite sent_app. destruct e; simpl; rewrite ?(right_id_L [] (++)); try done.
  by destruct (He s0 data).
Qed.

Lemma idles_unlink handle : idles (Client.unlink handle).
Proof.
  intros [cr ur lr n tr]. unfold Client.unlink. simpl.
  destruct ur as [|[c|] ur]; (split; [|done]); intros s; simpl;
    rewrite sent_app; simpl; by rewrite (right_id_L [] (++)).
Qed.

Lemma idles_spawnDaemon env command options :
  idles (Client.spawnDaemon env command options).
Proof.
  intros w. rewrite spawnDaemon_run. by apply (idles_effect (Client.Spawn _ _)).
Qed.

Lemma idles_createServer handle : idles (Client.createServer handle).
Proof.
  intros [cr ur lr n tr]. unfold Client.createServer. simpl.
  destruct lr as [code|]; (split; [|done]); intros s; simpl;
    rewrite sent_app; simpl; by rewrite (right_id_L [] (++)).
Qed.

(** The first statement of the [catch] block of [connect]. *)
Lemma idles_recover handle options err :
  idles
    (if attach options && (String.eqb err "ENOENT" || String.eqb err "ECONNREFUSED") then
       Client.effect (Client.ConsoleError "[deemon] No daemon running.") ;;
       Client.process_exit 1
     else if String.eqb err "ECONNREFUSED" then Client.unlink handle
     else if negb (String.eqb err "ENOENT") then Client.throw err
     else mret ()).
Proof.
  destruct (attach options && _).
  { apply idles_bind; [by apply idles_effect|].
    intros _. apply idles_exit. }
  destruct (String.eqb err "ECONNREFUSED"); [apply idles_unlink|].
  destruct (negb _); [apply idles_throw|apply idles_ret].
Qed.

Lemma sends_nothing_bind {A B} (m : Client.M A) (k : A → Client.M B) :
  sends_nothing m → (∀ a, sends_nothing (k a)) → sends_nothing (m ≫= k).
Proof.
  intros Hm Hk w. rewrite bind_eval. specialize (Hm w).
  destruct (m w) as [[a|c|n] w1]; simpl in *; [|done..].
  apply (quiet_trans _ w1); [done|apply Hk].
Qed.

Lemma sends_nothing_try {A} (body : Client.M A) handler :
  sends_nothing body → (∀ c, sends_nothing (handler c)) →
  sends_nothing (Client.try_catch body handler).
Proof.
  intros Hm Hk w. unfold Client.try_catch. specialize (Hm w).
  destruct (body w) as [[a|c|n] w1]; simpl in *; [done| |done].
  apply (quiet_trans _ w1); [done|apply Hk].
Qed.

Lemma sends_nothing_createConnection handle :
  sends_nothing (Client.createConnection handle).
Proof.
  intros [cr ur lr n tr]. unfold Client.createConnection. simpl.
  destruct cr as [|[c|] cr]; (split; [|simpl; lia]); intros s; simpl;
    rewrite sent_app; simpl; by rewrite (right_id_L [] (++)).
Qed.

Lemma sends_nothing_connect env command handle options :
  sends_nothing (Client.connect env command handle options).
Proof.
  apply sends_nothing_try; [apply sends_nothing_createConnection|]. intros err.
  apply sends_nothing_bind; [apply idles_sends_nothing, idles_recover|].
  intros _. apply sends_nothing_bind; [apply idles_sends_nothing, idles_spawnDaemon|].
  intros _. apply sends_nothing_bind; [by apply idles_sends_nothing, idles_effect|].
  intros _. apply sends_nothing_createConnection.
Qed.

Lemma opens_createConnection handle : opens_its_socket (Client.createConnection handle).
Proof.
  intros [cr ur lr n tr]. unfold Client.createConnection. simpl.
  by destruct cr as [|[c|] cr].
Qed.

(** [connect] opens the socket it returns, and no other. *)
Lemma opens_connect env command handle options :
  opens_its_socket (Client.connect env command handle options).
Proof.
  intros w. unfold Client.connect, Client.try_catch.
  pose proof (opens_createConnection handle w) as Hfirst.
  destruct (Client.createConnection handle w) as [[a|err|n] w1]; simpl in *; [done| |done].
  rewrite bind_eval.
  match goal with |- context [match ?m w1 with _ => _ end] => set (first := m) end.
  assert (idles first) as Hq by apply idles_recover.
  specialize (Hq w1) as [_ Hsame].
  destruct (first w1) as [[[]|c|n] w2]; simpl in *; [|congruence..].
  rewrite launch_path.
  match goal with |- context [Client.createConnection handle ?w] => set (w3 := w) end.
  pose proof (opens_createConnection handle w3) as Hsecond.
  assert (Client.opened w3 = Client.opened w) as Hw3 by (unfold w3; simpl; congruence).
  rewrite Hw3 in Hsecond. done.
Qed.

Lemma sent_write s sock data w :
  Client.sent s (Client.trace (Client.emit (Client.SocketWrite sock data) w))
  = Client.sent s (Client.trace w) ++ if Nat.eqb sock s then data else [].
Proof.
  simpl. rewrite sent_app. simpl.
  destruct (Nat.eqb sock s); by rewrite ?(right_id_L [] (++)).
Qed.

(** The end of [main] for a client that attaches: [TALK] goes out on the
    socket, the handlers are registered. *)
Lemma attach_tail env sock w :
  ∃ w', (Client.effect (Client.SocketWrite sock [TALK]) ;;
         (if isTTY env then Client.effect Client.SetRawMode else mret ()) ;;
         mret (Client.Attached sock)) w
        = (Client.Ok (Client.Attached sock), w')
        ∧ Client.opened w' = Client.opened w
        ∧ ∀ s, Client.sent s (Client.trace w')
               = Client.sent s (Client.trace w) ++ if Nat.eqb sock s then [TALK] else [].
Proof.
  rewrite bind_eval, effect_eval, bind_eval.
  destruct (isTTY env).
  - rewrite effect_eval. eexists; split; [done|]. split; [done|]. intros k.
    rewrite <- sent_write. simpl. rewrite !sent_app. simpl.
    by rewrite !(right_id_L [] (++)).
  - eexists; split; [done|]. split; [done|]. intros k. by rewrite <- sent_write.
Qed.

(** One command byte on the socket [sock], the one opened at [n]. *)
Lemma one_byte_on (byte : Z) sock n s :
  sock = n →
  (if Nat.eqb sock s then [byte] else [])
  = if bool_decide (n ≤ s < S n)%nat then [byte] else [].
Proof.
  intros ->. destruct (Nat.eqb_spec n s) as [->|Hne].
  - by rewrite bool_decide_eq_true_2 by lia.
  - by rewrite bool_decide_eq_false_2 by lia.
Qed.

(** What [main] has sent when it returns, fails or exits: on every socket
    it opened, one command byte; [main] returns attached to the socket it
    opened last. *)
Lemma main_sends env command options w :
  nothing_sent w →
  (∀ s, Client.sent s (Client.trace (Client.main env command options w).2)
        = if bool_decide (Client.opened w ≤ s
                          < Client.opened (Client.main env command options w).2)%nat
          then [if kill options || restart options && Nat.eqb s (Client.opened w)
                then KILL else TALK]
          else [])
  ∧ (Client.opened (Client.main env command options w).2 ≤ Client.opened w + 2)%nat
  ∧ ∀ sock, (Client.main env command options w).1 = Client.Ok (Client.Attached sock) →
      kill options = false
      ∧ S sock = Client.opened (Client.main env command options w).2
      ∧ sock = (Client.opened w + if restart options then 1 else 0)%nat.
Proof.
  intros Hnone. unfold Client.main.
  set (handle := getIPCHandle env command).
  destruct (daemon options).
  { (* daemon mode *)
    rewrite bind_eval.
    pose proof (idles_createServer handle w) as [Hs Ho].
    destruct (Client.createServer handle w) as [[[]|c|n] w1]; simpl in *.
    all: split_and!; [|lia|done].
    all: intros s; rewrite bool_decide_eq_false_2 by lia.
    all: rewrite ?sent_app; simpl; by rewrite ?(right_id_L [] (++)), Hs. }
  destruct (detach options).
  { (* detach mode *)
    rewrite bind_eval, spawnDaemon_run, bind_eval, effect_eval, bind_eval.
    destruct (wait options); [rewrite effect_eval|]; simpl.
    all: split_and!; [|lia|done].
    all: intros s; rewrite bool_decide_eq_false_2 by lia.
    all: rewrite !sent_app; simpl; by rewrite !(right_id_L [] (++)). }
  rewrite bind_eval.
  pose proof (sends_nothing_connect env command handle options w) as [Hs1 _].
  pose proof (opens_connect env command handle options w) as Ho1.
  destruct (Client.connect env command handle options w) as [[sock1|c|n] w1];
    simpl in Hs1, Ho1.
  2,3: simpl; (split_and!; [|lia|done]); intros s;
    rewrite bool_decide_eq_false_2 by lia; by rewrite Hs1.
  destruct Ho1 as [Hsock1 Ho1].
  destruct (kill options) eqn:Hkill.
  { (* kill mode *)
    rewrite bind_eval, effect_eval. cbv beta iota.
    unfold mret, Client.M_ret. cbn [fst snd].
    split_and!; [|simpl; lia|done].
    intros s. rewrite sent_write, Hs1, Hnone. simpl. rewrite Ho1.
    by apply one_byte_on. }
  rewrite bind_eval.
  destruct (restart options) eqn:Hrestart.
  - (* restart: [KILL] on the first connection, [TALK] on the second *)
    rewrite bind_eval, effect_eval. cbv beta iota.
    rewrite bind_eval, effect_eval. cbv beta iota.
    set (w2 := Client.emit (Client.Sleep 500)
                 (Client.emit (Client.SocketWrite sock1 [KILL]) w1)).
    assert (∀ s, Client.sent s (Client.trace w2) = if Nat.eqb sock1 s then [KILL] else [])
      as Hs2.
    { intros s. unfold w2. simpl. rewrite !sent_app. simpl.
      rewrite Hs1, Hnone. by destruct (Nat.eqb sock1 s). }
    assert (Client.opened w2 = S (Client.opened w)) as Ho2 by done.
    pose proof (sends_nothing_connect env command handle options w2) as [Hs3 _].
    pose proof (opens_connect env command handle options w2) as Ho3.
    destruct (Client.connect env command handle options w2) as [[sock2|c|n] w3];
      simpl in Hs3, Ho3.
    + destruct Ho3 as [Hsock2 Ho3].
      destruct (attach_tail env sock2 w3) as (w4 & -> & Ho4 & Hs4). cbn [fst snd].
      split_and!; [|lia|intros sock [= <-]; split_and!; [done|congruence|lia]].
      intros s. rewrite Hs4, Hs3, Hs2, Ho4, Ho3, Hsock2, Ho1, Hsock1. cbn [orb andb].
      destruct (Nat.eqb_spec (Client.opened w) s), (Nat.eqb_spec (S (Client.opened w)) s),
        (Nat.eqb_spec s (Client.opened w)); case_bool_decide; try lia; done.
    + simpl. split_and!; [|lia|done].
      intros s. rewrite Hs3, Hs2, Ho3, Ho1, Hsock1. cbn [orb andb].
      destruct (Nat.eqb_spec (Client.opened w) s), (Nat.eqb_spec s (Client.opened w));
        case_bool_decide; try lia; done.
    + simpl. split_and!; [|lia|done].
      intros s. rewrite Hs3, Hs2, Ho3, Ho1, Hsock1. cbn [orb andb].
      destruct (Nat.eqb_spec (Client.opened w) s), (Nat.eqb_spec s (Client.opened w));
        case_bool_decide; try lia; done.
  - (* attach to the first connection *)
    change (@mret Client.M _ nat sock1 w1) with (@Client.Ok nat sock1, w1). cbv beta iota.
    destruct (attach_tail env sock1 w1) as (w4 & -> & Ho4 & Hs4). cbn [fst snd].
    split_and!; [|lia|intros sock [= <-]; split_and!; [done|congruence|lia]].
    intros s. rewrite Hs4, Hs1, Hnone, Ho4, Ho1. simpl.
    by apply one_byte_on.
Qed.

(** One event of an attached client sends nothing, except the keypress
    Ctrl-D, which sends one [KILL] on the attached socket and exits. *)
Lemma step_sent c e c' :
  Client.step c e = Some c' →
  Client.status c = None
  ∧ Client.socket c' = Client.socket c
  ∧ (∀ s, s ≠ Client.socket c →
       Client.sent s (Client.effects c') = Client.sent s (Client.effects c))
  ∧ (Client.sent (Client.socket c) (Client.effects c')
     = Client.sent (Client.socket c) (Client.effects c)
     ∨ e = Client.Keypress Client.ctrl_d
       ∧ Client.sent (Client.socket c) (Client.effects c')
         = Client.sent (Client.socket c) (Client.effects c) ++ [KILL]
       ∧ Client.status c' = Some 0%Z).
Proof.
  unfold Client.step. destruct c as [sock lb tm ef st]. simpl.
  destruct st; [done|]. intros Hstep. split; [done|].
  destruct e as [code|data| |]; simpl in Hstep.
  - (* keypress *)
    injection Hstep as <-. unfold Client.on_keypress. simpl.
    destruct (String.eqb code Client.ctrl_c) eqn:Hc; simpl.
    { split_and!; [done| |left]; intros; rewrite sent_app; simpl;
        by rewrite (right_id_L [] (++)). }
    destruct (String.eqb code Client.ctrl_d) eqn:Hd; simpl; [|by split_and!; [| |left]].
    apply String.eqb_eq in Hd as ->.
    split_and!; [done| |right].
    + intros s Hs. rewrite !sent_app. simpl.
      rewrite (proj2 (Nat.eqb_neq sock s)) by done. by rewrite !(right_id_L [] (++)).
    + split_and!; [done| |done]. rewrite !sent_app. simpl.
      by rewrite Nat.eqb_refl, !(right_id_L [] (++)).
  - (* data *)
    injection Hstep as <-. unfold Client.on_data, Client.write_lastByte. simpl.
    repeat case_bool_decide; destruct lb; simpl;
      (split_and!; [done| |left]); intros; rewrite ?sent_app; simpl;
      by rewrite ?(right_id_L [] (++)).
  - (* the timer *)
    destruct tm; [|done]. injection Hstep as <-.
    unfold Client.on_lastByteTimer, Client.write_lastByte. simpl.
    destruct lb; simpl; (split_and!; [done| |left]); intros; rewrite ?sent_app; simpl;
      by rewrite ?(right_id_L [] (++)).
  - (* close *)
    injection Hstep as <-. unfold Client.on_close. simpl.
    split_and!; [done| |left]; intros; rewrite sent_app; simpl;
      by rewrite (right_id_L [] (++)).
Qed.

Lemma run_sent es : ∀ c c',
  Client.run c es = Some c' →
  Client.sent (Client.socket c) (Client.effects c) = [TALK] →
  (Client.sent (Client.socket c) (Client.effects c') = [TALK]
   ∨ Client.sent (Client.socket c) (Client.effects c') = [TALK; KILL]
     ∧ Client.status c' = Some 0%Z
     ∧ Client.Keypress Client.ctrl_d ∈ es)
  ∧ ∀ s, s ≠ Client.socket c →
      Client.sent s (Client.effects c') = Client.sent s (Client.effects c).
Proof.
  induction es as [|e es IH]; intros c c' Hrun Htalk; simpl in Hrun.
  - injection Hrun as <-. by split; [left|].
  - destruct (Client.step c e) as [c1|] eqn:Hstep; [|done].
    apply step_sent in Hstep as (_ & Hsock & Hother & Hself).
    destruct Hself as [Hsame|(-> & Hkill & Hexit)].
    + destruct (IH c1 c' Hrun) as [Hself' Hother']; [by rewrite Hsock, Hsame|].
      rewrite Hsock in Hself', Hother'. split.
      * destruct Hself' as [?|(? & ? & ?)]; [by left|right].
        split_and!; [done..|]. by apply list_elem_of_further.
      * intros s Hs. by rewrite Hother', Hother.
    + (* after Ctrl-D the client has exited: no event follows *)
      destruct es as [|e es]; simpl in Hrun.
      * injection Hrun as <-. split; [right|done].
        rewrite Hkill, Htalk. split_and!; [done..|]. apply list_elem_of_here.
      * unfold Client.step in Hrun. by rewrite Hexit in Hrun.
Qed.

(** C9, as the code has it.  When [main] returns, fails or exits, the
    client has sent exactly one command byte on every connection it opened
    and nothing on any other socket: [KILL] in kill mode and on the first
    connection of a restart, [TALK] on the connection it attaches to.
    Nothing else is ever sent on a connection that got [KILL].  On the
    attached connection one more byte can follow, whatever the daemon
    sends and whichever keys are pressed: the [KILL] of Ctrl-D, with which
    the client exits. *)
Theorem client_traffic env command options w :
  nothing_sent w →
  (∀ s, Client.sent s (Client.trace (Client.main env command options w).2)
        = if bool_decide (Client.opened w ≤ s
                          < Client.opened (Client.main env command options w).2)%nat
          then [if kill options || restart options && Nat.eqb s (Client.opened w)
                then KILL else TALK]
          else [])
  ∧ ∀ sock,
      (Client.main env command options w).1 = Client.Ok (Client.Attached sock) →
      Client.sent sock (Client.trace (Client.main env command options w).2) = [TALK]
      ∧ ∀ es c,
          Client.run (Client.attached sock (Client.main env command options w).2) es
          = Some c →
          (Client.sent sock (Client.effects c) = [TALK]
           ∨ Client.sent sock (Client.effects c) = [TALK; KILL]
             ∧ Client.status c = Some 0%Z
             ∧ Client.Keypress Client.ctrl_d ∈ es)
          ∧ ∀ s, s ≠ sock →
              Client.sent s (Client.effects c)
              = Client.sent s (Client.trace (Client.main env command options w).2).
Proof.
  intros Hnone.
  destruct (main_sends env command options w Hnone) as (Hsent & _ & Hsock).
  split; [done|]. intros sock Hmain.
  destruct (Hsock sock Hmain) as (Hkill & Hlast & Hfirst).
  assert (Client.sent sock (Client.trace (Client.main env command options w).2) = [TALK])
    as Htalk.
  { rewrite Hsent, bool_decide_eq_true_2, Hkill by lia.
    destruct (restart options); [|done].
    by rewrite (proj2 (Nat.eqb_neq sock (Client.opened w))) by lia. }
  split; [done|]. intros es c Hrun.
  by destruct (run_sent es _ c Hrun Htalk) as [Hself Hother].
Qed.

Lemma client_traffic_witness :
  (∀ s, Client.sent s
          (Client.trace
             (Client.main sample_env sample_command
                (mkOptions false false true false false false)
                (Client.mkWorld [] [] None 0 [])).2)
        = if bool_decide
               (Client.opened (Client.mkWorld [] [] None 0 []) ≤ s
                < Client.opened
                    (Client.main sample_env sample_command
                       (mkOptions false false true false false false)
                       (Client.mkWorld [] [] None 0 [])).2)%nat
          then [if kill (mkOptions false false true false false false)
                   || restart (mkOptions false false true false false false)
                      && Nat.eqb s (Client.opened (Client.mkWorld [] [] None 0 []))
                then KILL else TALK]
          else [])
  ∧ ∀ sock,
      (Client.main sample_env sample_command
         (mkOptions false false true false false false)
         (Client.mkWorld [] [] None 0 [])).1 = Client.Ok (Client.Attached sock) →
      Client.sent sock
        (Client.trace
           (Client.main sample_env sample_command
              (mkOptions false false true false false false)
              (Client.mkWorld [] [] None 0 [])).2) = [TALK]
      ∧ ∀ es c,
          Client.run
            (Client.attached sock
               (Client.main sample_env sample_command
                  (mkOptions false false true false false false)
                  (Client.mkWorld [] [] None 0 [])).2) es
          = Some c →
          (Client.sent sock (Client.effects c) = [TALK]
           ∨ Client.sent sock (Client.effects c) = [TALK; KILL]
             ∧ Client.status c = Some 0%Z
             ∧ Client.Keypress Client.ctrl_d ∈ es)
          ∧ ∀ s, s ≠ sock →
              Client.sent s (Client.effects c)
              = Client.sent s
                  (Client.trace
                     (Client.main sample_env sample_command
                        (mkOptions false false true false false false)
                        (Client.mkWorld [] [] None 0 [])).2).
Proof.
  apply (client_traffic sample_env sample_command
           (mkOptions false false true false false false)
           (Client.mkWorld [] [] None 0 [])).
  intros s. reflexivity.
Defined.

(** The traffic of the witness and of kill mode, evaluated: KILL on the
    first connection and TALK on the second; KILL on the only one. *)
Example restart_and_kill_traffic :
  (let w := (Client.main sample_env sample_command
               (mkOptions false false true false false false)
               (Client.mkWorld [] [] None 0 [])).2 in
   (Client.opened w, Client.sent 0 (Client.trace w), Client.sent 1 (Client.trace w)))
  = (2%nat, [KILL], [TALK])
  ∧ (let w := (Client.main sample_env sample_command
                 (mkOptions false true false false false false)
                 (Client.mkWorld [] [] None 0 [])).2 in
     (Client.opened w, Client.sent 0 (Client.trace w)))
    = (1%nat, [KILL]).
Proof. by vm_compute. Qed.

(** C9, as stated, fails: an attached client that is told Ctrl-D sends a
    second byte, [KILL], on the connection on which it sent [TALK]. *)
Lemma ctrl_d_sends_a_second_byte :
  ∃ w c,
    Client.main sample_env sample_command attach_options (Client.mkWorld [] [] None 0 [])
    = (Client.Ok (Client.Attached 0), w)
    ∧ Client.run (Client.attached 0 w) [Client.Keypress Client.ctrl_d] = Some c
    ∧ Client.sent 0 (Client.effects c) = [TALK; KILL].
Proof. eexists _, _. by split_and!. Qed.

Example restart_traffic :
  Client.trace
    (Client.main sample_env sample_command (mkOptions false false true false false false)
       (Client.mkWorld [] [] None 0 [])).2
  = [Client.Connect sample_handle; Client.SocketWrite 0 [KILL]; Client.Sleep 500;
     Client.Connect sample_handle; Client.SocketWrite 1 [TALK]; Client.SetRawMode].
Proof. reflexivity. Qed.

End ClientTraffic.

(** ** End to end *)

Section EndToEnd.

(** The child writes ["hi\n"] and exits with 0 while one client is
    attached: the client's socket is sent the output, the banner and the
    trailer; a client that receives this stream in one chunk writes all
    but the trailer to its standard output and exits with 0. *)
Example echo_hi :
  let stream :=
    Daemon.run plain_options Daemon.spawnCommand
      [Daemon.Connection 0;
       Daemon.SocketData 0 [TALK];
       Daemon.ReplayEnd 0;
       Daemon.ChildData Daemon.Stdout [104; 105; 10]%Z;
       Daemon.Timeout 1;
       Daemon.ChildClose (Some 0%Z) None]
    ≫= λ σ, (λ sk, (Daemon.sock_out sk, Daemon.exited σ)) <$> Daemon.socks σ !! 0%nat in
  stream
  = Some ([104; 105; 10]%Z ++ JS.bytes_of_string Daemon.spawned_message ++ [0%Z], Some 0%Z)
  ∧ (Client.run (Client.attached 0 (Client.mkWorld [] [] None 1 []))
       [Client.Data (default [] (fst <$> stream)); Client.Close]
     ≫= λ c, Some (Client.stdout (Client.effects c), Client.status c))
    = Some ([104; 105; 10]%Z ++ JS.bytes_of_string Daemon.spawned_message, Some 0%Z).
Proof. by vm_compute. Qed.

End EndToEnd.

(** ** The command line *)

Section CommandLine.

Lemma findIndex_from_options (p : string → nat → bool) flags : ∀ index rest,
  (∀ f i, f ∈ flags → p f i = false) →
  Argv.findIndex_from p index (flags ++ rest)
  = Argv.findIndex_from p (index + length flags) rest.
Proof.
  induction flags as [|f flags IH]; intros index rest Hp; simpl.
  - by rewrite Nat.add_0_r.
  - rewrite Hp by left. rewrite IH; [f_equal; lia|].
    intros f' i Hf'. apply Hp. by right.
Qed.

Lemma some_eqb (x : string) (l : list string) :
  Argv.some (λ arg, String.eqb arg x) l = bool_decide (x ∈ l).
Proof.
  unfold Argv.some. induction l as [|a l IH]; simpl.
  - done.
  - rewrite IH. destruct (String.eqb_spec a x) as [->|Hne]; simpl.
    + symmetry. apply bool_decide_eq_true_2. by left.
    + apply bool_decide_ext. rewrite elem_of_cons. split; [by right|by intros [?|?]].
Qed.

Lemma options_switched_on argv :
  Argv.options argv = switched_on (Argv.optionsArgv argv).
Proof. unfold Argv.options, switched_on. by rewrite !some_eqb. Qed.

Lemma forallb_is_option flags :
  forallb Argv.is_option flags = true →
  ∀ f (i : nat), f ∈ flags → negb (Argv.is_option f) && (2 <=? i)%nat = false.
Proof.
  intros Hflags f i Hf. rewrite forallb_forall in Hflags.
  rewrite (Hflags f); [done|]. by apply list_elem_of_In.
Qed.

Lemma commandPathIndex_split exe script flags path args :
  forallb Argv.is_option flags = true →
  Argv.is_option path = false ∨ args = [] →
  Argv.commandPathIndex (exe :: script :: flags ++ path :: args)
  = if Argv.is_option path then (-1)%Z else Z.of_nat (2 + length flags).
Proof.
  intros Hflags Hpath.
  unfold Argv.commandPathIndex, Argv.findIndex. simpl.
  rewrite !andb_false_r.
  rewrite findIndex_from_options by by apply forallb_is_option.
  simpl. destruct (Argv.is_option path) eqn:Hp; simpl; [|done].
  destruct Hpath as [?| ->]; done.
Qed.

(** The two slices of a command line: the command with its arguments, and
    the options before it. *)
Lemma argv_shape exe script flags path args :
  forallb Argv.is_option flags = true →
  Argv.is_option path = false ∨ args = [] →
  let argv := exe :: script :: flags ++ path :: args in
  Argv.slice argv (Argv.commandPathIndex argv) None = path :: args
  ∧ Argv.optionsArgv argv = flags.
Proof.
  intros Hflags Hpath argv.
  pose proof (commandPathIndex_split exe script flags path args Hflags Hpath) as Hindex.
  fold argv in Hindex.
  assert (length argv = (2 + length flags + S (length args))%nat) as Hlen.
  { unfold argv. simpl. rewrite length_app. simpl. lia. }
  unfold Argv.optionsArgv. rewrite Hindex. unfold Argv.slice, Argv.relative. rewrite Hlen.
  destruct (Argv.is_option path) eqn:Hp.
  - destruct Hpath as [?| ->]; [done|]. simpl length.
    replace (_ <? 0)%Z with true by (symmetry; by apply Z.ltb_lt).
    replace (2 <? 0)%Z with false by done.
    split.
    + replace (Z.to_nat (Z.max _ 0)) with (2 + length flags)%nat by lia.
      unfold argv. simpl. rewrite drop_app_length. simpl.
      by replace (Z.to_nat _) with 1%nat by lia.
    + replace (Z.to_nat (Z.min 2 _)) with 2%nat by lia.
      replace (Z.to_nat _) with (length flags) by lia.
      unfold argv. simpl. by rewrite drop_0, take_app_length.
  - replace (_ <? 0)%Z with false by (symmetry; apply Z.ltb_ge; lia).
    replace (2 <? 0)%Z with false by done.
    split.
    + replace (Z.to_nat (Z.min _ _)) with (2 + length flags)%nat by lia.
      unfold argv. simpl. rewrite drop_app_length.
      apply take_ge. simpl. lia.
    + replace (Z.to_nat (Z.min 2 _)) with 2%nat by lia.
      replace (Z.to_nat _) with (length flags) by lia.
      unfold argv. simpl. by rewrite drop_0, take_app_length.
Qed.

Lemma argv_parsed exe script flags path args cwd :
  forallb Argv.is_option flags = true →
  Argv.is_option path = false ∨ args = [] →
  let argv := exe :: script :: flags ++ path :: args in
  Argv.command argv cwd = Some (mkCommand path args cwd)
  ∧ Argv.options argv = switched_on flags.
Proof.
  intros Hflags Hpath argv.
  destruct (argv_shape exe script flags path args Hflags Hpath) as [Hslice Hopts].
  fold argv in Hslice, Hopts. split.
  - unfold Argv.command. by rewrite Hslice.
  - by rewrite options_switched_on, Hopts.
Qed.

(** Every argument list that is not empty is options, then a command. *)
Lemma arguments_split (rest : list string) :
  rest ≠ [] →
  ∃ flags path args,
    rest = flags ++ path :: args
    ∧ forallb Argv.is_option flags = true
    ∧ (Argv.is_option path = false ∨ args = []).
Proof.
  induction rest as [|a rest IH]; [done|]. intros _.
  destruct rest as [|b rest].
  - exists [], a, []. split_and!; [done|done|by right].
  - destruct (Argv.is_option a) eqn:Ha.
    + destruct IH as (flags & path & args & Hrest & Hflags & Hpath); [done|].
      exists (a :: flags), path, args. split_and!; [by rewrite Hrest|simpl; by rewrite Ha|done].
    + exists [], a, (b :: rest). split_and!; [done|done|by left].
Qed.

Lemma forallb_snoc (flags : list string) last_arg :
  forallb Argv.is_option (flags ++ [last_arg]) = true →
  forallb Argv.is_option flags = true ∧ Argv.is_option last_arg = true.
Proof.
  rewrite forallb_app. simpl. rewrite andb_true_r. apply andb_prop.
Qed.

(** X1.  A command line of options (arguments that start with two dashes),
    then an argument that does not start with two dashes, then anything:
    that argument is the command's path, all that follows it are the
    command's arguments, also when they look like options, and an option is
    on exactly when it is among the arguments before the path. *)
Theorem options_then_command exe script flags path args cwd :
  forallb Argv.is_option flags = true →
  Argv.is_option path = false →
  Argv.command (exe :: script :: flags ++ path :: args) cwd
  = Some (mkCommand path args cwd)
  ∧ Argv.options (exe :: script :: flags ++ path :: args) = switched_on flags.
Proof.
  intros Hflags Hpath. apply argv_parsed; [done|by left].
Qed.

Lemma options_then_command_witness :
  Argv.command
    ("/usr/bin/node" :: "/usr/lib/deemon/main.js"
       :: ["--restart"; "--wait"] ++ "make" :: ["watch"; "--kill"]) "/src"
  = Some (mkCommand "make" ["watch"; "--kill"] "/src")
  ∧ Argv.options
      ("/usr/bin/node" :: "/usr/lib/deemon/main.js"
         :: ["--restart"; "--wait"] ++ "make" :: ["watch"; "--kill"])
    = switched_on ["--restart"; "--wait"].
Proof. apply options_then_command; reflexivity. Defined.

(** X2.  When every argument starts with two dashes, [findIndex] finds no
    command path and returns -1, and the two slices count from the end:
    the last argument is taken as the command's path, with no arguments,
    and it is not read as an option; the options are read from the
    arguments before it. *)
Theorem options_only exe script flags last_arg cwd :
  forallb Argv.is_option (flags ++ [last_arg]) = true →
  Argv.commandPathIndex (exe :: script :: flags ++ [last_arg]) = (-1)%Z
  ∧ Argv.command (exe :: script :: flags ++ [last_arg]) cwd
    = Some (mkCommand last_arg [] cwd)
  ∧ Argv.options (exe :: script :: flags ++ [last_arg]) = switched_on flags.
Proof.
  intros Hall. apply forallb_snoc in Hall as [Hflags Hlast]. split.
  - rewrite commandPathIndex_split; [by rewrite Hlast|done|by right].
  - apply argv_parsed; [done|by right].
Qed.

Lemma options_only_witness :
  Argv.commandPathIndex ("/usr/bin/node" :: "/usr/lib/deemon/main.js" :: ["--wait"] ++ ["--kill"])
  = (-1)%Z
  ∧ Argv.command ("/usr/bin/node" :: "/usr/lib/deemon/main.js" :: ["--wait"] ++ ["--kill"]) "/src"
    = Some (mkCommand "--kill" [] "/src")
  ∧ Argv.options ("/usr/bin/node" :: "/usr/lib/deemon/main.js" :: ["--wait"] ++ ["--kill"])
    = switched_on ["--wait"].
Proof. apply options_only; reflexivity. Defined.

Lemma daemon_argv_parsed env command options cwd :
  Argv.is_option (path command) = false ∨ args command = [] →
  Argv.command (execPath env :: daemon_argv env command options) cwd
  = Some (mkCommand (path command) (args command) cwd)
  ∧ Argv.options (execPath env :: daemon_argv env command options)
    = daemon_options options.
Proof.
  intros Hpath. unfold daemon_argv.
  change ([script env; "--daemon"] ++ ?l) with (script env :: "--daemon" :: l).
  rewrite (app_comm_cons _ _ "--daemon").
  destruct (argv_parsed (execPath env) (script env)
              ("--daemon" :: (if wait options then ["--wait"] else []))
              (path command) (args command) cwd) as [Hcommand Hoptions];
    [by destruct (wait options)|done|].
  split; [done|]. rewrite Hoptions. unfold daemon_options. by destruct (wait options).
Qed.

(** X3.  Every command line with at least one argument has a command, and
    the daemon that [spawnDaemon] starts for it, in the same working
    directory, reads the same command back from its own command line, with
    [--daemon] on, [--wait] as the client had it and every other option
    off.  It then binds the address that the client computes for the
    command, and runs [spawnCommand] only when the bind succeeds: when it
    fails, the error is printed and the command is not started. *)
Theorem daemon_reads_the_command_back env argv cwd :
  (3 ≤ length argv)%nat →
  ∃ command,
    Argv.command argv cwd = Some command
    ∧ let argv' := execPath env :: daemon_argv env command (Argv.options argv) in
      Argv.command argv' cwd = Some command
      ∧ Argv.options argv' = daemon_options (Argv.options argv)
      ∧ ∀ w,
          Client.trace (Argv.program env argv' cwd w).2
          = Client.trace w
              ++ Client.Listen (getIPCHandle env command)
              :: match Client.listen_result w with
                 | None => [Client.RunDaemon]
                 | Some code => [Client.ConsoleError code]
                 end.
Proof.
  intros Hlen.
  destruct argv as [|exe [|script rest]]; [simpl in Hlen; lia..|].
  destruct (arguments_split rest) as (flags & path & args & -> & Hflags & Hpath).
  { intros ->. simpl in Hlen. lia. }
  destruct (argv_parsed exe script flags path args cwd Hflags Hpath) as [Hcommand Hoptions].
  exists (mkCommand path args cwd). split; [done|].
  destruct (daemon_argv_parsed env (mkCommand path args cwd)
              (Argv.options (exe :: script :: flags ++ path :: args)) cwd Hpath)
    as [Hcommand' Hoptions'].
  simpl in Hcommand'. split_and!; [done..|].
  intros w. unfold Argv.program.
  replace (Z.of_nat _ <? 3)%Z with false.
  2:{ symmetry. apply Z.ltb_ge. unfold daemon_argv. simpl. lia. }
  rewrite Hcommand', Hoptions'.
  unfold Client.try_catch, Client.main, daemon_options. simpl.
  unfold mbind, Client.M_bind, Client.createServer, Client.effect, Client.process_exit. simpl.
  by destruct (Client.listen_result w); simpl; rewrite <- ?(assoc_L (++)).
Qed.

Lemma daemon_reads_the_command_back_witness :
  ∃ command,
    Argv.command ["/usr/bin/node"; "/usr/lib/deemon/main.js"; "--wait"; "--detach"; "make"; "watch"]
      "/src" = Some command
    ∧ let argv' :=
        execPath sample_env
          :: daemon_argv sample_env command
               (Argv.options
                  ["/usr/bin/node"; "/usr/lib/deemon/main.js"; "--wait"; "--detach"; "make"; "watch"]) in
      Argv.command argv' "/src" = Some command
      ∧ Argv.options argv'
        = daemon_options
            (Argv.options
               ["/usr/bin/node"; "/usr/lib/deemon/main.js"; "--wait"; "--detach"; "make"; "watch"])
      ∧ ∀ w,
          Client.trace (Argv.program sample_env argv' "/src" w).2
          = Client.trace w
              ++ Client.Listen (getIPCHandle sample_env command)
              :: match Client.listen_result w with
                 | None => [Client.RunDaemon]
                 | Some code => [Client.ConsoleError code]
                 end.
Proof. apply daemon_reads_the_command_back. simpl. lia. Defined.

Example daemon_command_line :
  execPath sample_env
    :: daemon_argv sample_env sample_command
         (Argv.options
            ["/usr/bin/node"; "/usr/lib/deemon/main.js"; "--wait"; "--detach"; "make"; "watch"])
  = ["/usr/bin/node"; "/usr/lib/deemon/main.js"; "--daemon"; "--wait"; "make"; "watch"].
Proof. reflexivity. Qed.

End CommandLine.

(** ** How the program ends, and what [connect] attempts *)

Section Startup.

(** How [connect] ends, and what it did, by the results of its attempts. *)
Lemma connect_cases env command handle options w :
  let r := Client.connect env command handle options w in
  let launch := [Client.Spawn (execPath env) (daemon_argv env command options);
                 Client.Sleep 200; Client.Connect handle] in
  (∀ status, r.1 = Client.Exit status → status = 1%Z)
  ∧ ∃ added,
      Client.trace r.2 = Client.trace w ++ added
      ∧ (added = [Client.Connect handle]
         ∨ (attach options = true
            ∧ added = [Client.Connect handle; Client.ConsoleError "[deemon] No daemon running."])
         ∨ (attach options = false
            ∧ (added = [Client.Connect handle; Client.Unlink handle]
               ∨ added = Client.Connect handle :: Client.Unlink handle :: launch
               ∨ added = Client.Connect handle :: launch))).
Proof.
  destruct w as [cr ur lr n tr]. intros r launch. subst r launch.
  assert (∀ cr ur tr',
    let r := Client.createConnection handle
               (Client.emit (Client.Sleep 200)
                  (Client.emit (Client.Spawn (execPath env) (daemon_argv env command options))
                     (Client.mkWorld cr ur lr n tr'))) in
    (∀ status, r.1 ≠ Client.Exit status)
    ∧ Client.trace r.2
      = tr' ++ [Client.Spawn (execPath env) (daemon_argv env command options);
                Client.Sleep 200; Client.Connect handle]) as Hlaunch.
  { intros cr' ur' tr'. unfold Client.createConnection, Client.emit. simpl.
    destruct cr' as [|[err'|] cr']; simpl; rewrite <- !(assoc_L (++)); by split. }
  unfold Client.connect, Client.try_catch.
  destruct cr as [|[err|] cr].
  - simpl. split; [done|]. eexists. split; [done|]. by left.
  - rewrite createConnection_fails.
    rewrite bind_eval.
    destruct (attach options) eqn:Hattach; cbn [andb].
    + destruct (String.eqb err "ENOENT" || String.eqb err "ECONNREFUSED") eqn:Herr.
      * rewrite bind_eval, effect_eval. unfold Client.process_exit, Client.emit. simpl.
        split; [by intros ? [= <-]|]. eexists. rewrite <- !(assoc_L (++)). split; [done|].
        right. by left.
      * apply orb_false_elim in Herr as [Hnoent Hrefused]. rewrite Hrefused, Hnoent. simpl.
        split; [done|]. eexists. split; [done|]. by left.
    + destruct (String.eqb err "ECONNREFUSED") eqn:Hrefused.
      * unfold Client.unlink, Client.emit. simpl.
        destruct ur as [|[code|] ur]; cbv beta iota.
        -- rewrite launch_path.
           destruct (Hlaunch cr [] (tr ++ [Client.Connect handle; Client.Unlink handle]))
             as [Hexit Htrace].
           rewrite <- !(assoc_L (++)). simpl.
           split; [intros status Hstatus; by destruct (Hexit status)|].
           eexists. split; [by rewrite Htrace, <- !(assoc_L (++))|].
           right. right. split; [done|]. right. by left.
        -- simpl. split; [done|]. eexists. rewrite <- !(assoc_L (++)). split; [done|].
           right. right. split; [done|]. by left.
        -- rewrite launch_path.
           destruct (Hlaunch cr ur (tr ++ [Client.Connect handle; Client.Unlink handle]))
             as [Hexit Htrace].
           rewrite <- !(assoc_L (++)). simpl.
           split; [intros status Hstatus; by destruct (Hexit status)|].
           eexists. split; [by rewrite Htrace, <- !(assoc_L (++))|].
           right. right. split; [done|]. right. by left.
      * destruct (String.eqb err "ENOENT") eqn:Hnoent; cbn [negb]; cbv beta iota.
        -- unfold mret, Client.M_ret. cbv beta iota. rewrite launch_path.
           destruct (Hlaunch cr ur (tr ++ [Client.Connect handle])) as [Hexit Htrace].
           split; [intros status Hstatus; by destruct (Hexit status)|].
           eexists. split; [by rewrite Htrace, <- !(assoc_L (++))|].
           right. right. split; [done|]. right. by right.
        -- simpl. split; [done|]. eexists. split; [done|]. by left.
  - simpl. split; [done|]. eexists. split; [done|]. by left.
Qed.

(** X4.  Whatever the outcomes of its attempts, [connect] tries to connect
    once, and once more for the daemon it starts; it starts at most one
    daemon and removes the socket file at most once, and with [--attach]
    it starts no daemon and removes nothing. *)
Theorem connect_attempts env command handle options w :
  ∃ added,
    Client.trace (Client.connect env command handle options w).2 = Client.trace w ++ added
    ∧ count is_connect added = (1 + count is_spawn added)%nat
    ∧ (count is_spawn added ≤ if attach options then 0 else 1)%nat
    ∧ (count is_unlink added ≤ if attach options then 0 else 1)%nat.
Proof.
  destruct (connect_cases env command handle options w) as [_ (added & Htrace & Hcases)].
  exists added. split; [done|].
  destruct Hcases as [->|[[Hattach ->]|[Hattach [->|[->| ->]]]]];
    try rewrite Hattach; vm_compute; destruct (attach options); split_and!; lia.
Qed.

Lemma main_exit env command options w status :
  (Client.main env command options w).1 = Client.Exit status →
  status = 1%Z ∨ (status = 0%Z ∧ daemon options = false ∧ detach options = true).
Proof.
  unfold Client.main. cbv zeta.
  destruct (daemon options) eqn:Hdaemon; cbv beta iota.
  { rewrite bind_eval. unfold Client.createServer.
    destruct (Client.listen_result (Client.emit _ w)); simpl; [done|].
    done. }
  destruct (detach options) eqn:Hdetach; cbv beta iota.
  { intros Hexit. right. split; [|done]. revert Hexit.
    rewrite bind_eval, spawnDaemon_run, bind_eval, effect_eval, bind_eval.
    destruct (wait options); [rewrite effect_eval|]; by intros [= <-]. }
  rewrite bind_eval.
  destruct (connect_cases env command (getIPCHandle env command) options w) as [Hexit _].
  destruct (Client.connect env command (getIPCHandle env command) options w)
    as [[sock|code|status'] w'] eqn:Hconnect; [|done|].
  2:{ intros [= <-]. left. by apply Hexit. }
  clear Hexit.
  destruct (kill options); [by rewrite bind_eval, effect_eval|].
  rewrite bind_eval.
  destruct (restart options).
  - rewrite bind_eval, effect_eval, bind_eval, effect_eval.
    match goal with |- context [Client.connect _ _ _ _ ?w0] =>
      destruct (connect_cases env command (getIPCHandle env command) options w0) as [Hexit _];
      destruct (Client.connect env command (getIPCHandle env command) options w0)
        as [[sock'|code'|status'] w''] end; [|done|].
    + rewrite bind_eval, effect_eval, bind_eval.
      by destruct (isTTY env); [rewrite effect_eval|].
    + intros [= <-]. left. by apply Hexit.
  - unfold mret at 1, Client.M_ret at 1. cbv beta iota.
    rewrite bind_eval, effect_eval, bind_eval.
    by destruct (isTTY env); [rewrite effect_eval|].
Qed.

(** X5.  The process never ends in an unhandled rejection: whatever the
    command line and whatever happens to its connection attempts, the
    program either leaves [main] normally (attached, or with its byte sent,
    or as the daemon), or it exits with status 1 (no argument, any error,
    no daemon under [--attach]) or, only as a client with [--detach], with
    status 0. *)
Theorem program_ends_in_status env argv cwd w :
  match (Argv.program env argv cwd w).1 with
  | Client.Ok _ => (3 ≤ length argv)%nat
  | Client.Throw _ => False
  | Client.Exit status =>
      status = 1%Z
      ∨ (status = 0%Z
         ∧ (3 ≤ length argv)%nat
         ∧ daemon (Argv.options argv) = false
         ∧ detach (Argv.options argv) = true)
  end.
Proof.
  unfold Argv.program.
  destruct (Z.ltb_spec (Z.of_nat (length argv)) 3) as [Hshort|Hlong].
  { simpl. by left. }
  unfold Client.try_catch.
  destruct (Argv.command argv cwd) as [command|].
  - pose proof (main_exit env command (Argv.options argv) w) as Hexit.
    destruct (Client.main env command (Argv.options argv) w) as [[started|code|status] w'];
      simpl in *.
    + lia.
    + by left.
    + destruct (Hexit status eq_refl) as [->|(-> & ? & ?)]; [by left|right]. split_and!; [done|lia|done..].
  - simpl. by left.
Qed.

Example usage_exit :
  Argv.program sample_env ["/usr/bin/node"; "/usr/lib/deemon/main.js"] "/src"
    (Client.mkWorld [] [] None 0 [])
  = (Client.Exit 1%Z, Client.mkWorld [] [] None 0 [Client.ConsoleError Argv.usage]).
Proof. reflexivity. Qed.

End Startup.

(** ** Invariants of the daemon's runs *)

Section DaemonRuns.

Lemma child_closes_app es1 es2 :
  child_closes (es1 ++ es2) = child_closes es1 ++ child_closes es2.
Proof.
  induction es1 as [|[] es1 IH]; simpl; by rewrite ?IH.
Qed.

Lemma treekills_step options σ e σ' :
  Daemon.step options σ e = Some σ' →
  Daemon.treekills σ' = (Daemon.treekills σ + if chunk_of KILL e then 1 else 0)%nat.
Proof.
  intros Hstep.
  destruct e as [st data|code signal|s|s buffer|s|r n|r|t|s|];
    step_inv Hstep; cbn [chunk_of]; fields; try lia.
  - repeat case_match; fields; lia.
  - destruct buffer as [|c buffer]; simpl; [lia|].
    repeat case_match; fields; lia.
  - repeat case_match; fields; lia.
  - repeat case_match; fields; lia.
  - repeat case_match; fields; lia.
Qed.

(** X6.  The daemon signals the child's process tree once for every chunk
    from a client that starts with KILL, and at no other occasion: along
    every run, the number of [treekill] calls is the number of such
    chunks. *)
Theorem treekill_once_per_kill_chunk options es σ :
  Daemon.run options Daemon.spawnCommand es = Some σ →
  Daemon.treekills σ = length (filter (λ e, chunk_of KILL e = true) es).
Proof.
  revert es σ.
  apply (run_ind options (λ es σ,
    Daemon.treekills σ = length (filter (λ e, chunk_of KILL e = true) es))); [done|].
  intros es σ e σ' _ IH Hstep.
  rewrite (treekills_step _ _ _ _ Hstep), IH, filter_app, length_app.
  f_equal. rewrite filter_cons, filter_nil. by destruct (chunk_of KILL e).
Qed.

Lemma treekill_once_per_kill_chunk_witness :
  Daemon.treekills bystander
  = length (filter (λ e, chunk_of KILL e = true) bystander_run).
Proof. apply (treekill_once_per_kill_chunk plain_options). vm_compute. reflexivity. Defined.

(** The run of the witness has one KILL chunk, and the child's process
    tree was signalled once. *)
Example bystander_treekills :
  Daemon.treekills bystander = 1%nat
  ∧ length (filter (λ e, chunk_of KILL e = true) bystander_run) = 1%nat.
Proof. by vm_compute. Qed.

Lemma healthy_step options σ e σ' :
  Daemon.step options σ e = Some σ' → healthy σ → healthy σ'.
Proof.
  intros Hstep.
  destruct e as [st data|code signal|s|s buffer|s|r n|r|t|s|];
    step_inv Hstep; unfold healthy, no_ended; intros Hh; fields; try done.
  - intros _ Hrec. by apply none_ended_foldl; [apply sock_write_ended|apply Hh].
  - destruct (wait options && _); fields; [|done].
    intros _ Hrec. by rewrite is_defined_of_nullable in Hrec.
  - intros _ Hrec. apply none_ended_insert. by apply Hh.
  - destruct (buffer !! 0%nat) as [command|]; [|done].
    destruct (command =? KILL)%Z; [done|]. by destruct (command =? TALK)%Z.
  - destruct (bool_decide _); fields; intros _ Hrec;
      by apply none_ended_alter; [|apply Hh].
  - intros _ Hrec. by apply none_ended_alter; [apply sock_push_ended|apply Hh].
  - destruct (_ || _) eqn:Hrec; fields; [by rewrite Hrec|].
    destruct (Daemon.justSpawned σ); fields; rewrite Hrec; intros _ _;
      by apply none_ended_alter; [apply sock_push_ended|apply Hh].
  - rename t0 into tm.
    destruct (Daemon.callback tm) as [|s msg|exitCode] eqn:Hcb; fields; try done.
    intros _ Hrec. by apply none_ended_alter; [apply sock_write_ended|apply Hh].
Qed.

Lemma healthy_spawnCommand : healthy Daemon.spawnCommand.
Proof. intros _ _ s sk Hsk. done. Qed.

Lemma healthy_run options es σ :
  Daemon.run options Daemon.spawnCommand es = Some σ → healthy σ.
Proof.
  revert es σ. apply (run_ind options (λ _ σ, healthy σ)).
  - apply healthy_spawnCommand.
  - intros es σ e σ' _ Hinv Hstep. by eapply healthy_step.
Qed.

(** A failed write needs an ended connection, and so a recorded exit. *)
Lemma raise_recorded σ (b : bool) :
  healthy σ → Daemon.exited σ = None → (no_ended σ → b = false) →
  b = true → recorded σ = true.
Proof.
  intros Hh Hexited Hb Htrue. destruct (recorded σ) eqn:Hrec; [done|].
  rewrite Hb in Htrue; [done|]. by apply Hh.
Qed.

(** The events that neither are a ['close'] of the child nor schedule or
    make the exit: the process goes on or dies of an error. *)
Lemma exit_inv_died es e (b : bool) σ σ' :
  child_closes [e] = [] →
  (b = true → recorded σ = true ∨ error_event e = true) →
  Daemon.exited σ = None →
  Daemon.exited σ' = (if b then Some 1%Z else None) →
  Daemon.listening σ' = (if b then false else Daemon.listening σ) →
  Daemon.child_closed σ' = Daemon.child_closed σ →
  Daemon.childExitCode σ' = Daemon.childExitCode σ →
  Daemon.childSignal σ' = Daemon.childSignal σ →
  (∀ t tm c, Daemon.timers σ' !! t = Some tm → Daemon.callback tm = Daemon.CloseAndExit c →
     ∃ t' tm', Daemon.timers σ !! t' = Some tm'
               ∧ Daemon.callback tm' = Daemon.CloseAndExit c) →
  exit_inv es σ → exit_inv (es ++ [e]) σ'.
Proof.
  intros He Hb Hexited Hexited' Hlistening' Hchild' Hcode' Hsignal' Htimers' [Hlisten Hinv].
  unfold exit_inv, exit_pending, recorded in *.
  rewrite child_closes_app, existsb_app, He, (right_id_L [] (++)).
  rewrite Hexited', Hlistening', Hchild', Hcode', Hsignal'.
  split; [destruct b; [done|by intros _; apply Hlisten]|].
  destruct (child_closes es) as [|[c sg] [|]]; [| |done].
  - destruct Hinv as (Hchild & _ & Hrec & Hpending). split_and!; [done| |done|].
    + intros n Hn. destruct b; [|done]. injection Hn as <-. split; [done|].
      destruct Hb as [Hb|Hb]; [done|congruence|]. simpl. by rewrite Hb, orb_true_r.
    + intros (t & tm & c & Ht & Hc). destruct Hpending.
      destruct (Htimers' t tm c Ht Hc) as (t' & tm' & ? & ?). by exists t', tm', c.
  - destruct Hinv as (Hchild & _ & Htimers & Hcode). split_and!; [done| | |done].
    + intros n Hn. destruct b; [|done]. injection Hn as <-. right. split; [done|].
      destruct Hb as [Hb|Hb]; [done|by right|]. left. simpl. by rewrite Hb, orb_true_r.
    + intros t tm c' Ht Hc.
      destruct (Htimers' t tm c' Ht Hc) as (t' & tm' & ? & ?). by eapply Htimers.
Qed.

Lemma exit_inv_step options es σ e σ' :
  Daemon.step options σ e = Some σ' →
  healthy σ → exit_inv es σ → exit_inv (es ++ [e]) σ'.
Proof.
  intros Hstep Hh.
  destruct e as [st data|code signal|s|s buffer|s|r n|r|t|s|]; step_inv Hstep.
  - (* ChildData *)
    apply (exit_inv_died _ _ (any_raises (Daemon.pipes_of st σ) σ)); fields; try done.
    + intros Hb. left. revert Hb. apply raise_recorded; [done..|].
      apply any_raises_no_ended.
    + by rewrite Heqo.
    + eauto.
  - (* ChildClose *)
    unfold exit_inv, exit_pending.
    rewrite child_closes_app, existsb_app; cbn [child_closes existsb error_event].
    rewrite ?orb_false_r. intros [Hlisten Hinv].
    destruct (child_closes es) as [|[c sg] [|]]; [|destruct Hinv as [? _]; congruence|done].
    destruct Hinv as (_ & _ & Hrec & Hpending). simpl app.
    apply orb_false_elim in Hrec as [Hcode Hsignal].
    fields. destruct (wait options && _); fields.
    + split; [done|]. split_and!; [done|by intros n; rewrite Heqo| |done].
      intros t tm c Ht Hc. destruct Hpending. by exists t, tm, c.
    + split; [done|]. split_and!; [done|..].
      * intros n [= <-]. left. apply exit_code_default.
      * intros t tm c Ht Hc. destruct Hpending. by exists t, tm, c.
      * by rewrite Hcode, Hsignal.
  - (* Connection *)
    apply (exit_inv_died _ _ false); fields; try done. eauto.
  - (* SocketData *)
    apply (exit_inv_died _ _ false); fields; try done;
      destruct (buffer !! 0%nat) as [command|]; try done; try solve [eauto];
      destruct (command =? KILL)%Z; try done; try solve [eauto];
      destruct (command =? TALK)%Z; try done; try solve [eauto].
  - (* SocketClose *)
    apply (exit_inv_died _ _ false); fields; try done;
      destruct (bool_decide _); fields; try done; eauto.
  - (* ReplayRead *)
    apply (exit_inv_died _ _
             (bool_decide (take n (Daemon.rp_rest r0) ≠ []) && Daemon.raises (Daemon.rp_sock r0) σ));
      fields; try done.
    + intros Hb. left. revert Hb. apply raise_recorded; [done..|].
      intros Hno. by rewrite raises_no_ended, andb_false_r.
    + by rewrite Heqo.
    + eauto.
  - (* ReplayEnd *)
    destruct (recorded σ) eqn:Hrec.
    + unfold exit_inv, exit_pending.
      rewrite child_closes_app, existsb_app; cbn [child_closes existsb error_event].
      rewrite ?orb_false_r, ?(right_id_L [] (++)). intros [Hlisten Hinv].
      destruct (child_closes es) as [|[c sg] [|]];
        [destruct Hinv as (_ & _ & ? & _); congruence| |done].
      destruct Hinv as (Hchild & _ & Htimers & Hcode).
      fields. unfold recorded in Hrec. rewrite Hrec. fields. rewrite Heqo.
      split; [repeat case_match; try done; intros _; by apply Hlisten|].
      split_and!; [done| | |done].
      * intros n Hn. right. split; [|by right]. by repeat case_match; simplify_eq.
      * intros t tm c' Ht Hc'. apply lookup_insert_Some in Ht as [[<- <-]|[_ Ht]].
        -- simpl in Hc'. injection Hc' as <-. rewrite Hcode by done. apply exit_code_default.
        -- by eapply Htimers.
    + assert (no_ended σ) as Hno by by apply Hh.
      rewrite push_eq, raises_no_ended, andb_false_r, died_false by done.
      apply (exit_inv_died _ _ false); try done; fields;
        unfold recorded in Hrec; rewrite ?Hrec; try done;
        destruct (Daemon.justSpawned σ); fields; try done.
      all: intros t tm c Ht Hc; apply lookup_insert_Some in Ht as [[<- <-]|[_ Ht]];
        [done|eauto].
  - (* Timeout *)
    rename t0 into tm.
    destruct (Daemon.callback tm) as [|s msg|exitCode] eqn:Hcb.
    + apply (exit_inv_died _ _ false); fields; try done.
      intros t' tm' c Ht Hc. apply lookup_delete_Some in Ht as [_ Ht]. eauto.
    + apply (exit_inv_died _ _ (Daemon.raises s σ)); fields; try done.
      * intros Hb. left. revert Hb. apply raise_recorded; [done..|].
        apply raises_no_ended.
      * by rewrite Heqo.
      * intros t' tm' c Ht Hc. apply lookup_delete_Some in Ht as [_ Ht]. eauto.
    + unfold exit_inv, exit_pending.
      rewrite child_closes_app, existsb_app; cbn [child_closes existsb error_event].
      rewrite ?orb_false_r, ?(right_id_L [] (++)). intros [Hlisten Hinv]. fields.
      split; [done|].
      destruct (child_closes es) as [|[c sg] [|]];
        [destruct Hinv as (? & ? & ? & Hpending)
        |destruct Hinv as (? & Hexit & Htimers & Hcode)|done].
      { destruct Hpending. by exists t, tm, exitCode. }
      split_and!; [done| | |done].
      * intros n [= <-]. left. by eapply Htimers.
      * intros t' tm' c' Ht Hc'. apply lookup_delete_Some in Ht as [_ Ht].
        by eapply Htimers.
  - (* SocketError *)
    apply (exit_inv_died _ _ true); fields; try done; eauto.
  - (* ChildError *)
    apply (exit_inv_died _ _ true); fields; try done; eauto.
Qed.



Example stopped_status : Daemon.exited stopped = Some 3%Z.
Proof. vm_compute. reflexivity. Qed.

(** The other two ends.  The connection of the attached client is reset
    while the child runs: the daemon dies with status 1, and the child has
    not closed.  And in wait mode, a late client sends TALK twice: the
    second replay writes to the connection that the first one has ended,
    and the daemon dies with status 1 where the child's code was 3. *)
Example reset_status :
  Daemon.exited <$> Daemon.run plain_options serving_one [Daemon.SocketError 0]
  = Some (Some 1%Z).
Proof. vm_compute. reflexivity. Qed.

Example talk_twice_late_status :
  Daemon.exited
  <$> Daemon.run wait_options late_talking
        [Daemon.SocketData 0 [TALK]; Daemon.ReplayEnd 0; Daemon.ReplayEnd 1]
  = Some (Some 1%Z).
Proof. vm_compute. reflexivity. Qed.

Lemma recorded_step options σ e σ' :
  Daemon.step options σ e = Some σ' → recorded_inv options σ → recorded_inv options σ'.
Proof.
  intros Hstep.
  destruct e as [st data|code signal|s|s buffer|s|r n|r|t|s|];
    step_inv Hstep; unfold recorded_inv, recorded; intros Hinv; fields; try done.
  - destruct (wait options && _) eqn:Hwait; fields.
    + apply andb_prop in Hwait as [Hw Hsize]. apply bool_decide_eq_true in Hsize.
      intros _. split_and!; [done..|]. by apply leibniz_equiv, size_empty_inv.
    + intros Hrec. destruct (Hinv Hrec) as (_ & ? & _). congruence.
  - destruct (buffer !! 0%nat) as [command|]; [|done].
    destruct (command =? KILL)%Z; [done|]. by destruct (command =? TALK)%Z.
  - destruct (bool_decide _); fields; [|done].
    intros Hrec. destruct (Hinv Hrec) as (? & ? & Hclients). split_and!; [done..|].
    rewrite Hclients. apply empty_difference_L.
  - destruct (JS.is_defined (Daemon.childExitCode σ) || JS.is_defined (Daemon.childSignal σ))
      eqn:Hrec; fields; [by rewrite Hrec|].
    destruct (Daemon.justSpawned σ); fields; rewrite Hrec; done.
  - destruct (Daemon.callback _); by fields.
Qed.

(** X8.  The child's exit is recorded for a later client only in wait mode,
    only after the child has closed, and from then on no client is
    registered: in every state the daemon reaches with a recorded exit
    the set [clients] is empty, so the loop over [clients] at a late
    attach has nothing to end. *)
Theorem exit_recorded_when_unattended options es σ :
  Daemon.run options Daemon.spawnCommand es = Some σ →
  recorded σ = true →
  wait options = true
  ∧ Daemon.child_closed σ = true
  ∧ Daemon.clients σ = ∅
  ∧ ∀ f, Daemon.for_clients f σ = σ.
Proof.
  intros Hrun Hrec.
  assert (wait options = true ∧ Daemon.child_closed σ = true ∧ Daemon.clients σ = ∅)
    as (? & ? & ?).
  { revert es σ Hrun Hrec.
    apply (run_ind options (λ _ σ, recorded_inv options σ)); [done|].
    intros es σ e σ' _ Hinv Hstep. by eapply recorded_step. }
  split_and!; [done..|]. intros f. by apply for_clients_empty.
Qed.

Lemma exit_recorded_when_unattended_witness :
  wait wait_options = true
  ∧ Daemon.child_closed waiting = true
  ∧ Daemon.clients waiting = ∅
  ∧ ∀ f, Daemon.for_clients f waiting = waiting.
Proof.
  apply (exit_recorded_when_unattended wait_options waiting_run); vm_compute; reflexivity.
Defined.


Lemma justSpawned_step options σ e σ' :
  Daemon.step options σ e = Some σ' →
  Daemon.justSpawned σ = false → Daemon.justSpawned σ' = false.
Proof.
  intros Hstep.
  destruct e as [st data|code signal|s|s buffer|s|r n|r|t|s|];
    step_inv Hstep; intros Hjust; fields; try done.
  - by destruct (wait options && _); fields.
  - destruct (buffer !! 0%nat) as [command|]; [|done].
    destruct (command =? KILL)%Z; [done|]. by destruct (command =? TALK)%Z.
  - by destruct (bool_decide _); fields.
  - destruct (JS.is_defined _ || JS.is_defined _); fields; [done|].
    by destruct (Daemon.justSpawned σ) eqn:?; fields.
  - by destruct (Daemon.callback _); fields.
Qed.

Lemma justSpawned_run options es : ∀ σ σ',
  Daemon.run options σ es = Some σ' →
  Daemon.justSpawned σ = false → Daemon.justSpawned σ' = false.
Proof.
  induction es as [|e es IH]; intros σ σ' Hrun Hjust; simpl in Hrun; [by simplify_eq|].
  destruct (Daemon.step options σ e) as [σ1|] eqn:Hstep; [|done].
  eapply IH; [done|]. by eapply justSpawned_step.
Qed.

(** X9.  Only the first attach can be announced as "Spawned": once a
    client has been attached, or once the 210 ms timer of [spawnCommand]
    has fired, every replay that ends while the child's exit is not
    recorded schedules, with delay 0, the "Attached" banner for its
    socket. *)
Theorem later_attach_is_announced_attached options σ0 e σ es σ' r rp :
  Daemon.step options σ0 e = Some σ →
  clears_justSpawned σ0 e →
  Daemon.run options σ es = Some σ' →
  Daemon.exited σ' = None →
  recorded σ' = false →
  Daemon.replays σ' !! r = Some rp →
  ∃ σ'',
    Daemon.step options σ' (Daemon.ReplayEnd r) = Some σ''
    ∧ Daemon.timers σ'' !! Daemon.next_timer σ'
      = Some (Daemon.mkTimer 0
                (Daemon.WriteBanner (Daemon.rp_sock rp) Daemon.attached_message))
    ∧ Daemon.rp_sock rp ∈ Daemon.clients σ''.
Proof.
  intros Hstep Hclears Hrun Hexited Hrec Hrp.
  assert (Daemon.justSpawned σ = false) as Hjust.
  { destruct e as [st data|code signal|s|s buffer|s|r0 n|r0|t|s|]; try done.
    - unfold clears_justSpawned, recorded in Hclears.
      step_inv Hstep. fields. rewrite Hclears. cbv iota.
      by destruct (Daemon.justSpawned σ0) eqn:?; fields.
    - destruct Hclears as (tm & Htm & Hcb).
      step_inv Hstep. simplify_eq. rewrite Hcb. by fields. }
  pose proof (justSpawned_run _ _ _ _ Hrun Hjust) as Hjust'.
  unfold Daemon.step. rewrite Hexited, Hrp. eexists. split; [done|].
  unfold recorded in Hrec. fields. rewrite Hrec, Hjust'. fields.
  split; [by rewrite lookup_insert_eq|]. set_solver.
Qed.

Lemma later_attach_is_announced_attached_witness :
  ∃ σ'',
    Daemon.step plain_options talking_two (Daemon.ReplayEnd 1) = Some σ''
    ∧ Daemon.timers σ'' !! Daemon.next_timer talking_two
      = Some (Daemon.mkTimer 0
                (Daemon.WriteBanner (Daemon.rp_sock (Daemon.mkReplay 1 [104; 105]%Z))
                   Daemon.attached_message))
    ∧ Daemon.rp_sock (Daemon.mkReplay 1 [104; 105]%Z) ∈ Daemon.clients σ''.
Proof.
  apply (later_attach_is_announced_attached plain_options talking_one (Daemon.ReplayEnd 0)
           serving_one [Daemon.Connection 1; Daemon.SocketData 1 [TALK]]);
    vm_compute; reflexivity.
Defined.

Lemma idle_step options σ e σ' :
  Daemon.step options σ e = Some σ' →
  chunk_of TALK e = false →
  error_event e = false →
  idle σ → no_ended σ →
  idle σ' ∧ no_ended σ'
  ∧ Daemon.listening σ' = Daemon.listening σ
  ∧ Daemon.childExitCode σ' = Daemon.childExitCode σ
  ∧ Daemon.childSignal σ' = Daemon.childSignal σ.
Proof.
  intros Hstep.
  destruct e as [st data|code signal|s|s buffer|s|r n|r|t|s|];
    step_inv Hstep; unfold idle, exit_pending, no_ended; cbn [chunk_of error_event];
    intros Htalk Herror (Hclosed & Hexited & Hreplays & Hpending) Hno;
    try congruence; fields.
  - split_and!; try done. by apply none_ended_insert.
  - destruct buffer as [|command buffer]; [done|]. simpl.
    destruct (command =? KILL)%Z; [done|]. by rewrite Htalk.
  - destruct (bool_decide _); fields; split_and!; try done;
      by apply none_ended_alter.
  - by rewrite Hreplays, lookup_empty in *.
  - by rewrite Hreplays, lookup_empty in *.
  - rename t0 into tm.
    destruct (Daemon.callback tm) as [|s msg|exitCode] eqn:Hcb; fields.
    + split_and!; try done.
      intros (t' & tm' & c' & Ht & Hc'). apply lookup_delete_Some in Ht as [_ Ht].
      destruct Hpending. by exists t', tm', c'.
    + rewrite (raises_no_ended s σ) by done. split_and!; try done.
      * intros (t' & tm' & c' & Ht & Hc'). apply lookup_delete_Some in Ht as [_ Ht].
        destruct Hpending. by exists t', tm', c'.
      * apply none_ended_alter; [apply sock_write_ended|done].
    + destruct Hpending. by exists t, tm, exitCode.
Qed.



Lemma remove_first_snoc s p : s ∉ p → Daemon.remove_first s (p ++ [s]) = p.
Proof.
  induction p as [|x p IH]; intros Hs; simpl.
  - by rewrite Nat.eqb_refl.
  - apply not_elem_of_cons in Hs as [Hne Hs].
    destruct (Nat.eqb_spec x s) as [->|_]; [done|]. by rewrite IH.
Qed.

Lemma remove_first_snoc_ne s s' p :
  s ≠ s' → Daemon.remove_first s (p ++ [s']) = Daemon.remove_first s p ++ [s'].
Proof.
  intros Hne. induction p as [|x p IH]; simpl.
  - by destruct (Nat.eqb_spec s' s) as [->|_].
  - destruct (Nat.eqb_spec x s) as [->|_]; [done|]. by rewrite IH.
Qed.

Lemma elem_of_remove_first x s l : x ∈ Daemon.remove_first s l → x ∈ l.
Proof.
  induction l as [|y l IH]; simpl; [done|].
  destruct (Nat.eqb_spec y s) as [->|_]; [by right|].
  rewrite !elem_of_cons. intros [->|?]; [by left|right; by apply IH].
Qed.

Lemma elem_of_remove_first_ne x s l : x ≠ s → x ∈ l → x ∈ Daemon.remove_first s l.
Proof.
  intros Hne. induction l as [|y l IH]; simpl; [done|].
  rewrite elem_of_cons. intros [->|Hx].
  - destruct (Nat.eqb_spec y s) as [->|_]; [done|by left].
  - destruct (Nat.eqb_spec y s) as [->|_]; [done|right; by apply IH].
Qed.

Lemma registrations_cons s x l :
  registrations s (x :: l)
  = ((if bool_decide (x = s) then 1 else 0) + registrations s l)%nat.
Proof.
  unfold registrations. rewrite filter_cons.
  case_bool_decide; by rewrite decide_bool_decide, ?bool_decide_eq_true_2,
    ?bool_decide_eq_false_2 by done.
Qed.

Lemma registrations_elem_of s l : s ∈ l → (1 ≤ registrations s l)%nat.
Proof.
  induction 1 as [|x]; rewrite registrations_cons.
  - rewrite bool_decide_eq_true_2 by done. lia.
  - lia.
Qed.

Lemma repeated_app n m data : repeated (n + m) data = repeated n data ++ repeated m data.
Proof. unfold repeated. by rewrite replicate_add, concat_app. Qed.

Lemma registrations_remove_first s l :
  registrations s (Daemon.remove_first s l) = pred (registrations s l).
Proof.
  induction l as [|x l IH]; simpl; [done|].
  rewrite registrations_cons. destruct (Nat.eqb_spec x s) as [->|Hne].
  - by rewrite bool_decide_eq_true_2.
  - rewrite registrations_cons, bool_decide_eq_false_2 by done. simpl. apply IH.
Qed.

Lemma registrations_remove_first_ne s s' l :
  s' ≠ s → registrations s' (Daemon.remove_first s l) = registrations s' l.
Proof.
  intros Hne. induction l as [|x l IH]; simpl; [done|].
  rewrite registrations_cons. destruct (Nat.eqb_spec x s) as [->|Hne'].
  - by rewrite bool_decide_eq_false_2.
  - by rewrite registrations_cons, IH.
Qed.

Lemma registrations_notin s l : registrations s l = 0%nat → s ∉ l.
Proof. intros Hreg Hin%registrations_elem_of. lia. Qed.

Lemma registrations_app s l1 l2 :
  registrations s (l1 ++ l2) = (registrations s l1 + registrations s l2)%nat.
Proof. unfold registrations. by rewrite filter_app, length_app. Qed.

Lemma registrations_zero s l : s ∉ l → registrations s l = 0%nat.
Proof.
  induction l as [|x l IH]; [done|]. intros [Hne Hs]%not_elem_of_cons.
  by rewrite registrations_cons, bool_decide_eq_false_2, IH.
Qed.

Lemma sock_write_out data sk :
  Daemon.sock_out (Daemon.sock_write data sk)
  = Daemon.sock_out sk ++ (if Daemon.writable sk then data else []).
Proof.
  unfold Daemon.sock_write. destruct (Daemon.writable sk); [done|].
  rewrite (right_id_L [] (++)). by case_match.
Qed.

Lemma sock_write_keeps_writable data sk :
  Daemon.writable (Daemon.sock_write data sk) = Daemon.writable sk.
Proof.
  unfold Daemon.sock_write. destruct (Daemon.writable sk) eqn:Hw; [done|].
  case_match; [|done]. unfold Daemon.writable. simpl. by rewrite andb_false_r.
Qed.

Lemma writes_by_registration data s : ∀ l (m : gmap nat Daemon.Socket) sk,
  m !! s = Some sk →
  ∃ sk',
    foldl (λ m s, alter (Daemon.sock_write data) s m) m l !! s = Some sk'
    ∧ Daemon.sock_out sk'
      = Daemon.sock_out sk
          ++ (if Daemon.writable sk then repeated (registrations s l) data else [])
    ∧ Daemon.writable sk' = Daemon.writable sk.
Proof.
  induction l as [|x l IH]; intros m sk Hsk; simpl.
  - exists sk. split_and!; [done| |done].
    destruct (Daemon.writable sk); unfold repeated, registrations; simpl;
      by rewrite (right_id_L [] (++)).
  - rewrite registrations_cons. case_bool_decide as Hx.
    + subst x.
      destruct (IH (alter (Daemon.sock_write data) s m) (Daemon.sock_write data sk))
        as (sk' & Hsk' & Hout & Hw); [by rewrite lookup_alter_eq, Hsk|].
      exists sk'. split; [done|].
      rewrite Hout, Hw, sock_write_out, sock_write_keeps_writable.
      split; [|done]. destruct (Daemon.writable sk); [|by rewrite (right_id_L [] (++))].
      rewrite (repeated_app 1). unfold repeated. simpl.
      by rewrite (right_id_L [] (++)), <- !(assoc_L (++)).
    + destruct (IH (alter (Daemon.sock_write data) x m) sk) as (sk' & Hsk' & Hout & Hw);
        [by rewrite lookup_alter_ne|].
      by exists sk'.
Qed.

(** X11.  When an attached client's connection closes, the daemon drops
    that client and nothing else: the socket leaves [clients] and is
    unpiped from both streams, the child is not signalled and runs on, the
    buffer is untouched, the process lives on, and every other client that
    is being forwarded the output, whether it attached before or after the
    one that left, is forwarded it as before. *)
Theorem close_detaches_one_client options σ s out :
  forwarding s out σ →
  s ∈ Daemon.clients σ →
  ∃ σ',
    Daemon.step options σ (Daemon.SocketClose s) = Some σ'
    ∧ (s ∉ Daemon.clients σ')
    ∧ (s ∉ Daemon.stdout_pipes σ')
    ∧ (s ∉ Daemon.stderr_pipes σ')
    ∧ Daemon.clients σ' = Daemon.clients σ ∖ {[s]}
    ∧ Daemon.bl σ' = Daemon.bl σ
    ∧ Daemon.treekills σ' = Daemon.treekills σ
    ∧ Daemon.exited σ' = None
    ∧ Daemon.child_closed σ' = false
    ∧ ∀ s' out', s' ≠ s → forwarding s' out' σ → forwarding s' out' σ'.
Proof.
  intros (Hexited & Hclosed & Hreg1 & Hreg2 & sk & Hsk & Hw & _) Hclient.
  unfold Daemon.step. rewrite Hexited, Hsk.
  assert (Daemon.sock_closed sk = false) as ->.
  { unfold Daemon.writable in Hw. by destruct (Daemon.sock_closed sk), (Daemon.sock_ended sk),
      (Daemon.sock_destroyed sk). }
  eexists. split; [done|].
  unfold Daemon.socket_on_close.
  rewrite bool_decide_eq_true_2 by done.
  fields. split_and!; [| | |done..|].
  - intros [_ Hs]%elem_of_difference. by apply Hs, elem_of_singleton.
  - apply registrations_notin. by rewrite registrations_remove_first, Hreg1.
  - apply registrations_notin. by rewrite registrations_remove_first, Hreg2.
  - intros s' out' Hne (_ & _ & Hs1 & Hs2 & sk' & Hsk' & Hw' & Hout').
    unfold forwarding. fields.
    rewrite !registrations_remove_first_ne by done.
    split_and!; [done..|]. exists sk'. by rewrite lookup_alter_ne.
Qed.

Lemma serving_two_forwarding s :
  (s < 2)%nat → forwarding s [104; 105]%Z serving_two.
Proof.
  intros Hs. unfold forwarding.
  destruct s as [|[|s]]; [| |lia]; (split_and!; [by vm_compute..|]);
    eexists; by split_and!.
Qed.

Lemma close_detaches_one_client_witness :
  ∃ σ',
    Daemon.step plain_options serving_two (Daemon.SocketClose 0) = Some σ'
    ∧ (0%nat ∉ Daemon.clients σ')
    ∧ (0%nat ∉ Daemon.stdout_pipes σ')
    ∧ (0%nat ∉ Daemon.stderr_pipes σ')
    ∧ Daemon.clients σ' = Daemon.clients serving_two ∖ {[0%nat]}
    ∧ Daemon.bl σ' = Daemon.bl serving_two
    ∧ Daemon.treekills σ' = Daemon.treekills serving_two
    ∧ Daemon.exited σ' = None
    ∧ Daemon.child_closed σ' = false
    ∧ ∀ s' out', s' ≠ 0%nat → forwarding s' out' serving_two → forwarding s' out' σ'.
Proof.
  apply (close_detaches_one_client plain_options serving_two 0 [104; 105]%Z).
  - apply serving_two_forwarding. lia.
  - vm_compute. reflexivity.
Defined.

(** Two clients attached, in the order 0, 1: both are forwarded the
    output; the first one closes, and the chunk the child emits next is
    written to the second one. *)
Example other_client_is_forwarded :
  Daemon.stdout_pipes serving_two = [0; 1]%nat
  ∧ (Daemon.run plain_options serving_two
       [Daemon.SocketClose 0; Daemon.ChildData Daemon.Stdout [33]%Z]
     ≫= λ σ, (λ sk, (Daemon.stdout_pipes σ, Daemon.sock_out sk)) <$> Daemon.socks σ !! 1%nat)
    = Some ([1%nat], [104; 105; 33]%Z).
Proof. by vm_compute. Qed.

Lemma pipes_step options σ e σ' :
  Daemon.step options σ e = Some σ' → pipes_inv σ → pipes_inv σ'.
Proof.
  intros Hstep.
  destruct e as [st data|code signal|s|s buffer|s|r n|r|t|s|];
    step_inv Hstep; unfold pipes_inv; intros [Heq Hclients]; fields; try done.
  - by destruct (wait options && _); fields.
  - destruct (buffer !! 0%nat) as [command|]; [|done].
    destruct (command =? KILL)%Z; [done|]. by destruct (command =? TALK)%Z.
  - destruct (bool_decide _); fields; [|done].
    split; [by rewrite Heq|].
    intros s' [Hs' Hne]%elem_of_difference.
    apply elem_of_remove_first_ne; [|by apply Hclients].
    intros ->. by apply Hne, elem_of_singleton.
  - destruct (JS.is_defined _ || JS.is_defined _); fields; [done|].
    destruct (Daemon.justSpawned σ) eqn:?; fields.
    all: split; [by rewrite Heq|].
    all: intros s' [->%elem_of_singleton|Hs']%elem_of_union;
      apply elem_of_app; [right; by apply list_elem_of_singleton|left; by apply Hclients].
  - by destruct (Daemon.callback _); fields.
Qed.

(** X13.  In every state the daemon reaches, the two streams of the child
    are piped into the same sockets, and a chunk the child emits on either
    stream is written to every live client: at least once, and nothing
    else is written to the client by that event. *)
Theorem every_client_gets_every_chunk options es σ s sk st data :
  Daemon.run options Daemon.spawnCommand es = Some σ →
  live_client σ s sk →
  Daemon.stdout_pipes σ = Daemon.stderr_pipes σ
  ∧ ∃ sk' k,
      Daemon.socks (Daemon.child_on_data st data σ) !! s = Some sk'
      ∧ Daemon.sock_out sk' = Daemon.sock_out sk ++ data ++ repeated k data
      ∧ Daemon.writable sk' = true.
Proof.
  intros Hrun.
  assert (pipes_inv σ) as [Heq Hclients].
  { revert es σ Hrun.
    apply (run_ind options (λ _ σ, pipes_inv σ)).
    - split; [done|]. intros s'. unfold Daemon.spawnCommand. fields.
      by intros ?%not_elem_of_empty.
    - intros es σ e σ' _ Hinv Hstep. by eapply pipes_step. }
  intros (Hclient & Hsk & Hw). split; [done|].
  destruct (writes_by_registration data s (Daemon.pipes_of st σ) (Daemon.socks σ) sk Hsk)
    as (sk' & Hsk' & Hout & Hw').
  assert (1 ≤ registrations s (Daemon.pipes_of st σ))%nat as Hreg.
  { apply registrations_elem_of. destruct st; simpl; [|rewrite <- Heq]; by apply Hclients. }
  destruct (registrations s (Daemon.pipes_of st σ)) as [|k]; [lia|].
  exists sk', k. rewrite child_on_data_lookup. split; [done|].
  rewrite Hw' in *. rewrite Hw in Hout. split; [|done].
  rewrite Hout. change (S k) with (1 + k)%nat. rewrite repeated_app.
  unfold repeated at 1. simpl. by rewrite (right_id_L [] (++)).
Qed.

Lemma every_client_gets_every_chunk_witness :
  Daemon.stdout_pipes serving_one = Daemon.stderr_pipes serving_one
  ∧ ∃ sk' k,
      Daemon.socks (Daemon.child_on_data Daemon.Stderr [33]%Z serving_one) !! 0%nat = Some sk'
      ∧ Daemon.sock_out sk'
        = Daemon.sock_out (Daemon.mkSocket [104; 105]%Z false false false)
            ++ [33]%Z ++ repeated k [33]%Z
      ∧ Daemon.writable sk' = true.
Proof.
  apply (every_client_gets_every_chunk plain_options serving_one_run serving_one 0).
  - vm_compute. reflexivity.
  - destruct serving_one_live as (sk & (Hclient & _) & _).
    split_and!; [exact Hclient|vm_compute; reflexivity|reflexivity].
Defined.

Lemma foldr_alter_notin (f : Daemon.Socket → Daemon.Socket) (l : list nat)
    (m : gmap nat Daemon.Socket) s :
  s ∉ l → foldr (λ s m, alter f s m) m l !! s = m !! s.
Proof.
  induction l as [|x l IH]; simpl; [done|].
  intros [Hne Hs]%not_elem_of_cons. rewrite lookup_alter_ne by done. by apply IH.
Qed.

Lemma late_socks_lookup_ne socket σ s :
  s ≠ socket → s ∉ Daemon.clients σ →
  late_socks socket σ !! s = Daemon.socks σ !! s.
Proof.
  intros Hne Hclient. unfold late_socks, late_status, late_clients.
  rewrite !lookup_alter_ne by done.
  apply foldr_alter_notin. by rewrite elem_of_elements.
Qed.

Lemma silent_step options s σ e σ' :
  Daemon.step options σ e = Some σ' →
  talk_from s e = false →
  silent s σ → silent s σ'.
Proof.
  intros Hstep.
  destruct e as [st data|code signal|s0|s0 buffer|s0|r n|r|t|s0|];
    step_inv Hstep; unfold silent; cbn [talk_from];
    intros Htalk (Hout & Hp1 & Hp2 & Hclient & Hreplays & Htimers); fields.
  - (* ChildData *)
    split_and!; try done. intros sk. rewrite foldl_alter_notin; [apply Hout|].
    by destruct st.
  - (* ChildClose *)
    destruct (wait options && _); fields; split_and!; try done.
    intros sk. rewrite foldr_alter_notin; [apply Hout|].
    by rewrite elem_of_elements.
  - (* Connection *)
    split_and!; try done. intros sk.
    destruct (decide (s0 = s)) as [->|Hne].
    + rewrite lookup_insert_eq. by intros [= <-].
    + rewrite lookup_insert_ne by done. apply Hout.
  - (* SocketData *)
    destruct buffer as [|command buffer]; [done|]. simpl.
    destruct (command =? KILL)%Z eqn:Hkill; [done|].
    destruct (command =? TALK)%Z eqn:Htalk'; fields; [|done].
    split_and!; try done.
    intros r rp [[<- <-]|[_ Hr]]%lookup_insert_Some; [|by eapply Hreplays].
    simpl. intros ->. by rewrite Nat.eqb_refl in Htalk.
  - (* SocketClose *)
    assert (∀ sk, alter Daemon.sock_close s0 (Daemon.socks σ) !! s = Some sk →
                  Daemon.sock_out sk = [] ∧ Daemon.sock_ended sk = false) as Hout'.
    { intros sk. destruct (decide (s0 = s)) as [->|Hne].
      - rewrite lookup_alter_eq. destruct (Daemon.socks σ !! s) as [sk0|] eqn:Hsk0; [|done].
        simpl. intros [= <-]. simpl. by apply Hout.
      - rewrite lookup_alter_ne by done. apply Hout. }
    destruct (bool_decide _); fields; split_and!; try done.
    + intros Hin. by apply elem_of_remove_first in Hin.
    + intros Hin. by apply elem_of_remove_first in Hin.
    + intros [? _]%elem_of_difference. done.
  - (* ReplayRead *)
    rename r0 into rp.
    pose proof (Hreplays _ _ Heqo0) as Hne.
    split_and!; try done.
    + intros sk. rewrite lookup_alter_ne by done. apply Hout.
    + intros r' rp' [[<- <-]|[_ Hr]]%lookup_insert_Some; [done|by eapply Hreplays].
  - (* ReplayEnd *)
    rename r0 into rp.
    pose proof (Hreplays _ _ Heqo0) as Hne.
    destruct (JS.is_defined _ || JS.is_defined _); fields.
    + split_and!; try done.
      * intros sk. rewrite late_socks_lookup_ne; [|by intros ->|by fields]. fields.
        rewrite lookup_alter_ne by done. apply Hout.
      * intros r' rp' [_ Hr]%lookup_delete_Some. by eapply Hreplays.
      * intros t tm s' msg [[<- <-]|[_ Ht]]%lookup_insert_Some; [done|by eapply Htimers].
    + destruct (Daemon.justSpawned σ) eqn:?; fields.
      all: split_and!; try done.
      all: try (intros sk; rewrite lookup_alter_ne by done; apply Hout).
      all: try (intros [?| ->%list_elem_of_singleton]%elem_of_app; done).
      all: try (intros [->%elem_of_singleton|?]%elem_of_union; done).
      all: try (intros r' rp' [_ Hr]%lookup_delete_Some; by eapply Hreplays).
      all: intros t tm s' msg [[<- <-]|[_ Ht]]%lookup_insert_Some;
        [simpl; by intros [= <- _]|by eapply Htimers].
  - (* Timeout *)
    rename t0 into tm.
    destruct (Daemon.callback tm) as [|s' msg|exitCode] eqn:Hcb; fields.
    all: split_and!; try done.
    all: try (intros t' tm' s'' msg' [_ Ht]%lookup_delete_Some; by eapply Htimers).
    intros sk. rewrite lookup_alter_ne; [apply Hout|]. by eapply Htimers.
  - (* SocketError *)
    done.
  - (* ChildError *)
    done.
Qed.

(** X14.  The daemon writes nothing to a connection that has not asked for
    it: along every run, a socket from which no chunk starting with TALK
    has arrived was sent no byte at all (no replay, no output of the
    child, no banner, no trailer), and it is not among the clients.  So a
    connection used only to send KILL receives nothing. *)
Theorem silent_until_talk options es σ s sk :
  Daemon.run options Daemon.spawnCommand es = Some σ →
  forallb (λ e, negb (talk_from s e)) es = true →
  Daemon.socks σ !! s = Some sk →
  Daemon.sock_out sk = [] ∧ s ∉ Daemon.clients σ.
Proof.
  intros Hrun Hes.
  assert (silent s σ) as (Hout & _ & _ & Hclient & _).
  { revert es σ Hrun Hes.
    apply (run_ind options (λ es σ,
      forallb (λ e, negb (talk_from s e)) es = true → silent s σ)).
    - intros _. unfold silent, Daemon.spawnCommand. fields. split_and!; try done.
      all: try apply not_elem_of_nil.
      intros t tm s' msg [[<- <-]|[_ Ht]]%lookup_insert_Some; done.
    - intros es σ e σ' _ IH Hstep Hes. rewrite forallb_app in Hes. simpl in Hes.
      apply andb_prop in Hes as [Hes He]. rewrite andb_true_r in He.
      apply negb_true_iff in He. eapply silent_step; [done..|]. by apply IH. }
  intros Hsk. split; [by apply Hout|done].
Qed.

Lemma silent_until_talk_witness :
  Daemon.sock_out Daemon.fresh_socket = [] ∧ 1%nat ∉ Daemon.clients bystander.
Proof.
  apply (silent_until_talk plain_options bystander_run bystander 1 Daemon.fresh_socket);
    vm_compute; reflexivity.
Defined.

Lemma first_byte_only_step options σ e :
  Daemon.step options σ (first_byte_only e) = Daemon.step options σ e.
Proof.
  destruct e as [st data|code signal|s|s buffer|s|r n|r|t|s|]; try done.
  unfold Daemon.step, Daemon.socket_on_data. simpl.
  by destruct buffer as [|command buffer].
Qed.

(** X15.  Of every chunk a client sends, the daemon reads the first byte
    and nothing else: a run in which every chunk is cut down to its first
    byte leaves the daemon in the same state.  A command byte that arrives
    in the same chunk as the one before it is never acted on. *)
Theorem only_the_first_byte_of_a_chunk_counts options es : ∀ σ,
  Daemon.run options σ (first_byte_only <$> es) = Daemon.run options σ es.
Proof.
  induction es as [|e es IH]; intros σ; simpl; [done|].
  rewrite first_byte_only_step. by destruct (Daemon.step options σ e).
Qed.

(** A client attaches and Ctrl-D is pressed at once: when its two bytes
    arrive as one chunk, the child is not signalled; when they arrive as
    two chunks, it is. *)
Example talk_and_kill_in_one_chunk :
  (Daemon.treekills <$>
     Daemon.run plain_options connected_one [Daemon.SocketData 0 [TALK; KILL]]) = Some 0%nat
  ∧ (Daemon.treekills <$>
       Daemon.run plain_options connected_one
         [Daemon.SocketData 0 [TALK]; Daemon.SocketData 0 [KILL]]) = Some 1%nat.
Proof. by vm_compute. Qed.

(** *** Attaching to a running child, and to a stopped one *)

Lemma exit_inv_run options es σ :
  Daemon.run options Daemon.spawnCommand es = Some σ → healthy σ ∧ exit_inv es σ.
Proof.
  revert es σ. apply (run_ind options (λ es σ, healthy σ ∧ exit_inv es σ)).
  - split; [apply healthy_spawnCommand|].
    split; [done|]. simpl. split_and!; [done..|].
    intros (t & tm & c & Ht & Hc).
    unfold Daemon.spawnCommand, Daemon.setTimeout in Ht. simpl in Ht.
    by apply lookup_insert_Some in Ht as [[<- <-]|[_ Ht]].
  - intros es σ e σ' _ [Hh Hinv] Hstep.
    split; [by eapply healthy_step|by eapply exit_inv_step].
Qed.

(** A daemon that lives while its child runs is [running]. *)
Lemma running_run options es σ :
  Daemon.run options Daemon.spawnCommand es = Some σ →
  Daemon.exited σ = None → Daemon.child_closed σ = false → running σ.
Proof.
  intros Hrun Hexited Hchild.
  destruct (exit_inv_run _ _ _ Hrun) as [Hh [_ Hinv]].
  destruct (child_closes es) as [|[c sg] [|]]; [|destruct Hinv as [? _]; congruence|done].
  destruct Hinv as (_ & _ & Hrec & Hpending).
  split_and!; try done. by apply Hh.
Qed.

Lemma silent_run options s es σ :
  Daemon.run options Daemon.spawnCommand es = Some σ →
  forallb (λ e, negb (talk_from s e)) es = true →
  silent s σ.
Proof.
  revert es σ.
  apply (run_ind options (λ es σ,
    forallb (λ e, negb (talk_from s e)) es = true → silent s σ)).
  - intros _. unfold silent, Daemon.spawnCommand. fields. split_and!; try done.
    all: try apply not_elem_of_nil.
    intros t tm s' msg [[<- <-]|[_ Ht]]%lookup_insert_Some; done.
  - intros es σ e σ' _ IH Hstep Hes. rewrite forallb_app in Hes. simpl in Hes.
    apply andb_prop in Hes as [Hes He]. rewrite andb_true_r in He.
    apply negb_true_iff in He. eapply silent_step; [done..|]. by apply IH.
Qed.

(** The chunk [TALK] from a connection that has not attached starts the
    replay of the buffer. *)
Lemma talk_starts_draining options s rest σ σ' :
  Daemon.step options σ (Daemon.SocketData s (TALK :: rest)) = Some σ' →
  silent s σ →
  σ' = Daemon.socket_on_data s (TALK :: rest) σ
  ∧ draining s (Daemon.next_replay σ) (Daemon.bl σ) σ'.
Proof.
  intros Hstep (Hout & Hp1 & Hp2 & Hclient & Hreplays & Htimers).
  step_inv Hstep. split; [done|]. rewrite socket_on_data_TALK.
  unfold draining. fields. split_and!; [done..|lia| |done|].
  - intros r' rp [[<- <-]|[_ Hr]]%lookup_insert_Some; [done|].
    intros Hs. by destruct (Hreplays _ _ Hr).
  - destruct (Hout _ eq_refl) as [Hempty Hended].
    exists s0, (Daemon.bl σ). rewrite lookup_insert_eq, Hempty.
    split_and!; [done| |done..]. by apply open_writable.
Qed.

Lemma draining_step options s r target σ e σ' :
  Daemon.step options σ e = Some σ' →
  lets_drain s r e = true →
  draining s r target σ → draining s r target σ'.
Proof.
  intros Hstep Hlets.
  apply andb_prop in Hlets as [[Htalk%negb_true_iff Hcloses%negb_true_iff]%andb_prop
                                 Hends%negb_true_iff].
  intros (Hp1 & Hp2 & Hclient & Hnext & Hreplays & Htimers & sk & rest & Hsk & Hw & Hr & Hout).
  destruct e as [st data|code signal|s0|s0 buffer|s0|r0 n|r0|t|s0|];
    step_inv Hstep; unfold draining; cbn [talk_from closes ends_replay] in *; fields.
  - (* ChildData *)
    split_and!; try done. exists sk, rest.
    rewrite foldl_alter_notin; [done|by destruct st].
  - (* ChildClose *)
    destruct (wait options && _); fields; split_and!; try done; exists sk, rest;
      [done|]. rewrite foldr_alter_notin; [done|by rewrite elem_of_elements].
  - (* Connection *)
    split_and!; try done. exists sk, rest. rewrite lookup_insert_ne; [done|congruence].
  - (* SocketData *)
    destruct buffer as [|command buffer]; [by split_and!; try done; exists sk, rest|].
    simpl. destruct (command =? KILL)%Z; [by split_and!; try done; exists sk, rest|].
    destruct (command =? TALK)%Z eqn:Hcommand; fields;
      [|by split_and!; try done; exists sk, rest].
    rewrite andb_true_r in Htalk. apply Nat.eqb_neq in Htalk.
    split_and!; [done..|lia| |done|].
    + intros r' rp [[<- <-]|[_ Hr']]%lookup_insert_Some; [done|by apply Hreplays].
    + exists sk, rest. rewrite lookup_insert_ne by lia. done.
  - (* SocketClose *)
    apply Nat.eqb_neq in Hcloses.
    assert (alter Daemon.sock_close s0 (Daemon.socks σ) !! s = Some sk) as Hsk'
      by by rewrite lookup_alter_ne.
    destruct (bool_decide _); fields.
    + split_and!;
        [by intros ?%elem_of_remove_first|by intros ?%elem_of_remove_first
        |by intros [? _]%elem_of_difference|done..|by exists sk, rest].
    + split_and!; try done. by exists sk, rest.
  - (* ReplayRead *)
    rename r1 into rp. destruct (decide (Daemon.rp_sock rp = s)) as [Hs|Hs].
    + pose proof (Hreplays _ _ Heqo0 Hs) as ->.
      rewrite Hr in Heqo0. injection Heqo0 as <-. simpl.
      rewrite (alter_lookup_insert _ s sk), sock_push_written by done.
      split_and!; try done.
      * intros r' rp' [[<- <-]|[_ Hr']]%lookup_insert_Some; [done|by apply Hreplays].
      * eexists _, _. rewrite !lookup_insert_eq. split_and!; [done..|].
        unfold written. simpl. by rewrite <- (assoc_L (++)), take_drop.
    + assert (r0 ≠ r) as Hne by (intros ->; rewrite Hr in Heqo0; by injection Heqo0 as <-).
      split_and!; try done.
      * intros r' rp' [[<- <-]|[_ Hr']]%lookup_insert_Some; [done|by apply Hreplays].
      * exists sk, rest. by rewrite lookup_alter_ne, lookup_insert_ne.
  - (* ReplayEnd *)
    rename r1 into rp. apply Nat.eqb_neq in Hends.
    assert (Daemon.rp_sock rp ≠ s) as Hs.
    { intros Hs. by apply Hends, (Hreplays _ rp). }
    destruct (JS.is_defined _ || JS.is_defined _); fields.
    + split_and!; try done.
      * intros r' rp' [_ Hr']%lookup_delete_Some ?. by apply (Hreplays r' rp').
      * intros t tm s' msg [[<- <-]|[_ Ht]]%lookup_insert_Some; [done|by eapply Htimers].
      * exists sk, rest. rewrite late_socks_lookup_ne; [|done|by fields]. fields.
        by rewrite lookup_alter_ne, lookup_delete_ne.
    + destruct (Daemon.justSpawned σ) eqn:?; fields.
      all: split_and!;
        [by intros [?| ->%list_elem_of_singleton]%elem_of_app
        |by intros [?| ->%list_elem_of_singleton]%elem_of_app
        |by intros [->%elem_of_singleton|?]%elem_of_union
        |done
        |intros r' rp' [_ Hr']%lookup_delete_Some ?; by apply (Hreplays r' rp')
        |intros t tm s' msg [[<- <-]|[_ Ht]]%lookup_insert_Some;
           [simpl; by intros [= <- _]|by eapply Htimers]
        |exists sk, rest; by rewrite lookup_alter_ne, lookup_delete_ne].
  - (* Timeout *)
    rename t0 into tm.
    assert (∀ t' tm' s'' msg',
              delete t (Daemon.timers σ) !! t' = Some tm' →
              Daemon.callback tm' = Daemon.WriteBanner s'' msg' → s'' ≠ s) as Htimers'.
    { intros t' tm' s'' msg' [_ Ht]%lookup_delete_Some. by eapply Htimers. }
    destruct (Daemon.callback tm) as [|s' msg|exitCode] eqn:Hcb; fields.
    all: split_and!; try done.
    1,3: by exists sk, rest.
    exists sk, rest. rewrite lookup_alter_ne; [done|]. by eapply Htimers.
  - (* SocketError *)
    split_and!; try done. by exists sk, rest.
  - (* ChildError *)
    split_and!; try done. by exists sk, rest.
Qed.

Lemma draining_run options s r target es : ∀ σ σ',
  Daemon.run options σ es = Some σ' →
  forallb (lets_drain s r) es = true →
  draining s r target σ → draining s r target σ'.
Proof.
  induction es as [|e es IH]; intros σ σ' Hrun Hes Hd; simpl in *; [by simplify_eq|].
  apply andb_prop in Hes as [He Hes].
  destruct (Daemon.step options σ e) as [σ1|] eqn:Hstep; [|done].
  eapply IH; [done..|]. by eapply draining_step.
Qed.

Lemma running_step options σ e σ' :
  Daemon.step options σ e = Some σ' →
  child_runs e = true →
  running σ → running σ'.
Proof.
  intros Hstep Hruns (Hexited & Hchild & Hrec & Hno & Hpending).
  assert (Daemon.exited σ' = None ∧ Daemon.child_closed σ' = false
          ∧ recorded σ' = false ∧ ¬ exit_pending σ') as (? & ? & ? & ?).
  { unfold recorded in Hrec. pose proof Hstep as Hstep'.
    destruct e as [st data|code signal|s|s buffer|s|r n|r|t|s|]; try done;
      step_inv Hstep'; unfold exit_pending in *.
    - rewrite child_on_data_eq, (any_raises_no_ended _ σ), died_false by done. by fields.
    - by fields.
    - fields. destruct (buffer !! 0%nat) as [command|]; [|done].
      destruct (command =? KILL)%Z; [done|]. by destruct (command =? TALK)%Z.
    - fields. by destruct (bool_decide _); fields.
    - rewrite push_eq, raises_no_ended, andb_false_r, died_false by done. by fields.
    - rewrite push_eq, raises_no_ended, andb_false_r, died_false by done.
      fields. rewrite Hrec. destruct (Daemon.justSpawned σ); fields; rewrite ?Hrec.
      all: split_and!; try done.
      all: intros (t & tm & c & [[<- <-]|[_ Ht]]%lookup_insert_Some & Hc); [done|].
      all: destruct Hpending; by exists t, tm, c.
    - rename t0 into tm.
      assert (¬ ∃ t' tm' c, delete t (Daemon.timers σ) !! t' = Some tm'
                            ∧ Daemon.callback tm' = Daemon.CloseAndExit c) as Hpending'.
      { intros (t' & tm' & c & [_ Ht]%lookup_delete_Some & Hc).
        destruct Hpending. by exists t', tm', c. }
      destruct (Daemon.callback tm) as [|s msg|exitCode] eqn:Hcb; fields.
      + done.
      + by rewrite (raises_no_ended s σ).
      + destruct Hpending. by exists t, tm, exitCode. }
  split_and!; try done.
  by apply (healthy_step _ _ _ _ Hstep); [intros _ _|..].
Qed.

(** ['end'] of the replay, while the child runs: what is left of the
    snapshot goes out, the child's streams are piped into the socket, the
    client is registered and its banner is scheduled. *)
Lemma end_starts_serving options s r target σ σ' :
  Daemon.step options σ (Daemon.ReplayEnd r) = Some σ' →
  running σ →
  draining s r target σ →
  serving s target
    (Some (Daemon.next_timer σ,
           JS.bytes_of_string (if Daemon.justSpawned σ then Daemon.spawned_message
                               else Daemon.attached_message))) σ'.
Proof.
  intros Hstep (Hexited & Hchild & Hrec & Hno & Hpending)
    (Hp1 & Hp2 & Hclient & Hnext & Hreplays & Htimers & sk & rest & Hsk & Hw & Hr & Hout).
  unfold Daemon.step in Hstep. rewrite Hexited, Hr in Hstep. simpl in Hstep.
  rewrite (push_writable s rest sk) in Hstep by done. injection Hstep as <-.
  rewrite bufferStream_on_end_eq.
  change (recorded (Daemon.set_replays _ _ _)) with (recorded σ). rewrite Hrec.
  unfold serving. fields.
  assert (∀ r' rp, delete r (Daemon.replays σ) !! r' = Some rp → Daemon.rp_sock rp ≠ s)
    as Hreplays'.
  { intros r' rp [Hne Hr']%lookup_delete_Some Hs. by destruct Hne, (Hreplays r' rp). }
  assert (registrations s [s] = 1%nat) as Hone.
  { by rewrite registrations_cons, bool_decide_eq_true_2. }
  destruct (Daemon.justSpawned σ); fields.
  all: rewrite !registrations_app, Hone, (registrations_zero s (Daemon.stdout_pipes σ)),
    (registrations_zero s (Daemon.stderr_pipes σ)) by done.
  all: split_and!;
    [done|done|set_solver|done
    |eexists; rewrite lookup_insert_eq; split_and!; [done..|];
       unfold written; simpl; by rewrite <- Hout
    |intros t tm s' msg [[<- <-]|[_ Ht]]%lookup_insert_Some Hcb Hs;
       [by eexists|by destruct (Htimers _ _ _ _ Ht Hcb)]
    |lia
    |eexists _, _; by rewrite lookup_insert_eq].
Qed.

Lemma serving_step options s out banner σ e σ' :
  Daemon.step options σ e = Some σ' →
  keeps_attached s e = true →
  running σ →
  serving s out banner σ →
  serving s (out ++ (emitted banner e).1) (emitted banner e).2 σ'.
Proof.
  intros Hstep Hkeeps (Hexited & Hchild & Hrec & Hno & Hpending).
  apply andb_prop in Hkeeps as [[Hruns Htalk%negb_true_iff]%andb_prop Hcloses%negb_true_iff].
  intros (Hreg1 & Hreg2 & Hclient & Hreplays & (sk & Hsk & Hw & Hout) & Honly & Hbanner).
  unfold recorded in Hrec.
  destruct e as [st data|code signal|s0|s0 buffer|s0|r0 n|r0|t|s0|]; try done;
    step_inv Hstep; unfold serving; cbn [talk_from closes] in *;
    lazymatch goal with
    | |- context [emitted _ (Daemon.Timeout _)] => idtac
    | _ => cbn [emitted fst snd]; rewrite ?(right_id_L [] (++))
    end.
  - (* ChildData *)
    fields. split_and!; try done.
    destruct (writes_by_registration data s (Daemon.pipes_of st σ) (Daemon.socks σ) sk Hsk)
      as (sk' & Hsk' & Hout' & Hw').
    exists sk'. split; [by destruct st|]. rewrite Hw', Hout', Hw, Hout.
    split; [done|]. f_equal.
    replace (registrations s (Daemon.pipes_of st σ)) with 1%nat by by destruct st.
    unfold repeated. simpl. by rewrite (right_id_L [] (++)).
  - (* Connection *)
    fields. split_and!; try done. exists sk. rewrite lookup_insert_ne; [done|congruence].
  - (* SocketData *)
    fields. destruct buffer as [|command buffer]; [by split_and!; try done; exists sk|].
    simpl. destruct (command =? KILL)%Z; [by split_and!; try done; exists sk|].
    destruct (command =? TALK)%Z eqn:Hcommand; fields; [|by split_and!; try done; exists sk].
    rewrite andb_true_r in Htalk. apply Nat.eqb_neq in Htalk.
    split_and!; try done; [|by exists sk].
    intros r' rp [[<- <-]|[_ Hr']]%lookup_insert_Some; [done|by eapply Hreplays].
  - (* SocketClose *)
    apply Nat.eqb_neq in Hcloses.
    assert (alter Daemon.sock_close s0 (Daemon.socks σ) !! s = Some sk) as Hsk'
      by by rewrite lookup_alter_ne.
    fields. destruct (bool_decide _); fields.
    + rewrite !registrations_remove_first_ne by done.
      split_and!; try done; [set_solver|by exists sk].
    + split_and!; try done. by exists sk.
  - (* ReplayRead *)
    rename r into rp. pose proof (Hreplays _ _ Heqo0) as Hs.
    fields. split_and!; try done.
    + intros r' rp' [[<- <-]|[_ Hr']]%lookup_insert_Some; [done|by eapply Hreplays].
    + exists sk. by rewrite lookup_alter_ne.
  - (* ReplayEnd *)
    rename r into rp. pose proof (Hreplays _ _ Heqo0) as Hs.
    fields. rewrite Hrec.
    destruct (Daemon.justSpawned σ); fields.
    all: rewrite !registrations_app, !(registrations_zero s [_])
      by by intros ->%list_elem_of_singleton.
    all: split_and!; [lia|lia|set_solver| | | |].
    1,5: intros r' rp' [_ Hr']%lookup_delete_Some; by eapply Hreplays.
    1,4: exists sk; by rewrite lookup_alter_ne.
    1,3: intros t tm s' msg [[<- <-]|[_ Ht]]%lookup_insert_Some Hcb Hs';
      [simpl in Hcb; congruence|by eapply Honly].
    all: destruct banner as [[tb bytes]|]; [|done].
    all: destruct Hbanner as (Hlt & d & msg & Htb & Hbytes).
    all: split; [lia|]; exists d, msg; by rewrite lookup_insert_ne by lia.
  - (* Timeout *)
    rename t0 into tm.
    destruct (Daemon.callback tm) as [|s' msg|exitCode] eqn:Hcb.
    + (* the timer of [spawnCommand] *)
      assert ((emitted banner (Daemon.Timeout t)) = ([], banner)) as ->.
      { simpl. destruct banner as [[tb bytes]|]; [|done].
        destruct Hbanner as (_ & d & msg & Htb & _).
        destruct (Nat.eqb_spec t tb) as [->|_]; [|done]. by simplify_eq. }
      cbn [fst snd]. rewrite (right_id_L [] (++)). fields.
      split_and!; try done; [by exists sk| |].
      * intros t' tm' s' msg [_ Ht]%lookup_delete_Some. by eapply Honly.
      * destruct banner as [[tb bytes]|]; [|done].
        destruct Hbanner as (Hlt & d & msg & Htb & Hbytes). split; [done|].
        exists d, msg. rewrite lookup_delete_ne; [done|]. intros ->. by simplify_eq.
    + destruct (decide (s' = s)) as [->|Hne].
      * (* the banner of [s] *)
        destruct (Honly _ _ _ _ Heqo0 Hcb eq_refl) as [bytes ->].
        destruct Hbanner as (Hlt & d & msg' & Htb & Hbytes).
        assert (msg' = msg) as ->.
        { rewrite Htb in Heqo0. injection Heqo0 as <-. simpl in Hcb. by injection Hcb. }
        simpl. rewrite Nat.eqb_refl. cbn [fst snd]. fields.
        rewrite (alter_lookup_insert _ s sk), sock_write_written by done.
        split_and!; try done.
        -- eexists. rewrite lookup_insert_eq. split_and!; [done..|].
           unfold written. simpl. by rewrite Hout, Hbytes.
        -- intros t' tm' s' msg'' [Hne Ht]%lookup_delete_Some Hcb' ->.
           destruct (Honly _ _ _ _ Ht Hcb' eq_refl) as [? [= ->]]. done.
      * (* the banner of another client *)
        assert (∀ tb d msg',
                  Daemon.timers σ !! tb
                  = Some (Daemon.mkTimer d (Daemon.WriteBanner s msg')) → t ≠ tb) as Hother.
        { intros tb d msg' Htb ->. rewrite Htb in Heqo0. injection Heqo0 as <-.
          simpl in Hcb. by injection Hcb as <- _. }
        assert ((emitted banner (Daemon.Timeout t)) = ([], banner)) as ->.
        { simpl. destruct banner as [[tb bytes]|]; [|done].
          destruct Hbanner as (_ & d & msg' & Htb & _).
          destruct (Nat.eqb_spec t tb) as [->|_]; [|done]. by destruct (Hother _ _ _ Htb). }
        cbn [fst snd]. rewrite (right_id_L [] (++)). fields.
        split_and!; try done.
        -- exists sk. by rewrite lookup_alter_ne.
        -- intros t' tm' s'' msg' [_ Ht]%lookup_delete_Some. by eapply Honly.
        -- destruct banner as [[tb bytes]|]; [|done].
           destruct Hbanner as (Hlt & d & msg' & Htb & Hbytes). split; [done|].
           exists d, msg'. rewrite lookup_delete_ne; [done|]. by eapply Hother.
    + destruct Hpending. by exists t, tm, exitCode.
Qed.

Lemma serving_run options s es : ∀ out banner σ σ',
  Daemon.run options σ es = Some σ' →
  forallb (keeps_attached s) es = true →
  running σ →
  serving s out banner σ →
  running σ' ∧ ∃ banner', serving s (out ++ forwarded banner es) banner' σ'.
Proof.
  induction es as [|e es IH]; intros out banner σ σ' Hrun Hes Hrunning Hserving; simpl in *.
  - simplify_eq. split; [done|]. exists banner. by rewrite (right_id_L [] (++)).
  - apply andb_prop in Hes as [He Hes].
    destruct (Daemon.step options σ e) as [σ1|] eqn:Hstep; [|done].
    rewrite (assoc_L (++)). eapply IH; [done..| |].
    + eapply running_step; [done| |done].
      by apply andb_prop in He as [[? _]%andb_prop _].
    + by eapply serving_step.
Qed.

Lemma step_alive options σ e σ' :
  Daemon.step options σ e = Some σ' → Daemon.exited σ = None.
Proof. unfold Daemon.step. by destruct (Daemon.exited σ). Qed.

Lemma running_steps options es : ∀ σ σ',
  Daemon.run options σ es = Some σ' →
  forallb child_runs es = true →
  running σ → running σ'.
Proof.
  induction es as [|e es IH]; intros σ σ' Hrun Hes Hr; simpl in *; [by simplify_eq|].
  apply andb_prop in Hes as [He Hes].
  destruct (Daemon.step options σ e) as [σ1|] eqn:Hstep; [|done].
  eapply IH; [done..|]. by eapply running_step.
Qed.

Lemma keeps_attached_child_runs s es :
  forallb (keeps_attached s) es = true → forallb child_runs es = true.
Proof.
  induction es as [|e es IH]; simpl; [done|].
  intros [[[-> _]%andb_prop _]%andb_prop Hes]%andb_prop. by apply IH.
Qed.

Lemma keeps_attached_lets_drain s r es :
  forallb (keeps_attached s) es = true →
  forallb (λ e, negb (ends_replay r e)) es = true →
  forallb (lets_drain s r) es = true.
Proof.
  induction es as [|e es IH]; simpl; [done|].
  intros [[[_ Ht]%andb_prop Hc]%andb_prop Hes]%andb_prop [He Hes']%andb_prop.
  unfold lets_drain at 1. by rewrite Ht, Hc, He, IH.
Qed.



(** The run of the witness, evaluated.  The child had written ["hi"]; the
    client is sent ["hi"], then [34], the banner and [35]: the byte [33],
    written while the snapshot drained, is in the buffer only. *)
Example attach_served_output :
  Daemon.sock_out <$> Daemon.socks attach_served !! 0%nat
  = Some ([104; 105; 34]%Z ++ JS.bytes_of_string Daemon.spawned_message ++ [35]%Z)
  ∧ Daemon.bl attach_served = [104; 105; 33; 34; 35]%Z.
Proof. by vm_compute. Qed.

(** Once the child's exit is recorded and no client is registered, it
    stays so, and the buffer stays as it is. *)
Lemma late_step options code signal σ e σ' :
  Daemon.step options σ e = Some σ' →
  late code signal σ →
  late code signal σ' ∧ Daemon.bl σ' = Daemon.bl σ.
Proof.
  intros Hstep (Hchild & Hcode & Hsignal & Hclients).
  destruct e as [st data|c sg|s|s buffer|s|r n|r|t|s|];
    step_inv Hstep; unfold late; try congruence; fields; try done.
  - destruct (buffer !! 0%nat) as [command|]; [|done].
    destruct (command =? KILL)%Z; [done|]. by destruct (command =? TALK)%Z.
  - destruct (bool_decide _); fields; [|done].
    split_and!; try done. rewrite Hclients. apply empty_difference_L.
  - rewrite Hcode, is_defined_of_nullable. cbn [orb]. by fields.
  - by destruct (Daemon.callback _); fields.
Qed.

Lemma late_run options code signal es : ∀ σ σ',
  Daemon.run options σ es = Some σ' →
  late code signal σ →
  late code signal σ' ∧ Daemon.bl σ' = Daemon.bl σ.
Proof.
  induction es as [|e es IH]; intros σ σ' Hrun Hlate; simpl in *; [by simplify_eq|].
  destruct (Daemon.step options σ e) as [σ1|] eqn:Hstep; [|done].
  destruct (late_step _ _ _ _ _ _ Hstep Hlate) as [Hlate1 <-]. by apply IH.
Qed.

(** The timer that exits stays pending as long as the process lives. *)
Lemma exit_timer_step options t c σ e σ' :
  Daemon.step options σ e = Some σ' →
  Daemon.exited σ' = None →
  exit_timer t c σ → exit_timer t c σ'.
Proof.
  intros Hstep Hexited' [Htimer Hlt].
  destruct e as [st data|code signal|s|s buffer|s|r n|r|t'|s|];
    step_inv Hstep; unfold exit_timer; revert Hexited'; fields; try done.
  - by destruct (wait options && _); fields.
  - destruct (buffer !! 0%nat) as [command|]; [|done].
    destruct (command =? KILL)%Z; [done|]. by destruct (command =? TALK)%Z.
  - by destruct (bool_decide _); fields.
  - destruct (_ || _); fields; [|destruct (Daemon.justSpawned σ); fields].
    all: intros _; split; [|lia]; by rewrite lookup_insert_ne by lia.
  - rename t0 into tm. destruct (decide (t' = t)) as [->|Hne].
    + rewrite Htimer in Heqo0. injection Heqo0 as <-. by fields.
    + destruct (Daemon.callback tm); fields; intros _;
        (split; [|done]); by rewrite lookup_delete_ne.
Qed.

Lemma exit_timer_run options t c es : ∀ σ σ',
  Daemon.run options σ es = Some σ' →
  Daemon.exited σ' = None →
  exit_timer t c σ → exit_timer t c σ'.
Proof.
  induction es as [|e es IH]; intros σ σ' Hrun Hexited' Htimer; simpl in *;
    [by simplify_eq|].
  destruct (Daemon.step options σ e) as [σ1|] eqn:Hstep; [|done].
  eapply IH; [done..|]. eapply exit_timer_step; [done| |done].
  destruct es as [|e' es]; simpl in Hrun; [by simplify_eq|].
  destruct (Daemon.step options σ1 e') eqn:Hstep'; [|done]. by eapply step_alive.
Qed.



(** The run of the witness, to its end: the late client was sent ["hi"],
    the status line and the byte 3, and the daemon exits with 3. *)
Example wait_mode_run :
  (Daemon.run wait_options late_drained [Daemon.ReplayEnd 0; Daemon.Timeout 1]
   ≫= λ σ, (λ sk, (Daemon.sock_out sk, Daemon.exited σ)) <$> Daemon.socks σ !! 1%nat)
  = Some (JS.bytes_of_string
            ("hi[deemon] Daemon was stopped when client attached (exit code 3, signal null)."
               +:+ JS.nl)
          ++ [3%Z],
          Some 3%Z).
Proof. vm_compute. reflexivity. Qed.

End DaemonRuns.

(** ** The exit status, from the child to the client *)

Section ExitStatus.

Lemma client_run_app c es1 es2 :
  Client.run c (es1 ++ es2) = Client.run c es1 ≫= λ c', Client.run c' es2.
Proof.
  revert c. induction es1 as [|e es1 IH]; intros c; simpl; [done|].
  destruct (Client.step c e); simpl; [apply IH|done].
Qed.

(** X16.  The exit status travels end to end.  When the child closes while
    a client is live, the daemon exits with the child's code (1 for a null
    code), and the byte stream it has handed to the client's connection
    ends with that code as one byte; a client that receives this stream,
    in whatever chunks, with no pause of 100 ms, writes everything before
    the last byte to its standard output and exits with the last byte as
    its status. *)
Theorem exit_status_reaches_the_client options σ code signal s sk sock w chunks :
  Daemon.exited σ = None →
  Daemon.child_closed σ = false →
  live_client σ s sk →
  concat chunks = Daemon.sock_out sk ++ [JS.ToUint8 (default 1%Z code)] →
  ∃ σ' sk' c,
    Daemon.step options σ (Daemon.ChildClose code signal) = Some σ'
    ∧ Daemon.exited σ' = Some (default 1%Z code)
    ∧ Daemon.socks σ' !! s = Some sk'
    ∧ Daemon.sock_out sk' = concat chunks
    ∧ Client.run (Client.attached sock w) ((Client.Data <$> chunks) ++ [Client.Close])
      = Some c
    ∧ Client.stdout (Client.effects c)
      = Client.stdout (Client.trace w) ++ Daemon.sock_out sk
    ∧ Client.status c = Some (JS.ToUint8 (default 1%Z code)).
Proof.
  intros Hexited Hclosed Hlive Hchunks.
  assert (wait options && bool_decide (size (Daemon.clients σ) = 0%nat) = false) as Hwait.
  { apply andb_false_iff. right. apply bool_decide_eq_false_2.
    intros Hsize%size_empty_inv. destruct Hlive as [Hclient _].
    by apply Hsize in Hclient. }
  destruct (child_on_close_shutdown options code signal (Daemon.set_child_closed true σ) Hwait)
    as (Hexit & _ & Hsocks).
  destruct (Hsocks s sk Hlive) as (sk' & Hsk' & Hout & _).
  destruct (holdback_run (Client.stdout (Client.trace w)) chunks (Client.attached sock w) [])
    as (c & Hrun & Hstatus & Hstdout & Hlast);
    [done|unfold all_but_last; simpl; by rewrite (right_id_L [] (++))|done|].
  simpl in Hstdout, Hlast. rewrite Hchunks in Hstdout, Hlast.
  exists (Daemon.child_on_close options code signal (Daemon.set_child_closed true σ)),
    sk', (Client.on_close c).
  split_and!.
  - unfold Daemon.step. by rewrite Hexited, Hclosed.
  - done.
  - done.
  - by rewrite Hout, Hchunks.
  - rewrite client_run_app, Hrun. simpl. unfold Client.step. by rewrite Hstatus.
  - simpl. rewrite stdout_app, Hstdout. simpl. rewrite (right_id_L [] (++)).
    rewrite all_but_last_app by done. unfold all_but_last. simpl.
    by rewrite (right_id_L [] (++)).
  - simpl. by rewrite Hlast, last_snoc.
Qed.

Lemma exit_status_reaches_the_client_witness :
  ∃ σ' sk' c,
    Daemon.step plain_options serving_one (Daemon.ChildClose (Some 3%Z) None) = Some σ'
    ∧ Daemon.exited σ' = Some (default 1%Z (Some 3%Z))
    ∧ Daemon.socks σ' !! 0%nat = Some sk'
    ∧ Daemon.sock_out sk' = concat [[104]; []; [105; 3]]%Z
    ∧ Client.run (Client.attached 0 (Client.mkWorld [] [] None 1 []))
        ((Client.Data <$> [[104]; []; [105; 3]]%Z) ++ [Client.Close])
      = Some c
    ∧ Client.stdout (Client.effects c)
      = Client.stdout (Client.trace (Client.mkWorld [] [] None 1 []))
          ++ Daemon.sock_out (Daemon.mkSocket [104; 105]%Z false false false)
    ∧ Client.status c = Some (JS.ToUint8 (default 1%Z (Some 3%Z))).
Proof.
  apply (exit_status_reaches_the_client plain_options serving_one (Some 3%Z) None 0
           (Daemon.mkSocket [104; 105]%Z false false false));
    try (vm_compute; reflexivity).
  destruct serving_one_live as (sk & (Hclient & _) & _).
  split_and!; [exact Hclient|vm_compute; reflexivity|reflexivity].
Defined.

(** X17.  The callback of the 100 ms timer writes the held byte and leaves
    it held.  After the timer has fired the byte is still [lastByte]: a
    close then takes it as the exit status although it was written as
    output, and a further chunk writes it a second time before its own
    bytes. *)
Theorem timer_keeps_the_byte_held c b d data :
  Client.status c = None →
  Client.lastByte c = Some b →
  Client.lastByteTimer c = true →
  (∃ c1, Client.step c Client.LastByteTimeout = Some c1
         ∧ Client.stdout (Client.effects c1) = Client.stdout (Client.effects c) ++ [b]
         ∧ Client.lastByte c1 = Some b
         ∧ Client.lastByteTimer c1 = false)
  ∧ (∃ c2, Client.run c [Client.LastByteTimeout; Client.Close] = Some c2
           ∧ Client.stdout (Client.effects c2) = Client.stdout (Client.effects c) ++ [b]
           ∧ Client.status c2 = Some b)
  ∧ (∃ c3, Client.run c [Client.LastByteTimeout; Client.Data (d :: data)] = Some c3
           ∧ Client.stdout (Client.effects c3)
             = Client.stdout (Client.effects c) ++ [b] ++ [b] ++ all_but_last (d :: data)
           ∧ Client.lastByte c3 = last (d :: data)).
Proof.
  destruct c as [sock lb tm ef st]. simpl. intros -> -> ->.
  split_and!.
  - eexists. split; [done|]. simpl. by rewrite stdout_app.
  - eexists. split; [done|]. simpl. rewrite !stdout_app. simpl.
    by rewrite !(right_id_L [] (++)).
  - eexists. split; [done|].
    destruct (on_data_chunk d data
                (Client.on_lastByteTimer
                   (Client.set_lastByteTimer false (Client.mkSession sock (Some b) true ef None))))
      as (Hout & Hlast & _).
    split; [|exact Hlast].
    rewrite Hout. unfold held. simpl. rewrite stdout_app. simpl.
    by rewrite <- !(assoc_L (++)).
Qed.

Lemma timer_keeps_the_byte_held_witness :
  (∃ c1, Client.step (Client.mkSession 0 (Some 105%Z) true [Client.StdoutWrite [104%Z]] None)
           Client.LastByteTimeout = Some c1
         ∧ Client.stdout (Client.effects c1)
           = Client.stdout
               (Client.effects
                  (Client.mkSession 0 (Some 105%Z) true [Client.StdoutWrite [104%Z]] None))
               ++ [105%Z]
         ∧ Client.lastByte c1 = Some 105%Z
         ∧ Client.lastByteTimer c1 = false)
  ∧ (∃ c2, Client.run (Client.mkSession 0 (Some 105%Z) true [Client.StdoutWrite [104%Z]] None)
             [Client.LastByteTimeout; Client.Close] = Some c2
           ∧ Client.stdout (Client.effects c2)
             = Client.stdout
                 (Client.effects
                    (Client.mkSession 0 (Some 105%Z) true [Client.StdoutWrite [104%Z]] None))
                 ++ [105%Z]
           ∧ Client.status c2 = Some 105%Z)
  ∧ (∃ c3, Client.run (Client.mkSession 0 (Some 105%Z) true [Client.StdoutWrite [104%Z]] None)
             [Client.LastByteTimeout; Client.Data (33 :: [0])%Z] = Some c3
           ∧ Client.stdout (Client.effects c3)
             = Client.stdout
                 (Client.effects
                    (Client.mkSession 0 (Some 105%Z) true [Client.StdoutWrite [104%Z]] None))
                 ++ [105%Z] ++ [105%Z] ++ all_but_last (33 :: [0])%Z
           ∧ Client.lastByte c3 = last (33 :: [0])%Z).
Proof. apply timer_keeps_the_byte_held; reflexivity. Defined.

End ExitStatus.

(** ** Wait mode, end to end *)

Section LateAttach.



Lemma on_close_outcome c :
  Client.stdout (Client.effects (Client.on_close c)) = Client.stdout (Client.effects c)
  ∧ Client.status (Client.on_close c) = Some (default 0%Z (Client.lastByte c)).
Proof.
  unfold Client.on_close. simpl. rewrite stdout_app. simpl.
  rewrite (right_id_L [] (++)). split; [done|]. by destruct (Client.lastByte c).
Qed.

Lemma all_but_last_trailer (l : list Z) b : all_but_last (l ++ [b]) = l.
Proof.
  rewrite all_but_last_app by done. unfold all_but_last. simpl.
  by rewrite (right_id_L [] (++)).
Qed.

(** X18.  Wait mode, end to end.  When the replay of a late client ends
    in a daemon that has recorded the child's exit and has no client, the
    client's connection has been handed the snapshot, the status line
    ["[deemon] Daemon was stopped when client attached (exit code <code>,
    signal <signal>)."] with a newline, and the recorded code (1 for a
    null code) as its last byte, and is ended; the timer then set exits the
    daemon with that code; a client that receives the stream, in whatever
    chunks, with no pause of 100 ms, writes all but the last byte and exits
    with that byte as status. *)
Theorem late_client_gets_the_exit_status options σ code signal r s rest sk sock w chunks :
  Daemon.exited σ = None →
  Daemon.childExitCode σ = JS.of_nullable code →
  Daemon.childSignal σ = JS.of_nullable signal →
  Daemon.clients σ = ∅ →
  Daemon.replays σ !! r = Some (Daemon.mkReplay s rest) →
  Daemon.socks σ !! s = Some sk →
  Daemon.writable sk = true →
  concat chunks
  = Daemon.sock_out sk ++ rest
      ++ JS.bytes_of_string
           ("[deemon] Daemon was stopped when client attached (exit code "
              +:+ (match code with Some z => pretty z | None => "null" end)
              +:+ ", signal "
              +:+ (match signal with Some sg => sg | None => "null" end)
              +:+ ")." +:+ JS.nl)
      ++ [JS.ToUint8 (default 1%Z code)] →
  ∃ σ' sk' σ'' c,
    Daemon.step options σ (Daemon.ReplayEnd r) = Some σ'
    ∧ Daemon.socks σ' !! s = Some sk'
    ∧ Daemon.sock_out sk' = concat chunks
    ∧ Daemon.sock_ended sk' = true
    ∧ Daemon.step options σ' (Daemon.Timeout (Daemon.next_timer σ)) = Some σ''
    ∧ Daemon.exited σ'' = Some (default 1%Z code)
    ∧ Daemon.listening σ'' = false
    ∧ Client.run (Client.attached sock w) ((Client.Data <$> chunks) ++ [Client.Close])
      = Some c
    ∧ Client.stdout (Client.effects c)
      = Client.stdout (Client.trace w) ++ Daemon.sock_out sk ++ rest
          ++ JS.bytes_of_string
               ("[deemon] Daemon was stopped when client attached (exit code "
                  +:+ (match code with Some z => pretty z | None => "null" end)
                  +:+ ", signal "
                  +:+ (match signal with Some sg => sg | None => "null" end)
                  +:+ ")." +:+ JS.nl)
    ∧ Client.status c = Some (JS.ToUint8 (default 1%Z code)).
Proof.
  intros Hexited Hcode Hsignal Hclients Hrp Hsk Hw. fold (status_line code signal).
  intros Hchunks.
  set (σ1 := Daemon.set_replays (delete r (Daemon.replays σ)) (Daemon.next_replay σ)
               (Daemon.set_socks (<[s := written rest sk]> (Daemon.socks σ)) σ)).
  assert (Daemon.step options σ (Daemon.ReplayEnd r)
          = Some (Daemon.bufferStream_on_end s σ1)) as Hstep.
  { unfold Daemon.step. rewrite Hexited, Hrp. simpl.
    by rewrite (push_writable s rest sk). }
  assert (Daemon.bufferStream_on_end s σ1
          = Daemon.setTimeout (Daemon.CloseAndExit (default 1%Z code)) 0
              (Daemon.set_socks
                 (<[s := Daemon.mkSocket (concat chunks) true false false]> (Daemon.socks σ1))
                 σ1)) as Hend.
  { rewrite (bufferStream_on_end_late s σ1 (written rest sk)).
    - rewrite (stopped_message_status_line σ1 code signal) by done.
      change (Daemon.childExitCode σ1) with (Daemon.childExitCode σ).
      rewrite Hcode, exit_code_default, Hchunks. unfold written. simpl.
      by rewrite <- !(assoc_L (++)).
    - unfold recorded. change (Daemon.childExitCode σ1) with (Daemon.childExitCode σ).
      by rewrite Hcode, is_defined_of_nullable.
    - done.
    - unfold σ1. simpl. by rewrite lookup_insert_eq.
    - done. }
  destruct (holdback_run (Client.stdout (Client.trace w)) chunks (Client.attached sock w) [])
    as (c & Hrun & Hstatus & Hstdout & Hlast);
    [done|unfold all_but_last; simpl; by rewrite (right_id_L [] (++))|done|].
  simpl in Hstdout, Hlast. rewrite Hchunks in Hstdout, Hlast.
  eexists _, (Daemon.mkSocket (concat chunks) true false false), _, (Client.on_close c).
  split_and!.
  - exact Hstep.
  - rewrite Hend. unfold Daemon.setTimeout. simpl. by rewrite lookup_insert_eq.
  - done.
  - done.
  - rewrite Hend. unfold Daemon.step, Daemon.setTimeout, σ1. simpl.
    rewrite Hexited. by rewrite lookup_insert_eq.
  - done.
  - done.
  - rewrite client_run_app, Hrun. simpl. unfold Client.step. by rewrite Hstatus.
  - destruct (on_close_outcome c) as [-> _]. rewrite Hstdout.
    rewrite !(assoc_L (++)), all_but_last_trailer. by rewrite <- !(assoc_L (++)).
  - destruct (on_close_outcome c) as [_ ->]. rewrite Hlast.
    by rewrite !(assoc_L (++)), last_snoc.
Qed.

Lemma late_client_gets_the_exit_status_witness :
  ∃ σ' sk' σ'' c,
    Daemon.step wait_options late_talking (Daemon.ReplayEnd 0) = Some σ'
    ∧ Daemon.socks σ' !! 0%nat = Some sk'
    ∧ Daemon.sock_out sk'
      = concat [[104; 105]%Z;
                JS.bytes_of_string
                  ("[deemon] Daemon was stopped when client attached (exit code "
                     +:+ pretty 3%Z +:+ ", signal " +:+ "null" +:+ ")." +:+ JS.nl)
                  ++ [3%Z]]
    ∧ Daemon.sock_ended sk' = true
    ∧ Daemon.step wait_options σ' (Daemon.Timeout (Daemon.next_timer late_talking)) = Some σ''
    ∧ Daemon.exited σ'' = Some (default 1%Z (Some 3%Z))
    ∧ Daemon.listening σ'' = false
    ∧ Client.run (Client.attached 0 (Client.mkWorld [] [] None 1 []))
        ((Client.Data
            <$> [[104; 105]%Z;
                 JS.bytes_of_string
                   ("[deemon] Daemon was stopped when client attached (exit code "
                      +:+ pretty 3%Z +:+ ", signal " +:+ "null" +:+ ")." +:+ JS.nl)
                   ++ [3%Z]])
           ++ [Client.Close])
      = Some c
    ∧ Client.stdout (Client.effects c)
      = Client.stdout (Client.trace (Client.mkWorld [] [] None 1 []))
          ++ Daemon.sock_out Daemon.fresh_socket ++ [104; 105]%Z
          ++ JS.bytes_of_string
               ("[deemon] Daemon was stopped when client attached (exit code "
                  +:+ pretty 3%Z +:+ ", signal " +:+ "null" +:+ ")." +:+ JS.nl)
    ∧ Client.status c = Some (JS.ToUint8 (default 1%Z (Some 3%Z))).
Proof.
  apply (late_client_gets_the_exit_status wait_options late_talking (Some 3%Z) None 0 0
           [104; 105]%Z Daemon.fresh_socket);
    vm_compute; reflexivity.
Defined.

(** The run of the witness, evaluated: what the late client's connection
    was handed, as text, and the byte that follows it. *)
Example late_client_status :
  (Daemon.run wait_options late_talking [Daemon.ReplayEnd 0]
   ≫= λ σ, Daemon.sock_out <$> Daemon.socks σ !! 0%nat)
  = Some (JS.bytes_of_string
            ("hi[deemon] Daemon was stopped when client attached (exit code 3, signal null)."
               +:+ JS.nl)
          ++ [3%Z]).
Proof. by vm_compute. Qed.

End LateAttach.

(** ** [connect] across the revisions *)

Section AcrossRevisions.

(** X19.  Without [--attach], [connect] behaves as in the earlier
    revisions, where the option did not exist and the daemon was started
    inside [connect]: in every world it makes the same attempts, starts
    the daemon with the same arguments and ends in the same way as the
    [connect] of [src/main.ts], and, without [--wait], as the [connect] of
    the first revision. *)
Theorem connect_as_before_attach env command handle options w :
  attach options = false →
  Client.connect env command handle options w
  = Earlier.connect env command handle options w
  ∧ (wait options = false →
     Client.connect env command handle options w = First.connect env command handle w).
Proof.
  intros Hattach.
  unfold Client.connect, Earlier.connect, First.connect, Client.try_catch.
  destruct (Client.createConnection handle w) as [[sock|err|status] w']; [done| |done].
  rewrite Hattach. split; [done|]. intros Hwait.
  unfold Client.spawnDaemon. by rewrite Hwait.
Qed.

Lemma connect_as_before_attach_witness :
  Client.connect sample_env sample_command sample_handle attach_options
    (Client.mkWorld [Some "ECONNREFUSED"; None] [] None 0 [])
  = Earlier.connect sample_env sample_command sample_handle attach_options
      (Client.mkWorld [Some "ECONNREFUSED"; None] [] None 0 [])
  ∧ (wait attach_options = false →
     Client.connect sample_env sample_command sample_handle attach_options
       (Client.mkWorld [Some "ECONNREFUSED"; None] [] None 0 [])
     = First.connect sample_env sample_command sample_handle
         (Client.mkWorld [Some "ECONNREFUSED"; None] [] None 0 [])).
Proof. apply connect_as_before_attach. reflexivity. Defined.

End AcrossRevisions.
